(** * eglglessink: a shallow embedding of ext/eglgles/gsteglglessink.c

    The sink decouples the streaming thread from a render thread that
    owns the EGL/GLES context.  This development embeds the functions of
    gsteglglessink.c as executable Rocq definitions over an explicit
    sink record, a record of backend answers (EGL, GLES and the window
    system are outside the element) and an event trace, and proves the
    properties the element's specification states about them. *)

From Stdlib Require Import ZArith List Bool Lia Ascii String Floats.
Import ListNotations.
Open Scope Z_scope.

Set Implicit Arguments.

(* ===================================================================== *)
(** ** C integer types *)

Module CInt.

(** Conversion of a value to [gint] / [EGLint] (32 bit, two's complement). *)
Definition to_gint (z : Z) : Z := (z + 2 ^ 31) mod 2 ^ 32 - 2 ^ 31.

(** Conversion of a value to [guint]. *)
Definition to_guint (z : Z) : Z := z mod 2 ^ 32.

(** Conversion of a value to [guint64]. *)
Definition to_guint64 (z : Z) : Z := z mod 2 ^ 64.

Definition G_MAXINT : Z := 2 ^ 31 - 1.
Definition G_MAXUINT64 : Z := 2 ^ 64 - 1.

(** [GST_ROUND_UP_2 (num)] is [((num) + 1) & ~1], [GST_ROUND_UP_4 (num)]
    is [((num) + 3) & ~3]. *)
Definition GST_ROUND_UP_2 (num : Z) : Z := Z.land (num + 1) (Z.lnot 1).
Definition GST_ROUND_UP_4 (num : Z) : Z := Z.land (num + 3) (Z.lnot 3).

End CInt.
Import CInt.

(* ===================================================================== *)
(** ** Enumerations of GStreamer and of the sink *)

Inductive GstFlowReturn :=
| GST_FLOW_OK
| GST_FLOW_ERROR
| GST_FLOW_NOT_NEGOTIATED
| GST_FLOW_WRONG_STATE.

Scheme Equality for GstFlowReturn.

(** The video formats of the pad template, and two that the sink does
    not handle ([default:] in its switches): UNKNOWN and GRAY8. *)
Inductive GstVideoFormat :=
| GST_VIDEO_FORMAT_UNKNOWN
| GST_VIDEO_FORMAT_I420
| GST_VIDEO_FORMAT_YV12
| GST_VIDEO_FORMAT_YUY2
| GST_VIDEO_FORMAT_UYVY
| GST_VIDEO_FORMAT_AYUV
| GST_VIDEO_FORMAT_RGBx
| GST_VIDEO_FORMAT_BGRx
| GST_VIDEO_FORMAT_xRGB
| GST_VIDEO_FORMAT_xBGR
| GST_VIDEO_FORMAT_RGBA
| GST_VIDEO_FORMAT_BGRA
| GST_VIDEO_FORMAT_ARGB
| GST_VIDEO_FORMAT_ABGR
| GST_VIDEO_FORMAT_RGB
| GST_VIDEO_FORMAT_BGR
| GST_VIDEO_FORMAT_Y41B
| GST_VIDEO_FORMAT_Y42B
| GST_VIDEO_FORMAT_YVYU
| GST_VIDEO_FORMAT_Y444
| GST_VIDEO_FORMAT_NV12
| GST_VIDEO_FORMAT_NV21
| GST_VIDEO_FORMAT_GRAY8
| GST_VIDEO_FORMAT_RGB16.

Scheme Equality for GstVideoFormat.

(** The formats of the sink's pad template
    ([gst_eglglessink_sink_template_factory]). *)
Definition template_formats : list GstVideoFormat :=
  [ GST_VIDEO_FORMAT_RGBA; GST_VIDEO_FORMAT_BGRA;
    GST_VIDEO_FORMAT_ARGB; GST_VIDEO_FORMAT_ABGR;
    GST_VIDEO_FORMAT_RGBx; GST_VIDEO_FORMAT_BGRx;
    GST_VIDEO_FORMAT_xRGB; GST_VIDEO_FORMAT_xBGR;
    GST_VIDEO_FORMAT_AYUV; GST_VIDEO_FORMAT_Y444; GST_VIDEO_FORMAT_I420;
    GST_VIDEO_FORMAT_YV12; GST_VIDEO_FORMAT_NV12; GST_VIDEO_FORMAT_NV21;
    GST_VIDEO_FORMAT_YUY2; GST_VIDEO_FORMAT_YVYU; GST_VIDEO_FORMAT_UYVY;
    GST_VIDEO_FORMAT_Y42B; GST_VIDEO_FORMAT_Y41B;
    GST_VIDEO_FORMAT_RGB; GST_VIDEO_FORMAT_BGR;
    GST_VIDEO_FORMAT_RGB16 ].

(** Hardware target formats of a catalog entry ([GstEglGlesImageFmt.fmt]). *)
Inductive GstEglGlesImageFormat :=
| GST_EGLGLESSINK_IMAGE_RGB888
| GST_EGLGLESSINK_IMAGE_RGB565
| GST_EGLGLESSINK_IMAGE_RGBA8888.

Inductive GstStateChange :=
| GST_STATE_CHANGE_NULL_TO_READY
| GST_STATE_CHANGE_READY_TO_PAUSED
| GST_STATE_CHANGE_PAUSED_TO_PLAYING
| GST_STATE_CHANGE_PLAYING_TO_PAUSED
| GST_STATE_CHANGE_PAUSED_TO_READY
| GST_STATE_CHANGE_READY_TO_NULL.

Inductive GstStateChangeReturn :=
| GST_STATE_CHANGE_FAILURE
| GST_STATE_CHANGE_SUCCESS
| GST_STATE_CHANGE_ASYNC
| GST_STATE_CHANGE_NO_PREROLL.

(* ===================================================================== *)
(** ** EGL constants and attribute lists *)

Module EGL.

(** [EGL_DISPLAY_SCALING] is, in the words of the source, "a constant
    with value 10000"; [EGL_UNKNOWN] is [((EGLint) -1)]. *)
Definition EGL_DISPLAY_SCALING : Z := 10000.
Definition EGL_UNKNOWN : Z := -1.

Definition EGL_SANE_DAR_MIN : Z := EGL_DISPLAY_SCALING / 10.
Definition EGL_SANE_DAR_MAX : Z := EGL_DISPLAY_SCALING * 10.

Inductive EGLattrib :=
| EGL_RED_SIZE
| EGL_GREEN_SIZE
| EGL_BLUE_SIZE
| EGL_ALPHA_SIZE
| EGL_SURFACE_TYPE
| EGL_RENDERABLE_TYPE.

Inductive EGLvalue :=
| Bits (n : Z)
| EGL_WINDOW_BIT
| EGL_OPENGL_ES2_BIT.

Definition EGLattribs := list (EGLattrib * EGLvalue).

Definition eglglessink_RGBA8888_attribs : EGLattribs :=
  [ (EGL_RED_SIZE, Bits 8); (EGL_GREEN_SIZE, Bits 8); (EGL_BLUE_SIZE, Bits 8);
    (EGL_ALPHA_SIZE, Bits 8); (EGL_SURFACE_TYPE, EGL_WINDOW_BIT);
    (EGL_RENDERABLE_TYPE, EGL_OPENGL_ES2_BIT) ].

Definition eglglessink_RGB888_attribs : EGLattribs :=
  [ (EGL_RED_SIZE, Bits 8); (EGL_GREEN_SIZE, Bits 8); (EGL_BLUE_SIZE, Bits 8);
    (EGL_SURFACE_TYPE, EGL_WINDOW_BIT);
    (EGL_RENDERABLE_TYPE, EGL_OPENGL_ES2_BIT) ].

Definition eglglessink_RGB565_attribs : EGLattribs :=
  [ (EGL_RED_SIZE, Bits 5); (EGL_GREEN_SIZE, Bits 6); (EGL_BLUE_SIZE, Bits 5);
    (EGL_SURFACE_TYPE, EGL_WINDOW_BIT);
    (EGL_RENDERABLE_TYPE, EGL_OPENGL_ES2_BIT) ].

End EGL.
Import EGL.

(* ===================================================================== *)
(** ** Caps

    [GstCaps] belongs to GStreamer, not to the sink.  A caps is a list
    of structures; a structure names a video format and may fix the
    frame size and the pixel aspect ratio.  An absent field stands for
    the full range a template caps leaves open. *)

Module Caps.

Record GstStructure := {
  st_format : GstVideoFormat;
  st_width : option Z;
  st_height : option Z;
  st_par : option (Z * Z)
}.

Definition GstCaps := list GstStructure.

Definition gst_caps_new_empty : GstCaps := [].

Definition gst_video_format_new_template_caps (f : GstVideoFormat) : GstCaps :=
  [ {| st_format := f; st_width := None; st_height := None; st_par := None |} ].

Definition gst_caps_append (caps1 caps2 : GstCaps) : GstCaps := caps1 ++ caps2.

Definition field_can_intersect {A} (eqb : A -> A -> bool) (a b : option A) : bool :=
  match a, b with
  | Some x, Some y => eqb x y
  | _, _ => true
  end.

Definition par_eqb (p q : Z * Z) : bool :=
  (fst p =? fst q) && (snd p =? snd q).

Definition gst_structure_can_intersect (a b : GstStructure) : bool :=
  GstVideoFormat_beq (st_format a) (st_format b)
  && field_can_intersect Z.eqb (st_width a) (st_width b)
  && field_can_intersect Z.eqb (st_height a) (st_height b)
  && field_can_intersect par_eqb (st_par a) (st_par b).

(** Two caps can intersect when some pair of their structures can. *)
Definition caps_can_intersect (caps1 caps2 : GstCaps) : bool :=
  existsb (fun a => existsb (gst_structure_can_intersect a) caps2) caps1.

(** A caps object in memory: pointer comparisons in the sink compare
    [caps_addr]; [NULL] is [None]. *)
Record GstCapsObj := {
  caps_addr : positive;
  caps_val : GstCaps
}.

Definition caps_ptr_eqb (a b : option GstCapsObj) : bool :=
  match a, b with
  | None, None => true
  | Some x, Some y => Pos.eqb (caps_addr x) (caps_addr y)
  | _, _ => false
  end.

(** [gst_caps_can_intersect] returns FALSE on a NULL argument
    (g_return_val_if_fail). *)
Definition gst_caps_can_intersect (a b : option GstCaps) : bool :=
  match a, b with
  | Some x, Some y => caps_can_intersect x y
  | _, _ => false
  end.

(** [gst_video_format_parse_caps]: fixed caps with a known format and a
    frame size yield (format, width, height). *)
Definition gst_video_format_parse_caps (caps : option GstCaps)
  : option (GstVideoFormat * Z * Z) :=
  match caps with
  | Some [ st ] =>
      match st_format st, st_width st, st_height st with
      | GST_VIDEO_FORMAT_UNKNOWN, _, _ => None
      | f, Some w, Some h => Some (f, w, h)
      | _, _, _ => None
      end
  | _ => None
  end.

(** [gst_video_parse_caps_pixel_aspect_ratio]: fails on caps that are
    not fixed, and reports 1/1 when the field is absent. *)
Definition gst_video_parse_caps_pixel_aspect_ratio (caps : option GstCaps)
  : option (Z * Z) :=
  match caps with
  | Some [ st ] =>
      match st_width st, st_height st with
      | Some _, Some _ =>
          match st_par st with
          | Some p => Some p
          | None => Some (1, 1)
          end
      | _, _ => None
      end
  | _ => None
  end.

Definition fixed_caps (f : GstVideoFormat) (w h : Z) : GstCaps :=
  [ {| st_format := f; st_width := Some w; st_height := Some h;
       st_par := Some (1, 1) |} ].

End Caps.
Import Caps.

(* ===================================================================== *)
(** ** Buffers and the data queue

    [GstBuffer], [GstDataQueueItem] and [GstDataQueue] belong to
    GStreamer.  The queue is modelled by what the sink relies on: a
    flushing flag and the items in FIFO order.  [gst_data_queue_push]
    and [gst_data_queue_pop] return FALSE when the queue is flushing.
    The pop waits while the queue is empty.  The push waits while the
    queue is full according to the sink's [queue_check_full_func],
    until an item is taken out or the queue is set flushing. *)

Module Queue.

Record GstBuffer := {
  buf_id : Z;
  buf_caps : option GstCapsObj;
  buf_size : Z;
  buf_duration : Z
}.

Definition GST_CLOCK_TIME_NONE : Z := 2 ^ 64 - 1.

Record GstDataQueueItem := {
  object : option GstBuffer;
  size : Z;
  duration : Z;
  visible : bool
}.

Record GstDataQueue := {
  flushing : bool;
  items : list GstDataQueueItem
}.

Definition cur_level_visible (q : GstDataQueue) : Z :=
  Z.of_nat (List.length (filter visible (items q))).

(** The sink's capacity callback: the queue is full as soon as it holds
    a visible item. *)
Definition queue_check_full_func (visible bytes time : Z) : bool :=
  negb (visible =? 0).

Definition gst_data_queue_is_full (q : GstDataQueue) : bool :=
  queue_check_full_func (cur_level_visible q) 0 0.

(** What a call of [gst_data_queue_push] comes to: the item is queued
    (TRUE), the queue is flushing (FALSE), or the caller waits for
    room in [g_cond_wait (item_del)]. *)
Inductive PushResult :=
| PushAccepted (q : GstDataQueue)
| PushRefused
| PushWait.

Definition gst_data_queue_push (q : GstDataQueue) (item : GstDataQueueItem)
  : PushResult :=
  if flushing q then PushRefused
  else if gst_data_queue_is_full q then PushWait
  else PushAccepted {| flushing := false; items := items q ++ [item] |}.

Inductive PopResult :=
| PopItem (item : GstDataQueueItem) (q : GstDataQueue)
| PopFlushing
| PopWait.

Definition gst_data_queue_pop (q : GstDataQueue) : PopResult :=
  if flushing q then PopFlushing
  else match items q with
       | [] => PopWait
       | item :: rest => PopItem item {| flushing := false; items := rest |}
       end.

Definition gst_data_queue_set_flushing (q : GstDataQueue) (f : bool) : GstDataQueue :=
  {| flushing := f; items := items q |}.

Definition gst_data_queue_new : GstDataQueue :=
  {| flushing := false; items := [] |}.

End Queue.
Import Queue.

(* ===================================================================== *)
(** ** Shaders and texture uploads *)

(** Fragment shader sources of the video program, with the swizzle
    characters [g_strdup_printf] substitutes for the [%c] of the
    templates. *)
Inductive FragmentShader :=
| frag_COPY_prog
| frag_REORDER_prog (c1 c2 c3 : ascii)
| frag_AYUV_prog
| frag_YUY2_YVYU_UYVY_prog (y u v : ascii)
| frag_PLANAR_YUV_prog
| frag_NV12_NV21_prog (u v : ascii)
| frag_BLACK_prog.

Inductive GLformat :=
| GL_RGB
| GL_RGBA
| GL_LUMINANCE
| GL_LUMINANCE_ALPHA.

Inductive GLtype :=
| GL_UNSIGNED_BYTE
| GL_UNSIGNED_SHORT_5_6_5.

(** One [glTexImage2D] call: texture unit, format, dimensions, element
    type, and the offset of the pixels in the buffer. *)
Record TexImage := {
  tex_unit : nat;
  tex_format : GLformat;
  tex_width : Z;
  tex_height : Z;
  tex_type : GLtype;
  tex_offset : Z
}.

(* ===================================================================== *)
(** ** What the world outside the element answers

    EGL, GLES, the platform wrapper, the parent class and the
    application are not part of gsteglglessink.c.  A [Backend] fixes
    their answers for the duration of one call. *)

(** The places where the GL part of [gst_eglglessink_init_egl_surface]
    can fail, in the order of the source: the shader compiler query, the
    two shaders and the program of the video quad, the two shaders and
    the program of the border fill, the textures. *)
Inductive SurfaceStage :=
| StShaderCompiler
| StVertexShader0
| StFragmentShader0
| StProgram0
| StVertexShader1
| StFragmentShader1
| StProgram1
| StTextures.

Scheme Equality for SurfaceStage.

Record Backend := {
  platform_wrapper_init : bool;
  eglGetDisplay : Z;                         (* 0 is EGL_NO_DISPLAY *)
  eglInitialize : option (Z * Z);            (* major, minor *)
  eglChooseConfig : EGLattribs -> option Z;  (* None is EGL_FALSE, else num_config *)
  eglCreateContext : Z;                      (* 0 is EGL_NO_CONTEXT *)
  platform_create_native_window : Z -> Z -> Z;   (* 0: no window *)
  (* the window handle the application hands over when asked by
     gst_x_overlay_prepare_xwindow_id, if it does *)
  app_window_handle : option Z;
  eglCreateWindowSurface : Z;                (* 0 is EGL_NO_SURFACE *)
  query_swap_behavior : option bool;         (* Some true: EGL_BUFFER_PRESERVED *)
  query_pixel_aspect_ratio : Z;
  query_surface_width : Z;
  query_surface_height : Z;
  eglGetCurrentContext : Z;
  eglMakeCurrent : bool;
  surface_failure : option SurfaceStage;     (* first failing GL step of the setup *)
  glTexImage2D_error : bool;
  vbo_error : bool;
  border_error : bool;
  video_error : bool;
  eglSwapBuffers : bool;
  glCreateProgram : nat -> Z;                (* handle of glslprogram[i] *)
  g_thread_create : bool;
  parent_change_state : GstStateChange -> GstStateChangeReturn
}.

(** Calls that leave the element, in the order they are made. *)
Inductive Event :=
| EvWipeEglGlesCtx
| EvProbeConfig (attribs : EGLattribs)
| EvChooseConfig (attribs : EGLattribs)
| EvCreateContext
| EvPrepareXWindowId
| EvCreateNativeWindow (width height : Z)
| EvDestroyNativeWindow (window : Z)
| EvGotWindowHandle (window : Z)
| EvCreateWindowSurface (window : Z)
| EvShaderSource (slot : nat) (prog : FragmentShader)
| EvGenTextures (n : Z)
| EvTexImage2D (t : TexImage)
| EvSetupVbo
| EvDrawBorders
| EvDrawVideo
| EvSwapBuffers
| EvDestroySurface
| EvDestroyContext
| EvRenderLock
| EvRenderUnlock
| EvRenderCondBroadcast
| EvRenderCondWait
| EvQueuePush (item : GstDataQueueItem)
| EvQueuePop (item : GstDataQueueItem)
| EvItemDestroy
| EvSetFlushing (f : bool)
| EvThreadCreate
| EvThreadJoin
| EvTerminateDisplay.

(* ===================================================================== *)
(** ** The sink *)

(** [GstVideoRectangle]; its fields are read as [Rect.w r]. *)
Module Rect.
Record GstVideoRectangle := {
  x : Z;
  y : Z;
  w : Z;
  h : Z
}.
End Rect.
Definition GstVideoRectangle := Rect.GstVideoRectangle.

Record GstEglGlesImageFmt := {
  fmt : GstEglGlesImageFormat;
  attribs : EGLattribs;
  caps : GstCaps
}.

(** [eglglessink->eglglesctx].  Handles are numbers, 0 standing for
    NULL, EGL_NO_SURFACE and the like.  [fragshader0] is the source
    attached to [fragshader[0]]. *)
Record GstEglGlesRenderContext := {
  window : Z;
  used_window : Z;
  display : Z;
  eglcontext : Z;
  surface : Z;
  egl_minor : Z;
  egl_major : Z;
  glslprogram0 : Z;
  glslprogram1 : Z;
  fragshader0 : option FragmentShader;
  surface_width : Z;
  surface_height : Z;
  pixel_aspect_ratio : Z;
  n_textures : Z;
  buffer_preserved : bool
}.

(** [GstEglGlesSink], with the fields of its parents the code uses:
    the object lock of GstObject and the frame size of GstVideoSink. *)
Record GstEglGlesSink := {
  object_lock : bool;                 (* GST_OBJECT_LOCK is held *)
  video_width : Z;                    (* GST_VIDEO_SINK_WIDTH *)
  video_height : Z;                   (* GST_VIDEO_SINK_HEIGHT *)
  par_n : Z;
  par_d : Z;
  format : GstVideoFormat;
  display_region : GstVideoRectangle;
  sinkcaps : option GstCaps;
  current_caps : option GstCapsObj;
  configured_caps : option GstCapsObj;
  supported_fmts : list (option GstEglGlesImageFmt);
  selected_fmt : option GstEglGlesImageFmt;
  eglglesctx : GstEglGlesRenderContext;
  have_window : bool;
  using_own_window : bool;
  have_surface : bool;
  have_vbo : bool;
  have_texture : bool;
  egl_started : bool;
  thread : bool;                      (* eglglessink->thread is not NULL *)
  last_flow : GstFlowReturn;
  queue : GstDataQueue;
  create_window : bool;
  force_aspect_ratio : bool
}.

(** *** Field assignment

    [set_f v s] is the record [s] after [s->f = v].  The setters are
    read off the eta expansion of the record. *)

Definition ctx_eta (c : GstEglGlesRenderContext) : GstEglGlesRenderContext :=
  Build_GstEglGlesRenderContext
    (window c) (used_window c) (display c) (eglcontext c) (surface c)
    (egl_minor c) (egl_major c) (glslprogram0 c) (glslprogram1 c)
    (fragshader0 c) (surface_width c) (surface_height c)
    (pixel_aspect_ratio c) (n_textures c) (buffer_preserved c).

Definition sink_eta (s : GstEglGlesSink) : GstEglGlesSink :=
  Build_GstEglGlesSink
    (object_lock s) (video_width s) (video_height s) (par_n s) (par_d s)
    (format s) (display_region s) (sinkcaps s) (current_caps s)
    (configured_caps s) (supported_fmts s) (selected_fmt s) (eglglesctx s)
    (have_window s) (using_own_window s) (have_surface s) (have_vbo s)
    (have_texture s) (egl_started s) (thread s) (last_flow s) (queue s)
    (create_window s) (force_aspect_ratio s).

Ltac setter eta proj :=
  let e := eval cbv delta [eta] in eta in
  match eval pattern proj in e with
  | ?F _ =>
      let r := eval cbv beta in (fun v s => F (fun _ => v) s) in
      exact r
  end.

Definition set_window : Z -> GstEglGlesRenderContext -> GstEglGlesRenderContext :=
  ltac:(setter ctx_eta window).
Definition set_used_window : Z -> GstEglGlesRenderContext -> GstEglGlesRenderContext :=
  ltac:(setter ctx_eta used_window).
Definition set_display : Z -> GstEglGlesRenderContext -> GstEglGlesRenderContext :=
  ltac:(setter ctx_eta display).
Definition set_eglcontext : Z -> GstEglGlesRenderContext -> GstEglGlesRenderContext :=
  ltac:(setter ctx_eta eglcontext).
Definition set_surface : Z -> GstEglGlesRenderContext -> GstEglGlesRenderContext :=
  ltac:(setter ctx_eta surface).
Definition set_egl_minor : Z -> GstEglGlesRenderContext -> GstEglGlesRenderContext :=
  ltac:(setter ctx_eta egl_minor).
Definition set_egl_major : Z -> GstEglGlesRenderContext -> GstEglGlesRenderContext :=
  ltac:(setter ctx_eta egl_major).
Definition set_glslprogram0 : Z -> GstEglGlesRenderContext -> GstEglGlesRenderContext :=
  ltac:(setter ctx_eta glslprogram0).
Definition set_glslprogram1 : Z -> GstEglGlesRenderContext -> GstEglGlesRenderContext :=
  ltac:(setter ctx_eta glslprogram1).
Definition set_fragshader0
  : option FragmentShader -> GstEglGlesRenderContext -> GstEglGlesRenderContext :=
  ltac:(setter ctx_eta fragshader0).
Definition set_surface_width : Z -> GstEglGlesRenderContext -> GstEglGlesRenderContext :=
  ltac:(setter ctx_eta surface_width).
Definition set_surface_height : Z -> GstEglGlesRenderContext -> GstEglGlesRenderContext :=
  ltac:(setter ctx_eta surface_height).
Definition set_pixel_aspect_ratio : Z -> GstEglGlesRenderContext -> GstEglGlesRenderContext :=
  ltac:(setter ctx_eta pixel_aspect_ratio).
Definition set_n_textures : Z -> GstEglGlesRenderContext -> GstEglGlesRenderContext :=
  ltac:(setter ctx_eta n_textures).
Definition set_buffer_preserved : bool -> GstEglGlesRenderContext -> GstEglGlesRenderContext :=
  ltac:(setter ctx_eta buffer_preserved).

Definition set_object_lock : bool -> GstEglGlesSink -> GstEglGlesSink :=
  ltac:(setter sink_eta object_lock).
Definition set_video_width : Z -> GstEglGlesSink -> GstEglGlesSink :=
  ltac:(setter sink_eta video_width).
Definition set_video_height : Z -> GstEglGlesSink -> GstEglGlesSink :=
  ltac:(setter sink_eta video_height).
Definition set_par_n : Z -> GstEglGlesSink -> GstEglGlesSink :=
  ltac:(setter sink_eta par_n).
Definition set_par_d : Z -> GstEglGlesSink -> GstEglGlesSink :=
  ltac:(setter sink_eta par_d).
Definition set_format : GstVideoFormat -> GstEglGlesSink -> GstEglGlesSink :=
  ltac:(setter sink_eta format).
Definition set_display_region : GstVideoRectangle -> GstEglGlesSink -> GstEglGlesSink :=
  ltac:(setter sink_eta display_region).
Definition set_sinkcaps : option GstCaps -> GstEglGlesSink -> GstEglGlesSink :=
  ltac:(setter sink_eta sinkcaps).
Definition set_current_caps : option GstCapsObj -> GstEglGlesSink -> GstEglGlesSink :=
  ltac:(setter sink_eta current_caps).
Definition set_configured_caps : option GstCapsObj -> GstEglGlesSink -> GstEglGlesSink :=
  ltac:(setter sink_eta configured_caps).
Definition set_supported_fmts
  : list (option GstEglGlesImageFmt) -> GstEglGlesSink -> GstEglGlesSink :=
  ltac:(setter sink_eta supported_fmts).
Definition set_selected_fmt : option GstEglGlesImageFmt -> GstEglGlesSink -> GstEglGlesSink :=
  ltac:(setter sink_eta selected_fmt).
Definition set_eglglesctx : GstEglGlesRenderContext -> GstEglGlesSink -> GstEglGlesSink :=
  ltac:(setter sink_eta eglglesctx).
Definition set_have_window : bool -> GstEglGlesSink -> GstEglGlesSink :=
  ltac:(setter sink_eta have_window).
Definition set_using_own_window : bool -> GstEglGlesSink -> GstEglGlesSink :=
  ltac:(setter sink_eta using_own_window).
Definition set_have_surface : bool -> GstEglGlesSink -> GstEglGlesSink :=
  ltac:(setter sink_eta have_surface).
Definition set_have_vbo : bool -> GstEglGlesSink -> GstEglGlesSink :=
  ltac:(setter sink_eta have_vbo).
Definition set_have_texture : bool -> GstEglGlesSink -> GstEglGlesSink :=
  ltac:(setter sink_eta have_texture).
Definition set_egl_started : bool -> GstEglGlesSink -> GstEglGlesSink :=
  ltac:(setter sink_eta egl_started).
Definition set_thread : bool -> GstEglGlesSink -> GstEglGlesSink :=
  ltac:(setter sink_eta thread).
Definition set_last_flow : GstFlowReturn -> GstEglGlesSink -> GstEglGlesSink :=
  ltac:(setter sink_eta last_flow).
Definition set_queue : GstDataQueue -> GstEglGlesSink -> GstEglGlesSink :=
  ltac:(setter sink_eta queue).
Definition set_create_window : bool -> GstEglGlesSink -> GstEglGlesSink :=
  ltac:(setter sink_eta create_window).
Definition set_force_aspect_ratio : bool -> GstEglGlesSink -> GstEglGlesSink :=
  ltac:(setter sink_eta force_aspect_ratio).

(** [s->eglglesctx.f = v]. *)
Definition in_ctx (f : GstEglGlesRenderContext -> GstEglGlesRenderContext)
  (s : GstEglGlesSink) : GstEglGlesSink :=
  set_eglglesctx (f (eglglesctx s)) s.

(* ===================================================================== *)
(** ** The monad of the element's code

    A function of the element reads and writes the sink and leaves a
    trace of the calls it makes to the outside.  The object lock is a
    non-recursive mutex: a thread that takes it while the lock is held
    never gets it, and the call in question blocks for good
    ([Stuck]). *)

Inductive Halt :=
| SelfDeadlock        (* g_mutex_lock on the object lock the thread holds *)
| AssertFailed        (* g_assert (...) on a false condition *)
| AssertNotReached    (* g_assert_not_reached () *)
| NullDereference.

Inductive Res (A : Type) :=
| Ok (a : A) (s : GstEglGlesSink) (tr : list Event)
| Stuck (why : Halt) (s : GstEglGlesSink) (tr : list Event).

Arguments Stuck {A} why s tr.

Definition M (A : Type) := GstEglGlesSink -> Res A.

Definition ret {A} (a : A) : M A := fun s => Ok a s [].

Definition bind {A B} (m : M A) (f : A -> M B) : M B :=
  fun s =>
    match m s with
    | Ok a s1 tr1 =>
        match f a s1 with
        | Ok b s2 tr2 => Ok b s2 (tr1 ++ tr2)
        | Stuck why s2 tr2 => Stuck why s2 (tr1 ++ tr2)
        end
    | Stuck why s1 tr1 => Stuck why s1 tr1
    end.

Definition halt {A} (why : Halt) : M A := fun s => Stuck why s [].

Declare Scope sink_scope.
Delimit Scope sink_scope with sink.
Notation "x <- m ;; k" := (bind m (fun x => k))
  (at level 61, m at next level, right associativity) : sink_scope.
Notation "m ;; k" := (bind m (fun _ => k))
  (at level 61, right associativity) : sink_scope.
Open Scope sink_scope.

Definition get {A} (f : GstEglGlesSink -> A) : M A := fun s => Ok (f s) s [].
Definition modify (f : GstEglGlesSink -> GstEglGlesSink) : M unit :=
  fun s => Ok tt (f s) [].
Definition emit (e : Event) : M unit := fun s => Ok tt s [e].
Definition when (b : bool) (m : M unit) : M unit := if b then m else ret tt.

Definition GST_OBJECT_LOCK : M unit :=
  fun s =>
    if object_lock s then Stuck SelfDeadlock s []
    else Ok tt (set_object_lock true s) [].

Definition GST_OBJECT_UNLOCK : M unit := modify (set_object_lock false).

(** [r] after the calls of [tr]. *)
Definition prepend {A} (tr : list Event) (r : Res A) : Res A :=
  match r with
  | Ok a s tr2 => Ok a s (tr ++ tr2)
  | Stuck why s tr2 => Stuck why s (tr ++ tr2)
  end.

Definition result_sink {A} (r : Res A) : GstEglGlesSink :=
  match r with
  | Ok _ s _ => s
  | Stuck _ s _ => s
  end.

Definition result_trace {A} (r : Res A) : list Event :=
  match r with
  | Ok _ _ tr => tr
  | Stuck _ _ tr => tr
  end.

Definition result_value {A} (r : Res A) : option A :=
  match r with
  | Ok a _ _ => Some a
  | Stuck _ _ _ => None
  end.

(* ===================================================================== *)
(** ** The video library

    The element calls six pure functions of GStreamer's video library.
    They are not part of the element; its code is embedded over any
    implementation of them ([GstVideoLib]), and [GstVideo010] below
    gives the one of GStreamer 0.10. *)

Record GstVideoLib := {
  gst_video_format_get_component_offset : GstVideoFormat -> Z -> Z -> Z -> Z;
  gst_video_format_get_component_width : GstVideoFormat -> Z -> Z -> Z;
  gst_video_format_get_component_height : GstVideoFormat -> Z -> Z -> Z;
  (* video size, video PAR, display PAR; None is FALSE *)
  gst_video_calculate_display_ratio : Z -> Z -> Z -> Z -> Z -> Z -> option (Z * Z);
  gst_util_uint64_scale_int : Z -> Z -> Z -> Z;
  gst_video_sink_center_rect : GstVideoRectangle -> GstVideoRectangle -> bool -> GstVideoRectangle
}.

(* ===================================================================== *)
(** ** Format catalog *)

(** The [while (list)] traversal of
    [gst_eglglessink_get_compat_format_from_caps]. *)
Fixpoint compat_format_traverse (list : list (option GstEglGlesImageFmt))
  (c : option GstCaps) : option GstEglGlesImageFmt :=
  match list with
  | [] => None
  | data :: next =>
      match data with
      | Some fm =>
          if gst_caps_can_intersect c (Some (caps fm)) then Some fm
          else compat_format_traverse next c
      | None => compat_format_traverse next c
      end
  end.

Definition gst_eglglessink_get_compat_format_from_caps (s : GstEglGlesSink)
  (c : option GstCaps) : option GstEglGlesImageFmt :=
  compat_format_traverse (supported_fmts s) c.

Definition g_list_append {A} (l : list A) (data : A) : list A := l ++ [data].

(** The caps of the three catalog entries, appended in the order of the
    source. *)
Definition RGBA8888_caps : GstCaps :=
  fold_left (fun c f => gst_caps_append c (gst_video_format_new_template_caps f))
    [ GST_VIDEO_FORMAT_BGRA; GST_VIDEO_FORMAT_ARGB; GST_VIDEO_FORMAT_ABGR;
      GST_VIDEO_FORMAT_RGBx; GST_VIDEO_FORMAT_BGRx; GST_VIDEO_FORMAT_xRGB;
      GST_VIDEO_FORMAT_xBGR; GST_VIDEO_FORMAT_AYUV; GST_VIDEO_FORMAT_Y444;
      GST_VIDEO_FORMAT_I420; GST_VIDEO_FORMAT_YV12; GST_VIDEO_FORMAT_NV12;
      GST_VIDEO_FORMAT_NV21; GST_VIDEO_FORMAT_YUY2; GST_VIDEO_FORMAT_YVYU;
      GST_VIDEO_FORMAT_UYVY; GST_VIDEO_FORMAT_Y42B; GST_VIDEO_FORMAT_Y41B ]
    (gst_video_format_new_template_caps GST_VIDEO_FORMAT_RGBA).

Definition RGB888_caps : GstCaps :=
  gst_caps_append (gst_video_format_new_template_caps GST_VIDEO_FORMAT_RGB)
    (gst_video_format_new_template_caps GST_VIDEO_FORMAT_BGR).

Definition RGB565_caps : GstCaps :=
  gst_video_format_new_template_caps GST_VIDEO_FORMAT_RGB16.

Definition RGBA8888_fmt : GstEglGlesImageFmt :=
  {| fmt := GST_EGLGLESSINK_IMAGE_RGBA8888;
     attribs := eglglessink_RGBA8888_attribs;
     caps := RGBA8888_caps |}.

Definition RGB888_fmt : GstEglGlesImageFmt :=
  {| fmt := GST_EGLGLESSINK_IMAGE_RGB888;
     attribs := eglglessink_RGB888_attribs;
     caps := RGB888_caps |}.

Definition RGB565_fmt : GstEglGlesImageFmt :=
  {| fmt := GST_EGLGLESSINK_IMAGE_RGB565;
     attribs := eglglessink_RGB565_attribs;
     caps := RGB565_caps |}.

(** One of the three [if (eglChooseConfig (...) != EGL_FALSE) ... else]
    blocks of [gst_eglglessink_fill_supported_fbuffer_configs]: [acc] is
    the pair of [ret] and [caps]. *)
Definition probe_config (be : Backend) (fm : GstEglGlesImageFmt) (acc : Z * GstCaps)
  : M (Z * GstCaps) :=
  emit (EvProbeConfig (attribs fm)) ;;
  match eglChooseConfig be (attribs fm) with
  | Some _ =>
      modify (fun s => set_supported_fmts (g_list_append (supported_fmts s) (Some fm)) s) ;;
      ret (fst acc + 1, gst_caps_append (snd acc) (caps fm))
  | None => ret acc
  end.

Definition gst_eglglessink_fill_supported_fbuffer_configs (be : Backend) : M Z :=
  acc <- probe_config be RGBA8888_fmt (0, gst_caps_new_empty) ;;
  acc <- probe_config be RGB888_fmt acc ;;
  acc <- probe_config be RGB565_fmt acc ;;
  GST_OBJECT_LOCK ;;
  modify (set_sinkcaps (Some (snd acc))) ;;
  GST_OBJECT_UNLOCK ;;
  ret (fst acc).

(* ===================================================================== *)
(** ** Display, context and teardown *)

(** [gst_eglglessink_context_make_current].  The function asserts that
    there is a display.  The [bind] branch is taken only with a surface
    and a context; every other call detaches. *)
Definition gst_eglglessink_context_make_current (be : Backend) (bind_ctx : bool)
  : M bool :=
  c <- get eglglesctx ;;
  if display c =? 0 then halt AssertFailed
  else if bind_ctx && negb (surface c =? 0) && negb (eglcontext c =? 0) then
    if eglGetCurrentContext be =? eglcontext c then ret true
    else if negb (eglMakeCurrent be) then ret false
    else ret true
  else
    if negb (eglMakeCurrent be) then ret false
    else ret true.

Definition gst_eglglessink_reset_display_region : M unit :=
  GST_OBJECT_LOCK ;;
  modify (fun s =>
    let r := display_region s in
    set_display_region
      {| Rect.x := Rect.x r; Rect.y := Rect.y r; Rect.w := 0; Rect.h := 0 |} s) ;;
  GST_OBJECT_UNLOCK.

Definition gst_eglglessink_wipe_eglglesctx (be : Backend) : M unit :=
  emit EvWipeEglGlesCtx ;;
  have_vbo' <- get have_vbo ;;
  when have_vbo' (modify (set_have_vbo false)) ;;
  have_texture' <- get have_texture ;;
  when have_texture'
    (modify (set_have_texture false) ;;
     modify (in_ctx (set_n_textures 0))) ;;
  c <- get eglglesctx ;;
  when (negb (glslprogram0 c =? 0)) (modify (in_ctx (set_glslprogram0 0))) ;;
  c <- get eglglesctx ;;
  when (negb (glslprogram1 c =? 0)) (modify (in_ctx (set_glslprogram1 0))) ;;
  _ <- gst_eglglessink_context_make_current be false ;;
  c <- get eglglesctx ;;
  when (negb (surface c =? 0))
    (emit EvDestroySurface ;;
     modify (in_ctx (set_surface 0)) ;;
     modify (set_have_surface false)) ;;
  c <- get eglglesctx ;;
  when (negb (eglcontext c =? 0))
    (emit EvDestroyContext ;;
     modify (in_ctx (set_eglcontext 0))) ;;
  gst_eglglessink_reset_display_region.

Definition gst_eglglessink_create_window (be : Backend) (width height : Z) : M Z :=
  create_window' <- get create_window ;;
  if negb create_window' then ret 0
  else
    emit (EvCreateNativeWindow width height) ;;
    ret (platform_create_native_window be width height).

Definition gst_eglglessink_set_window_handle (id : Z) : M unit :=
  GST_OBJECT_LOCK ;;
  modify (in_ctx (set_window id)) ;;
  modify (set_have_window (negb (id =? 0))) ;;
  GST_OBJECT_UNLOCK.

(** [gst_x_overlay_prepare_xwindow_id] asks the application for a
    window; an application that has one answers by calling
    [gst_x_overlay_set_window_handle]. *)
Definition gst_x_overlay_prepare_xwindow_id (be : Backend) : M unit :=
  emit EvPrepareXWindowId ;;
  match app_window_handle be with
  | Some id => gst_eglglessink_set_window_handle id
  | None => ret tt
  end.

Definition gst_eglglessink_choose_config (be : Backend) : M bool :=
  selected <- get selected_fmt ;;
  match selected with
  | None => halt NullDereference
  | Some fm =>
      emit (EvChooseConfig (attribs fm)) ;;
      match eglChooseConfig be (attribs fm) with
      | None => ret false
      | Some egl_configs =>
          if egl_configs <? 1 then ret false
          else
            emit EvCreateContext ;;
            modify (in_ctx (set_eglcontext (eglCreateContext be))) ;;
            if eglCreateContext be =? 0 then ret false
            else ret true
      end
  end.

Definition gst_eglglessink_update_surface_dimensions (be : Backend) : M bool :=
  let width := query_surface_width be in
  let height := query_surface_height be in
  c <- get eglglesctx ;;
  if negb (width =? surface_width c) || negb (height =? surface_height c) then
    modify (in_ctx (set_surface_width width)) ;;
    modify (in_ctx (set_surface_height height)) ;;
    ret true
  else ret false.

(* ===================================================================== *)
(** ** Surface and resources *)

Definition fails_at (be : Backend) (st : SurfaceStage) : bool :=
  match surface_failure be with
  | Some st' => SurfaceStage_beq st st'
  | None => false
  end.

(** The [switch (eglglessink->format)] of
    [gst_eglglessink_init_egl_surface]: the source sent to
    [fragshader[0]], [n_textures] and [texnames]; [None] is the
    [default:] branch. *)
Definition fragment_shader_for_format (f : GstVideoFormat)
  : option (FragmentShader * Z * list string) :=
  match f with
  | GST_VIDEO_FORMAT_AYUV =>
      Some (frag_AYUV_prog, 1, ["tex"%string])
  | GST_VIDEO_FORMAT_Y444
  | GST_VIDEO_FORMAT_I420
  | GST_VIDEO_FORMAT_YV12
  | GST_VIDEO_FORMAT_Y42B
  | GST_VIDEO_FORMAT_Y41B =>
      Some (frag_PLANAR_YUV_prog, 3, ["Ytex"; "Utex"; "Vtex"]%string)
  | GST_VIDEO_FORMAT_YUY2 =>
      Some (frag_YUY2_YVYU_UYVY_prog "r" "g" "a", 2, ["Ytex"; "UVtex"]%string)
  | GST_VIDEO_FORMAT_YVYU =>
      Some (frag_YUY2_YVYU_UYVY_prog "r" "a" "g", 2, ["Ytex"; "UVtex"]%string)
  | GST_VIDEO_FORMAT_UYVY =>
      Some (frag_YUY2_YVYU_UYVY_prog "a" "r" "b", 2, ["Ytex"; "UVtex"]%string)
  | GST_VIDEO_FORMAT_NV12 =>
      Some (frag_NV12_NV21_prog "r" "a", 2, ["Ytex"; "UVtex"]%string)
  | GST_VIDEO_FORMAT_NV21 =>
      Some (frag_NV12_NV21_prog "a" "r", 2, ["Ytex"; "UVtex"]%string)
  | GST_VIDEO_FORMAT_BGR
  | GST_VIDEO_FORMAT_BGRx
  | GST_VIDEO_FORMAT_BGRA =>
      Some (frag_REORDER_prog "b" "g" "r", 1, ["tex"%string])
  | GST_VIDEO_FORMAT_xRGB
  | GST_VIDEO_FORMAT_ARGB =>
      Some (frag_REORDER_prog "g" "b" "a", 1, ["tex"%string])
  | GST_VIDEO_FORMAT_xBGR
  | GST_VIDEO_FORMAT_ABGR =>
      Some (frag_REORDER_prog "a" "b" "g", 1, ["tex"%string])
  | GST_VIDEO_FORMAT_RGB
  | GST_VIDEO_FORMAT_RGBx
  | GST_VIDEO_FORMAT_RGBA
  | GST_VIDEO_FORMAT_RGB16 =>
      Some (frag_COPY_prog, 1, ["tex"%string])
  | _ => None
  end.

(** The value stored in [eglglesctx.pixel_aspect_ratio], given the EGL
    version and the answer to the EGL_PIXEL_ASPECT_RATIO query. *)
Definition saved_pixel_aspect_ratio (major minor display_par : Z) : Z :=
  if (major =? 1) && (minor <? 2) then EGL_DISPLAY_SCALING
  else if (display_par =? EGL_UNKNOWN) || (display_par <? EGL_SANE_DAR_MIN)
          || (display_par >? EGL_SANE_DAR_MAX)
       then EGL_DISPLAY_SCALING
       else display_par.

(** The border-fill program, built only when the buffer is not
    preserved across swaps. *)
Definition build_border_program (be : Backend) : M bool :=
  if fails_at be StVertexShader1 then ret false
  else
    emit (EvShaderSource 1 frag_BLACK_prog) ;;
    if fails_at be StFragmentShader1 then ret false
    else
      modify (in_ctx (set_glslprogram1 (glCreateProgram be 1))) ;;
      if fails_at be StProgram1 then ret false
      else ret true.

(** The [if (!eglglessink->have_texture)] block. *)
Definition setup_textures (be : Backend) : M bool :=
  have_texture' <- get have_texture ;;
  if negb have_texture' then
    c <- get eglglesctx ;;
    emit (EvGenTextures (n_textures c)) ;;
    if fails_at be StTextures then ret false
    else modify (set_have_texture true) ;; ret true
  else ret true.

(** First part of [gst_eglglessink_init_egl_surface]: the window
    surface, its swap behaviour, the context, the display's pixel
    aspect ratio and the surface size; ends with [have_surface = TRUE]. *)
Definition create_window_surface (be : Backend) : M bool :=
  c <- get eglglesctx ;;
  emit (EvCreateWindowSurface (used_window c)) ;;
  modify (in_ctx (set_surface (eglCreateWindowSurface be))) ;;
  if eglCreateWindowSurface be =? 0 then ret false
  else
    modify (in_ctx (set_buffer_preserved false)) ;;
    match query_swap_behavior be with
    | Some preserved => modify (in_ctx (set_buffer_preserved preserved))
    | None => ret tt
    end ;;
    bound <- gst_eglglessink_context_make_current be true ;;
    if negb bound then ret false
    else
      c <- get eglglesctx ;;
      modify (in_ctx (set_pixel_aspect_ratio
        (saved_pixel_aspect_ratio (egl_major c) (egl_minor c)
           (query_pixel_aspect_ratio be)))) ;;
      _ <- gst_eglglessink_update_surface_dimensions be ;;
      modify (set_have_surface true) ;;
      ret true.

(** Second part: the shader program of the video quad. *)
Definition build_video_program (be : Backend) : M bool :=
  if fails_at be StShaderCompiler then ret false
  else if fails_at be StVertexShader0 then ret false
  else
    f <- get format ;;
    match fragment_shader_for_format f with
    | None => halt AssertNotReached
    | Some (prog, n, _) =>
        emit (EvShaderSource 0 prog) ;;
        modify (in_ctx (set_fragshader0 (Some prog))) ;;
        modify (in_ctx (set_n_textures n)) ;;
        if fails_at be StFragmentShader0 then ret false
        else
          modify (in_ctx (set_glslprogram0 (glCreateProgram be 0))) ;;
          if fails_at be StProgram0 then ret false
          else ret true
    end.

Definition gst_eglglessink_init_egl_surface (be : Backend) : M bool :=
  created <- create_window_surface be ;;
  if negb created then ret false
  else
    video <- build_video_program be ;;
    if negb video then ret false
    else
      c <- get eglglesctx ;;
      border <- (if negb (buffer_preserved c)
                 then build_border_program be
                 else ret true) ;;
      if negb border then ret false
      else setup_textures be.

(** [gst_eglglessink_setup_vbo]: the vertex positions are floating
    point coordinates handed to GL and are not kept in the sink. *)
Definition gst_eglglessink_setup_vbo (be : Backend) (reset : bool) : M bool :=
  have_vbo' <- get have_vbo ;;
  when (have_vbo' && reset) (modify (set_have_vbo false)) ;;
  emit EvSetupVbo ;;
  if vbo_error be then ret false
  else modify (set_have_vbo true) ;; ret true.

(* ===================================================================== *)
(** ** Caps configuration *)

(** The window part of [gst_eglglessink_configure_caps], between
    GST_OBJECT_LOCK and GST_OBJECT_UNLOCK; FALSE when the internal
    window could not be created (the lock is released on that path
    too). *)
Definition configure_window (be : Backend) (width height : Z) : M bool :=
  GST_OBJECT_LOCK ;;
  have_window' <- get have_window ;;
  created <- (if negb have_window' then
                win <- gst_eglglessink_create_window be width height ;;
                if win =? 0 then GST_OBJECT_UNLOCK ;; ret false
                else
                  modify (set_using_own_window true) ;;
                  modify (in_ctx (set_window win)) ;;
                  modify (set_have_window true) ;;
                  ret true
              else ret true) ;;
  if negb created then ret false
  else
    modify (fun s => in_ctx (set_used_window (window (eglglesctx s))) s) ;;
    GST_OBJECT_UNLOCK ;;
    c <- get eglglesctx ;;
    emit (EvGotWindowHandle (used_window c)) ;;
    ret true.

(** The [if (eglglessink->configured_caps)] block: TRUE is
    [goto SUCCEED]. *)
Definition check_configured (be : Backend) (cv : option GstCaps) : M bool :=
  configured <- get configured_caps ;;
  match configured with
  | Some old =>
      if gst_caps_can_intersect cv (Some (caps_val old)) then ret true
      else
        gst_eglglessink_wipe_eglglesctx be ;;
        modify (set_configured_caps None) ;;
        ret false
  | None => ret false
  end.

Definition gst_eglglessink_configure_caps (be : Backend) (c : option GstCapsObj)
  : M bool :=
  let cv := option_map caps_val c in
  match gst_video_format_parse_caps cv with
  | None => ret false
  | Some (f, width, height) =>
      modify (set_format f) ;;
      let par := match gst_video_parse_caps_pixel_aspect_ratio cv with
                 | Some p => p
                 | None => (1, 1)
                 end in
      s <- get (fun s => s) ;;
      match gst_eglglessink_get_compat_format_from_caps s cv with
      | None => ret false
      | Some fm =>
          modify (set_selected_fmt (Some fm)) ;;
          modify (set_par_n (fst par)) ;;
          modify (set_par_d (snd par)) ;;
          modify (set_video_width width) ;;
          modify (set_video_height height) ;;
          succeed <- check_configured be cv ;;
          if succeed then ret true
          else
            chosen <- gst_eglglessink_choose_config be ;;
            if negb chosen then ret false
            else
              modify (set_configured_caps c) ;;
              win <- configure_window be width height ;;
              if negb win then ret false
              else
                have_surface' <- get have_surface ;;
                if negb have_surface' then
                  ok <- gst_eglglessink_init_egl_surface be ;;
                  if negb ok then ret false else ret true
                else ret true
      end
  end.

Definition gst_eglglessink_setcaps (c : option GstCapsObj) : M bool :=
  modify (set_current_caps c) ;;
  ret true.

(* ===================================================================== *)
(** ** Rendering *)

Section Rendering.

Variable lib : GstVideoLib.

Definition teximage (unit : nat) (f : GLformat) (width height : Z) (ty : GLtype)
  (offset : Z) : TexImage :=
  {| tex_unit := unit; tex_format := f; tex_width := width;
     tex_height := height; tex_type := ty; tex_offset := offset |}.

(** A plane of a planar or semi-planar frame: component [comp] gives
    the size, component [off] the offset. *)
Definition plane (unit : nat) (glf : GLformat) (f : GstVideoFormat)
  (comp off width height : Z) : TexImage :=
  teximage unit glf
    (gst_video_format_get_component_width lib f comp width)
    (gst_video_format_get_component_height lib f comp height)
    GL_UNSIGNED_BYTE
    (gst_video_format_get_component_offset lib f off width height).

(** The [switch (eglglessink->selected_fmt->fmt)] of
    [gst_eglglessink_render_and_display]: the [glTexImage2D] calls, in
    order; [None] is [g_assert_not_reached ()]. *)
Definition upload_plan (hw : GstEglGlesImageFormat) (f : GstVideoFormat)
  (width height : Z) : option (list TexImage) :=
  match hw with
  | GST_EGLGLESSINK_IMAGE_RGB888 =>
      Some [ teximage 0 GL_RGB width height GL_UNSIGNED_BYTE 0 ]
  | GST_EGLGLESSINK_IMAGE_RGB565 =>
      Some [ teximage 0 GL_RGB width height GL_UNSIGNED_SHORT_5_6_5 0 ]
  | GST_EGLGLESSINK_IMAGE_RGBA8888 =>
      match f with
      | GST_VIDEO_FORMAT_RGBA
      | GST_VIDEO_FORMAT_BGRA
      | GST_VIDEO_FORMAT_ARGB
      | GST_VIDEO_FORMAT_ABGR
      | GST_VIDEO_FORMAT_RGBx
      | GST_VIDEO_FORMAT_BGRx
      | GST_VIDEO_FORMAT_xRGB
      | GST_VIDEO_FORMAT_xBGR =>
          Some [ teximage 0 GL_RGBA width height GL_UNSIGNED_BYTE 0 ]
      | GST_VIDEO_FORMAT_AYUV =>
          Some [ teximage 0 GL_RGBA width height GL_UNSIGNED_BYTE 0 ]
      | GST_VIDEO_FORMAT_Y444
      | GST_VIDEO_FORMAT_I420
      | GST_VIDEO_FORMAT_YV12
      | GST_VIDEO_FORMAT_Y42B
      | GST_VIDEO_FORMAT_Y41B =>
          Some [ plane 0 GL_LUMINANCE f 0 0 width height;
                 plane 1 GL_LUMINANCE f 1 1 width height;
                 plane 2 GL_LUMINANCE f 2 2 width height ]
      | GST_VIDEO_FORMAT_YUY2
      | GST_VIDEO_FORMAT_YVYU
      | GST_VIDEO_FORMAT_UYVY =>
          Some [ teximage 0 GL_LUMINANCE_ALPHA width height GL_UNSIGNED_BYTE 0;
                 teximage 1 GL_RGBA (Z.quot (GST_ROUND_UP_2 width) 2) height
                   GL_UNSIGNED_BYTE 0 ]
      | GST_VIDEO_FORMAT_NV12
      | GST_VIDEO_FORMAT_NV21 =>
          Some [ plane 0 GL_LUMINANCE f 0 0 width height;
                 plane 1 GL_LUMINANCE_ALPHA f 1
                   (if GstVideoFormat_beq f GST_VIDEO_FORMAT_NV12 then 1 else 2)
                   width height ]
      | _ => None
      end
  end.

(** The [if (buf)] block: TRUE when no GL error is pending after the
    uploads. *)
Definition upload_frame (be : Backend) : M bool :=
  selected <- get selected_fmt ;;
  match selected with
  | None => halt NullDereference
  | Some fm =>
      f <- get format ;;
      width <- get video_width ;;
      height <- get video_height ;;
      match upload_plan (fmt fm) f width height with
      | None => halt AssertNotReached
      | Some plan =>
          fold_right (fun t k => emit (EvTexImage2D t) ;; k) (ret tt) plan ;;
          ret (negb (glTexImage2D_error be))
      end
  end.

(** The frame rectangle scaled to the display aspect ratio
    [dar_n / dar_d] (the [if (h % dar_d == 0) ... else if ... else]
    of the source).  [dar_n] and [dar_d] are [guint], so the [gint]
    operands of [%] are converted to unsigned; the 64 bit result of
    [gst_util_uint64_scale_int] is stored in a [gint]. *)
Definition scaled_frame (width height dar_n dar_d : Z) : GstVideoRectangle :=
  let keep_height :=
    {| Rect.x := 0; Rect.y := 0;
       Rect.w := to_gint (gst_util_uint64_scale_int lib (to_guint64 height)
                            (to_gint dar_n) (to_gint dar_d));
       Rect.h := height |} in
  if to_guint height mod dar_d =? 0 then keep_height
  else if to_guint width mod dar_n =? 0 then
    {| Rect.x := 0; Rect.y := 0;
       Rect.w := width;
       Rect.h := to_gint (gst_util_uint64_scale_int lib (to_guint64 width)
                            (to_gint dar_d) (to_gint dar_n)) |}
  else keep_height.

(** The display region computed under the object lock.  The source
    leaves [x] and [y] of the two local rectangles unset, and the
    library does not read them; they are 0 here. *)
Definition default_display_region (s : GstEglGlesSink) : GstVideoRectangle :=
  let c := eglglesctx s in
  if negb (force_aspect_ratio s) then
    {| Rect.x := 0; Rect.y := 0;
       Rect.w := surface_width c; Rect.h := surface_height c |}
  else
    let frame :=
      match gst_video_calculate_display_ratio lib
              (to_guint (video_width s)) (to_guint (video_height s))
              (to_guint (par_n s)) (to_guint (par_d s))
              (to_guint (pixel_aspect_ratio c)) (to_guint EGL_DISPLAY_SCALING) with
      | None =>
          {| Rect.x := 0; Rect.y := 0;
             Rect.w := video_width s; Rect.h := video_height s |}
      | Some (dar_n, dar_d) =>
          scaled_frame (video_width s) (video_height s) dar_n dar_d
      end in
    let surface_rect :=
      {| Rect.x := 0; Rect.y := 0;
         Rect.w := surface_width c; Rect.h := surface_height c |} in
    gst_video_sink_center_rect lib frame surface_rect true.

(** The block guarded by
    [update_surface_dimensions () || !display_region.w || !display_region.h];
    FALSE when the VBO setup failed. *)
Definition update_display_region (be : Backend) : M bool :=
  changed <- gst_eglglessink_update_surface_dimensions be ;;
  r <- get display_region ;;
  if changed || (Rect.w r =? 0) || (Rect.h r =? 0) then
    GST_OBJECT_LOCK ;;
    modify (fun s => set_display_region (default_display_region s) s) ;;
    GST_OBJECT_UNLOCK ;;
    gst_eglglessink_setup_vbo be false
  else ret true.

(** Border quads, video quad and buffer swap. *)
Definition draw_and_swap (be : Backend) : M GstFlowReturn :=
  c <- get eglglesctx ;;
  borders <- (if negb (buffer_preserved c) then
                emit EvDrawBorders ;; ret (negb (border_error be))
              else ret true) ;;
  if negb borders then ret GST_FLOW_ERROR
  else
    emit EvDrawVideo ;;
    if video_error be then ret GST_FLOW_ERROR
    else
      emit EvSwapBuffers ;;
      if negb (eglSwapBuffers be) then ret GST_FLOW_ERROR
      else ret GST_FLOW_OK.

Definition gst_eglglessink_render_and_display (be : Backend)
  (buf : option GstBuffer) : M GstFlowReturn :=
  uploaded <- (match buf with
               | Some _ => upload_frame be
               | None => ret true
               end) ;;
  if negb uploaded then ret GST_FLOW_ERROR
  else
    region <- update_display_region be ;;
    if negb region then ret GST_FLOW_ERROR
    else draw_and_swap be.

(* ===================================================================== *)
(** ** Frame handoff: producer side *)

(** Where a call of [gst_eglglessink_queue_buffer] stands once it can
    go no further on its own: it has returned, it waits in
    [g_cond_wait (render_cond, render_lock)], or it waits for room
    inside [gst_data_queue_push]. *)
Inductive Producer :=
| Returned (flow : GstFlowReturn)
| WaitingForRender
| WaitingForRoom.

Definition queue_item (buf : option GstBuffer) : GstDataQueueItem :=
  {| object := buf;
     size := match buf with Some b => buf_size b | None => 0 end;
     duration := match buf with Some b => buf_duration b | None => GST_CLOCK_TIME_NONE end;
     visible := match buf with Some _ => true | None => false end |}.

Definition is_buffer (buf : option GstBuffer) : bool :=
  match buf with Some _ => true | None => false end.

(** [gst_eglglessink_queue_buffer] from the test of the queue inside
    [gst_data_queue_push] on.  A producer that waited for room goes
    through it again each time it is woken. *)
Definition queue_buffer_push (buf : option GstBuffer) : M Producer :=
  let item := queue_item buf in
  q <- get queue ;;
  match gst_data_queue_push q item with
  | PushWait => ret WaitingForRoom
  | PushRefused =>
      emit EvRenderUnlock ;;
      ret (Returned GST_FLOW_WRONG_STATE)
  | PushAccepted q' =>
      modify (set_queue q') ;;
      if is_buffer buf then
        emit EvRenderCondWait ;;
        ret WaitingForRender
      else ret (Returned GST_FLOW_OK)
  end.

Definition gst_eglglessink_queue_buffer (buf : option GstBuffer) : M Producer :=
  when (is_buffer buf) (emit EvRenderLock) ;;
  emit (EvQueuePush (queue_item buf)) ;;
  queue_buffer_push buf.

(** The rest of [gst_eglglessink_queue_buffer] for a producer woken
    from [g_cond_wait]: it releases the render lock and returns
    [last_flow]. *)
Definition queue_buffer_resume : M GstFlowReturn :=
  emit EvRenderUnlock ;;
  get last_flow.

Definition gst_eglglessink_show_frame (buf : GstBuffer) : M Producer :=
  current <- get current_caps ;;
  gst_eglglessink_queue_buffer
    (Some {| buf_id := buf_id buf; buf_caps := current;
             buf_size := buf_size buf; buf_duration := buf_duration buf |}).

(** [gst_eglglessink_expose] returns nothing: the value is where its
    call of [gst_eglglessink_queue_buffer] stands, whose result it only
    logs. *)
Definition gst_eglglessink_expose : M Producer :=
  gst_eglglessink_queue_buffer None.

(* ===================================================================== *)
(** ** Render thread *)

Definition render_cond_broadcast : M unit :=
  emit EvRenderLock ;;
  emit EvRenderCondBroadcast ;;
  emit EvRenderUnlock.

(** The [if (item->object)] block of the loop: FALSE when
    [gst_eglglessink_configure_caps] was called and failed. *)
Definition configure_for_item (be : Backend) (buf : option GstBuffer) : M bool :=
  match buf with
  | Some b =>
      configured <- get configured_caps ;;
      if negb (caps_ptr_eqb (buf_caps b) configured) then
        gst_eglglessink_configure_caps be (buf_caps b)
      else ret true
  | None => ret true
  end.

(** One iteration of the [while] loop of [render_thread_func] on a
    popped item; FALSE is [break]. *)
Definition render_item (be : Backend) (item : GstDataQueueItem) : M bool :=
  let buf := object item in
  configured <- configure_for_item be buf ;;
  if negb configured then
    modify (set_last_flow GST_FLOW_NOT_NEGOTIATED) ;;
    render_cond_broadcast ;;
    emit EvItemDestroy ;;
    ret false
  else
    cc <- get configured_caps ;;
    match cc with
    | Some _ =>
        flow <- gst_eglglessink_render_and_display be buf ;;
        modify (set_last_flow flow)
    | None => ret tt
    end ;;
    when (is_buffer buf) render_cond_broadcast ;;
    emit EvItemDestroy ;;
    flow <- get last_flow ;;
    if negb (GstFlowReturn_beq flow GST_FLOW_OK) then ret false
    else ret true.

(** What follows the loop in [render_thread_func]. *)
Definition render_thread_shutdown (be : Backend) : M unit :=
  flow <- get last_flow ;;
  when (GstFlowReturn_beq flow GST_FLOW_OK)
    (modify (set_last_flow GST_FLOW_WRONG_STATE)) ;;
  gst_eglglessink_wipe_eglglesctx be ;;
  modify (set_configured_caps None).

Inductive ThreadStatus :=
| ThreadWaiting      (* blocked in gst_data_queue_pop on an empty queue *)
| ThreadExited       (* render_thread_func has returned *)
| ThreadRunning.     (* about to pop: the iterations asked for are done *)

(** [render_thread_func], run for at most [fuel] iterations; [world k]
    holds the backend's answers during iteration [k]. *)
Fixpoint render_loop (world : nat -> Backend) (k fuel : nat) : M ThreadStatus :=
  match fuel with
  | O => ret ThreadRunning
  | S fuel' =>
      q <- get queue ;;
      match gst_data_queue_pop q with
      | PopFlushing =>
          render_thread_shutdown (world k) ;;
          ret ThreadExited
      | PopWait => ret ThreadWaiting
      | PopItem item q' =>
          modify (set_queue q') ;;
          emit (EvQueuePop item) ;;
          continue <- render_item (world k) item ;;
          if continue then render_loop world (S k) fuel'
          else
            render_thread_shutdown (world k) ;;
            ret ThreadExited
      end
  end.

Definition render_thread_func (world : nat -> Backend) (fuel : nat) : M ThreadStatus :=
  render_loop world 0 fuel.

(* ===================================================================== *)
(** ** Start, stop and state changes *)

Definition gst_eglglessink_start (be : Backend) : M bool :=
  started <- get egl_started ;;
  if negb started then ret false
  else
    have_window' <- get have_window ;;
    when (negb have_window') (gst_x_overlay_prepare_xwindow_id be) ;;
    have_window' <- get have_window ;;
    create_window' <- get create_window ;;
    if negb have_window' && negb create_window' then ret false
    else
      gst_eglglessink_reset_display_region ;;
      modify (set_last_flow GST_FLOW_OK) ;;
      q <- get queue ;;
      emit (EvSetFlushing false) ;;
      modify (set_queue (gst_data_queue_set_flushing q false)) ;;
      emit EvThreadCreate ;;
      modify (set_thread (g_thread_create be)) ;;
      if negb (g_thread_create be) then ret false
      else ret true.

(** [gst_eglglessink_stop]; [status] is where the render thread stands
    when the queue is set flushing.  [g_thread_join] returns once the
    thread has left its loop, which a thread that has not exited does
    at its next pop. *)
Definition gst_eglglessink_stop (be : Backend) (status : ThreadStatus) : M bool :=
  q <- get queue ;;
  emit (EvSetFlushing true) ;;
  modify (set_queue (gst_data_queue_set_flushing q true)) ;;
  render_cond_broadcast ;;
  th <- get thread ;;
  when th
    (emit EvThreadJoin ;;
     match status with
     | ThreadExited => ret tt
     | _ => _ <- render_loop (fun _ => be) 0 1 ;; ret tt
     end ;;
     modify (set_thread false)) ;;
  modify (set_last_flow GST_FLOW_WRONG_STATE) ;;
  own <- get using_own_window ;;
  when own
    (c <- get eglglesctx ;;
     emit (EvDestroyNativeWindow (used_window c)) ;;
     modify (in_ctx (set_used_window 0)) ;;
     modify (set_have_window false)) ;;
  modify (in_ctx (set_used_window 0)) ;;
  modify (set_current_caps None) ;;
  ret true.

Definition gst_eglglessink_set_render_rectangle (x y width height : Z) : M unit :=
  GST_OBJECT_LOCK ;;
  if (width =? -1) && (height =? -1) then
    gst_eglglessink_reset_display_region
  else
    GST_OBJECT_LOCK ;;
    modify (set_display_region
              {| Rect.x := x; Rect.y := y; Rect.w := width; Rect.h := height |}) ;;
    GST_OBJECT_UNLOCK.

Section Header.

(** [GST_EGLGLESSINK_EGL_MIN_VERSION] is defined in gsteglglessink.h. *)
Variable GST_EGLGLESSINK_EGL_MIN_VERSION : Z.

Definition gst_eglglessink_init_egl_display (be : Backend) : M bool :=
  modify (in_ctx (set_display (eglGetDisplay be))) ;;
  if eglGetDisplay be =? 0 then ret false
  else
    match eglInitialize be with
    | None => ret false
    | Some (major, minor) =>
        modify (in_ctx (set_egl_major major)) ;;
        modify (in_ctx (set_egl_minor minor)) ;;
        if major <? GST_EGLGLESSINK_EGL_MIN_VERSION then ret false
        else ret true
    end.

(** [gst_eglglessink_init_egl_exts] queries the extension strings and
    logs them. *)
Definition gst_eglglessink_init_egl_exts : M unit := ret tt.

Definition egl_init (be : Backend) : M bool :=
  if negb (platform_wrapper_init be) then ret false
  else
    displayed <- gst_eglglessink_init_egl_display be ;;
    if negb displayed then ret false
    else
      gst_eglglessink_init_egl_exts ;;
      n <- gst_eglglessink_fill_supported_fbuffer_configs be ;;
      if n =? 0 then ret false
      else
        modify (set_egl_started true) ;;
        ret true.

Definition gst_eglglessink_open (be : Backend) : M bool :=
  ok <- egl_init be ;;
  if negb ok then ret false else ret true.

Definition gst_eglglessink_close : M bool :=
  c <- get eglglesctx ;;
  when (negb (display c =? 0))
    (emit EvTerminateDisplay ;;
     modify (in_ctx (set_display 0))) ;;
  modify (set_selected_fmt None) ;;
  modify (set_supported_fmts []) ;;
  modify (set_sinkcaps None) ;;
  modify (set_egl_started false) ;;
  ret true.

Definition gst_eglglessink_change_state (be : Backend) (status : ThreadStatus)
  (transition : GstStateChange) : M GstStateChangeReturn :=
  before <- (match transition with
             | GST_STATE_CHANGE_NULL_TO_READY => gst_eglglessink_open be
             | GST_STATE_CHANGE_READY_TO_PAUSED => gst_eglglessink_start be
             | _ => ret true
             end) ;;
  if negb before then ret GST_STATE_CHANGE_FAILURE
  else
    match parent_change_state be transition with
    | GST_STATE_CHANGE_FAILURE => ret GST_STATE_CHANGE_FAILURE
    | parent_ret =>
        after <- (match transition with
                  | GST_STATE_CHANGE_READY_TO_NULL => gst_eglglessink_close
                  | GST_STATE_CHANGE_PAUSED_TO_READY => gst_eglglessink_stop be status
                  | _ => ret true
                  end) ;;
        if negb after then ret GST_STATE_CHANGE_FAILURE
        else ret parent_ret
    end.

End Header.

End Rendering.

(** [gst_eglglessink_init]: the defaults of a new sink; the fields the
    function does not mention are zero, as GObject allocates them. *)
Definition gst_eglglessink_init : GstEglGlesSink :=
  {| object_lock := false;
     video_width := 0;
     video_height := 0;
     par_n := 1;
     par_d := 1;
     format := GST_VIDEO_FORMAT_UNKNOWN;
     display_region := {| Rect.x := 0; Rect.y := 0; Rect.w := 0; Rect.h := 0 |};
     sinkcaps := None;
     current_caps := None;
     configured_caps := None;
     supported_fmts := [];
     selected_fmt := None;
     eglglesctx :=
       {| window := 0; used_window := 0; display := 0; eglcontext := 0;
          surface := 0; egl_minor := 0; egl_major := 0;
          glslprogram0 := 0; glslprogram1 := 0; fragshader0 := None;
          surface_width := 0; surface_height := 0; pixel_aspect_ratio := 0;
          n_textures := 0; buffer_preserved := false |};
     have_window := false;
     using_own_window := false;
     have_surface := false;
     have_vbo := false;
     have_texture := false;
     egl_started := false;
     thread := false;
     last_flow := GST_FLOW_WRONG_STATE;
     queue := gst_data_queue_new;
     create_window := true;
     force_aspect_ratio := true |}.

(* ===================================================================== *)
(** ** The video library of GStreamer 0.10

    These functions live in gst-libs/gst/video and gst/gstutils.c of
    GStreamer, outside the element; they are written after the
    library's code, doubles as IEEE binary64. *)

Module GstVideo010.

Definition GST_ROUND_UP_8 (num : Z) : Z := Z.land (num + 7) (Z.lnot 7).
Definition GST_ROUND_UP_16 (num : Z) : Z := Z.land (num + 15) (Z.lnot 15).

Definition component_width (f : GstVideoFormat) (component width : Z) : Z :=
  match f with
  | GST_VIDEO_FORMAT_I420 | GST_VIDEO_FORMAT_YV12 | GST_VIDEO_FORMAT_YUY2
  | GST_VIDEO_FORMAT_YVYU | GST_VIDEO_FORMAT_UYVY | GST_VIDEO_FORMAT_Y42B
  | GST_VIDEO_FORMAT_NV12 | GST_VIDEO_FORMAT_NV21 =>
      if component =? 0 then width else Z.quot (GST_ROUND_UP_2 width) 2
  | GST_VIDEO_FORMAT_Y41B =>
      if component =? 0 then width else Z.quot (GST_ROUND_UP_4 width) 4
  | GST_VIDEO_FORMAT_UNKNOWN => 0
  | _ => width
  end.

Definition component_height (f : GstVideoFormat) (component height : Z) : Z :=
  match f with
  | GST_VIDEO_FORMAT_I420 | GST_VIDEO_FORMAT_YV12
  | GST_VIDEO_FORMAT_NV12 | GST_VIDEO_FORMAT_NV21 =>
      if component =? 0 then height else Z.quot (GST_ROUND_UP_2 height) 2
  | GST_VIDEO_FORMAT_UNKNOWN => 0
  | _ => height
  end.

Definition component_offset (f : GstVideoFormat) (component width height : Z) : Z :=
  let luma := GST_ROUND_UP_4 width * GST_ROUND_UP_2 height in
  let chroma := GST_ROUND_UP_4 (Z.quot (GST_ROUND_UP_2 width) 2)
                * Z.quot (GST_ROUND_UP_2 height) 2 in
  match f with
  | GST_VIDEO_FORMAT_I420 =>
      if component =? 0 then 0
      else if component =? 1 then luma
      else if component =? 2 then luma + chroma
      else 0
  | GST_VIDEO_FORMAT_YV12 =>
      if component =? 0 then 0
      else if component =? 2 then luma
      else if component =? 1 then luma + chroma
      else 0
  | GST_VIDEO_FORMAT_Y41B =>
      if component =? 0 then 0
      else if component =? 1 then GST_ROUND_UP_4 width * height
      else if component =? 2 then
        (GST_ROUND_UP_4 width + Z.quot (GST_ROUND_UP_16 width) 4) * height
      else 0
  | GST_VIDEO_FORMAT_Y42B =>
      if component =? 0 then 0
      else if component =? 1 then GST_ROUND_UP_4 width * height
      else if component =? 2 then
        (GST_ROUND_UP_4 width + Z.quot (GST_ROUND_UP_8 width) 2) * height
      else 0
  | GST_VIDEO_FORMAT_Y444 => component * GST_ROUND_UP_4 width * height
  | GST_VIDEO_FORMAT_NV12 =>
      if component =? 0 then 0
      else if component =? 1 then luma
      else if component =? 2 then luma + 1
      else 0
  | GST_VIDEO_FORMAT_NV21 =>
      if component =? 0 then 0
      else if component =? 1 then luma + 1
      else if component =? 2 then luma
      else 0
  | _ => 0
  end.

(** [gst_util_fraction_multiply] on [gint] operands; [None] is FALSE. *)
Definition fraction_multiply (a_n a_d b_n b_d : Z) : option (Z * Z) :=
  if (a_d =? 0) || (b_d =? 0) then None
  else
    let g := Z.gcd a_n a_d in
    let a_n := Z.quot a_n g in
    let a_d := Z.quot a_d g in
    let g := Z.gcd b_n b_d in
    let b_n := Z.quot b_n g in
    let b_d := Z.quot b_d g in
    let g := Z.gcd a_n b_d in
    let a_n := Z.quot a_n g in
    let b_d := Z.quot b_d g in
    let g := Z.gcd a_d b_n in
    let a_d := Z.quot a_d g in
    let b_n := Z.quot b_n g in
    if negb (a_n =? 0) && (Z.quot G_MAXINT (Z.abs a_n) <? Z.abs b_n) then None
    else if Z.quot G_MAXINT (Z.abs a_d) <? Z.abs b_d then None
    else
      let res_n := a_n * b_n in
      let res_d := a_d * b_d in
      let g := Z.gcd res_n res_d in
      Some (Z.quot res_n g, Z.quot res_d g).

(** [gst_video_calculate_display_ratio]: the [guint] arguments are
    handed to [gst_util_fraction_multiply] as [gint]. *)
Definition calculate_display_ratio
  (video_width video_height video_par_n video_par_d display_par_n display_par_d : Z)
  : option (Z * Z) :=
  match fraction_multiply (to_gint video_width) (to_gint video_height)
          (to_gint video_par_n) (to_gint video_par_d) with
  | None => None
  | Some (num, tmp) =>
      match fraction_multiply num tmp (to_gint display_par_d) (to_gint display_par_n) with
      | None => None
      | Some (num, den) =>
          if (0 <? num) && (0 <? den) then Some (num, den) else None
      end
  end.

(** [gst_util_uint64_scale_int (val, num, denom)]: [val * num / denom]
    rounded down, G_MAXUINT64 on a bad argument or on overflow. *)
Definition uint64_scale_int (val num denom : Z) : Z :=
  if (denom <=? 0) || (num <? 0) then G_MAXUINT64
  else
    let r := val * num / denom in
    if r >? G_MAXUINT64 then G_MAXUINT64 else r.

(** [(gdouble) z] for a [gint]. *)
Definition double_of_gint (z : Z) : float :=
  if z <? 0 then PrimFloat.opp (PrimFloat.of_uint63 (Uint63.of_Z (- z)))
  else PrimFloat.of_uint63 (Uint63.of_Z z).

(** [(gint) d]: the fractional part is discarded.  The conversion of a
    value that does not fit is undefined in C; it is given the result
    of the x86 instruction, INT_MIN. *)
Definition gint_of_double (d : float) : Z :=
  match Prim2SF d with
  | S754_zero _ => 0
  | S754_finite sign m e =>
      let v := if 0 <=? e then Z.pos m * 2 ^ e else Z.pos m / 2 ^ (- e) in
      let v := if sign then - v else v in
      if (- 2 ^ 31 <=? v) && (v <? 2 ^ 31) then v else - 2 ^ 31
  | _ => - 2 ^ 31
  end.

Definition center_rect (src dst : GstVideoRectangle) (scaling : bool)
  : GstVideoRectangle :=
  if negb scaling then
    let rw := Z.min (Rect.w src) (Rect.w dst) in
    let rh := Z.min (Rect.h src) (Rect.h dst) in
    {| Rect.x := Z.quot (to_gint (Rect.w dst - rw)) 2;
       Rect.y := Z.quot (to_gint (Rect.h dst - rh)) 2;
       Rect.w := rw; Rect.h := rh |}
  else
    let src_ratio := PrimFloat.div (double_of_gint (Rect.w src)) (double_of_gint (Rect.h src)) in
    let dst_ratio := PrimFloat.div (double_of_gint (Rect.w dst)) (double_of_gint (Rect.h dst)) in
    if PrimFloat.ltb dst_ratio src_ratio then
      let rh := gint_of_double (PrimFloat.div (double_of_gint (Rect.w dst)) src_ratio) in
      {| Rect.x := 0;
         Rect.y := Z.quot (to_gint (Rect.h dst - rh)) 2;
         Rect.w := Rect.w dst; Rect.h := rh |}
    else if PrimFloat.ltb src_ratio dst_ratio then
      let rw := gint_of_double (PrimFloat.mul (double_of_gint (Rect.h dst)) src_ratio) in
      {| Rect.x := Z.quot (to_gint (Rect.w dst - rw)) 2;
         Rect.y := 0;
         Rect.w := rw; Rect.h := Rect.h dst |}
    else
      {| Rect.x := 0; Rect.y := 0; Rect.w := Rect.w dst; Rect.h := Rect.h dst |}.

Definition lib : GstVideoLib :=
  {| gst_video_format_get_component_offset := component_offset;
     gst_video_format_get_component_width := component_width;
     gst_video_format_get_component_height := component_height;
     gst_video_calculate_display_ratio := calculate_display_ratio;
     gst_util_uint64_scale_int := uint64_scale_int;
     gst_video_sink_center_rect := center_rect |}.

End GstVideo010.

(* ===================================================================== *)
(** ** Concrete backends, frames and runs

    Used by the examples that instantiate the theorems below. *)

Module Scenario.

(** A backend on which every call succeeds: EGL 1.4, an 800x480
    surface, square display pixels, buffers not preserved. *)
Definition nominal : Backend :=
  {| platform_wrapper_init := true;
     eglGetDisplay := 1;
     eglInitialize := Some (1, 4);
     eglChooseConfig := fun _ => Some 1;
     eglCreateContext := 1;
     platform_create_native_window := fun _ _ => 7;
     app_window_handle := None;
     eglCreateWindowSurface := 1;
     query_swap_behavior := Some false;
     query_pixel_aspect_ratio := 10000;
     query_surface_width := 800;
     query_surface_height := 480;
     eglGetCurrentContext := 0;
     eglMakeCurrent := true;
     surface_failure := None;
     glTexImage2D_error := false;
     vbo_error := false;
     border_error := false;
     video_error := false;
     eglSwapBuffers := true;
     glCreateProgram := fun i => Z.of_nat i + 1;
     g_thread_create := true;
     parent_change_state := fun _ => GST_STATE_CHANGE_SUCCESS |}.

Definition backend_eta (be : Backend) : Backend :=
  Build_Backend
    (platform_wrapper_init be) (eglGetDisplay be) (eglInitialize be)
    (eglChooseConfig be) (eglCreateContext be)
    (platform_create_native_window be) (app_window_handle be)
    (eglCreateWindowSurface be) (query_swap_behavior be)
    (query_pixel_aspect_ratio be) (query_surface_width be)
    (query_surface_height be) (eglGetCurrentContext be) (eglMakeCurrent be)
    (surface_failure be) (glTexImage2D_error be) (vbo_error be)
    (border_error be) (video_error be) (eglSwapBuffers be)
    (glCreateProgram be) (g_thread_create be) (parent_change_state be).

(** The backend [be] with one answer changed. *)
Definition with_choose_config : (EGLattribs -> option Z) -> Backend -> Backend :=
  ltac:(setter backend_eta eglChooseConfig).
Definition with_swap_buffers : bool -> Backend -> Backend :=
  ltac:(setter backend_eta eglSwapBuffers).

(** A backend on which [eglChooseConfig] fails for each of the three
    attribute lists: it returns EGL_FALSE. *)
Definition no_config : Backend := with_choose_config (fun _ => None) nominal.

(** A backend that has no configuration for any of the three attribute
    lists and says so as EGL does: [eglChooseConfig] returns EGL_TRUE
    with zero configurations. *)
Definition zero_configs : Backend := with_choose_config (fun _ => Some 0) nominal.

Definition with_surface_width : Z -> Backend -> Backend :=
  ltac:(setter backend_eta query_surface_width).
Definition with_surface_height : Z -> Backend -> Backend :=
  ltac:(setter backend_eta query_surface_height).

(** The nominal backend with a 1280x720 surface. *)
Definition wide_surface : Backend :=
  with_surface_width 1280 (with_surface_height 720 nominal).

Definition caps_obj (addr : positive) (f : GstVideoFormat) (width height : Z)
  : GstCapsObj :=
  {| caps_addr := addr; caps_val := fixed_caps f width height |}.

Definition frame (id : Z) (c : GstCapsObj) : GstBuffer :=
  {| buf_id := id; buf_caps := Some c; buf_size := 0; buf_duration := 0 |}.

Definition rgba_640x480 : GstCapsObj := caps_obj 1 GST_VIDEO_FORMAT_RGBA 640 480.
Definition rgba_640x480_again : GstCapsObj := caps_obj 3 GST_VIDEO_FORMAT_RGBA 640 480.

(** The sink after NULL to READY and READY to PAUSED on the nominal
    backend, with minimum EGL version 1. *)
Definition paused : GstEglGlesSink :=
  result_sink
    ((_ <- gst_eglglessink_change_state GstVideo010.lib 1 nominal ThreadExited
            GST_STATE_CHANGE_NULL_TO_READY ;;
      gst_eglglessink_change_state GstVideo010.lib 1 nominal ThreadExited
            GST_STATE_CHANGE_READY_TO_PAUSED) gst_eglglessink_init).

(** One frame shown on a paused sink: set caps, push, one iteration of
    the render thread against [be], wake the producer. *)
Definition show_one (be : Backend) (c : GstCapsObj) (id : Z)
  : M (ThreadStatus * GstFlowReturn) :=
  _ <- gst_eglglessink_setcaps (Some c) ;;
  _ <- gst_eglglessink_show_frame (frame id c) ;;
  status <- render_loop GstVideo010.lib (fun _ => be) 0 2 ;;
  flow <- queue_buffer_resume ;;
  ret (status, flow).

(** A paused sink whose producer has pushed a first RGBA frame and
    waits for the render thread. *)
Definition pushed : GstEglGlesSink :=
  result_sink
    ((_ <- gst_eglglessink_setcaps (Some rgba_640x480) ;;
      gst_eglglessink_show_frame (frame 1 rgba_640x480)) paused).

(** The sink after the render thread met a failing buffer swap on
    that first frame and left its loop. *)
Definition broken : GstEglGlesSink :=
  result_sink
    (render_loop GstVideo010.lib (fun _ => with_swap_buffers false nominal) 0 2
       pushed).

(** The sink after a first RGBA frame was shown on the nominal
    backend. *)
Definition playing : GstEglGlesSink :=
  result_sink (show_one nominal rgba_640x480 1 paused).

End Scenario.

(* ===================================================================== *)
(** ** Caps query and properties *)

(** The caps of the pad template
    ([gst_eglglessink_sink_template_factory]).  GST_VIDEO_CAPS_YUV
    ("{ AYUV, ... }") is one structure whose format field lists eleven
    formats; it is written out as one structure per format. *)
Definition gst_pad_get_pad_template_caps : GstCaps :=
  flat_map gst_video_format_new_template_caps template_formats.

Definition gst_caps_copy (c : GstCaps) : GstCaps := c.

Definition gst_eglglessink_getcaps : M GstCaps :=
  GST_OBJECT_LOCK ;;
  sc <- get sinkcaps ;;
  r <- (match sc with
        | Some c => ret c
        | None => ret (gst_caps_copy gst_pad_get_pad_template_caps)
        end) ;;
  GST_OBJECT_UNLOCK ;;
  ret r.

(** The property ids of the [enum] that follows the pad template. *)
Definition PROP_0 : Z := 0.
Definition PROP_CREATE_WINDOW : Z := 1.
Definition PROP_FORCE_ASPECT_RATIO : Z := 2.

(** [gst_eglglessink_set_property] with the boolean the [GValue] holds.
    On any other id G_OBJECT_WARN_INVALID_PROPERTY_ID logs a warning. *)
Definition gst_eglglessink_set_property (prop_id : Z) (value : bool) : M unit :=
  if prop_id =? PROP_CREATE_WINDOW then modify (set_create_window value)
  else if prop_id =? PROP_FORCE_ASPECT_RATIO then modify (set_force_aspect_ratio value)
  else ret tt.

(** [gst_eglglessink_get_property]: the boolean stored in the [GValue],
    [None] when the function leaves it alone. *)
Definition gst_eglglessink_get_property (prop_id : Z) : M (option bool) :=
  if prop_id =? PROP_CREATE_WINDOW then
    v <- get create_window ;; ret (Some v)
  else if prop_id =? PROP_FORCE_ASPECT_RATIO then
    v <- get force_aspect_ratio ;; ret (Some v)
  else ret None.

(* ===================================================================== *)
(** ** Definitions used to state the properties *)

(** The probe of [gst_eglglessink_fill_supported_fbuffer_configs] lets
    entry [fm] into the catalog: its call of [eglChooseConfig] does not
    return EGL_FALSE.  The number of configurations the call reports is
    not looked at. *)
Definition probe_accepts (be : Backend) (fm : GstEglGlesImageFmt) : bool :=
  match eglChooseConfig be (attribs fm) with
  | Some _ => true
  | None => false
  end.

(** The backend reports the configuration of [fm] satisfiable:
    [eglChooseConfig] returns EGL_TRUE and reports at least one
    matching configuration.  EGL answers a request that nothing
    matches with EGL_TRUE and zero configurations. *)
Definition satisfiable (be : Backend) (fm : GstEglGlesImageFmt) : bool :=
  match eglChooseConfig be (attribs fm) with
  | Some n => 1 <=? n
  | None => false
  end.

(** The catalog entries the probe lets in, in the priority order
    RGBA8888, RGB888, RGB565. *)
Definition probed_formats (be : Backend) : list GstEglGlesImageFmt :=
  filter (probe_accepts be) [RGBA8888_fmt; RGB888_fmt; RGB565_fmt].

(** The request [c] intersects the compatible caps of entry [fm]. *)
Definition entry_matches (c : option GstCaps) (fm : GstEglGlesImageFmt) : bool :=
  gst_caps_can_intersect c (Some (caps fm)).

(** Events of the catalog probe. *)
Definition is_probe (e : Event) : bool :=
  match e with
  | EvProbeConfig _ => true
  | _ => false
  end.

(** Events that start the render thread or acquire a window. *)
Definition starts_thread_or_window (e : Event) : bool :=
  match e with
  | EvThreadCreate | EvPrepareXWindowId | EvCreateNativeWindow _ _
  | EvGotWindowHandle _ => true
  | _ => false
  end.

(** The EGL version is at least 1.2. *)
Definition egl_at_least_1_2 (major minor : Z) : bool :=
  (1 <? major) || ((major =? 1) && (2 <=? minor)).

(** The reported pixel aspect ratio is known and lies within
    [EGL_DISPLAY_SCALING / 10, EGL_DISPLAY_SCALING * 10]. *)
Definition plausible_par (reported : Z) : bool :=
  negb (reported =? EGL_UNKNOWN)
  && (EGL_DISPLAY_SCALING / 10 <=? reported)
  && (reported <=? EGL_DISPLAY_SCALING * 10).

Definition expected_display_par (major minor reported : Z) : Z :=
  if egl_at_least_1_2 major minor && plausible_par reported then reported
  else EGL_DISPLAY_SCALING.






(** The hardware format of the catalog entry that lists format [f]. *)
Definition hardware_format (f : GstVideoFormat) : GstEglGlesImageFormat :=
  match f with
  | GST_VIDEO_FORMAT_RGB | GST_VIDEO_FORMAT_BGR => GST_EGLGLESSINK_IMAGE_RGB888
  | GST_VIDEO_FORMAT_RGB16 => GST_EGLGLESSINK_IMAGE_RGB565
  | _ => GST_EGLGLESSINK_IMAGE_RGBA8888
  end.

(** The scaled frame rectangle in the words of the specification:
    height kept when [dar_d] divides it, else width kept when [dar_n]
    divides it, else height kept. *)
Definition specified_frame (width height dar_n dar_d : Z) : GstVideoRectangle :=
  if height mod dar_d =? 0 then
    {| Rect.x := 0; Rect.y := 0; Rect.w := height * dar_n / dar_d; Rect.h := height |}
  else if width mod dar_n =? 0 then
    {| Rect.x := 0; Rect.y := 0; Rect.w := width; Rect.h := width * dar_d / dar_n |}
  else
    {| Rect.x := 0; Rect.y := 0; Rect.w := height * dar_n / dar_d; Rect.h := height |}.

(** The surface as the backend reports it. *)
Definition surface_rect (be : Backend) : GstVideoRectangle :=
  {| Rect.x := 0; Rect.y := 0;
     Rect.w := query_surface_width be; Rect.h := query_surface_height be |}.

(** The display aspect ratio the library computes for the sink. *)
Definition sink_display_ratio (lib : GstVideoLib) (s : GstEglGlesSink) : option (Z * Z) :=
  gst_video_calculate_display_ratio lib
    (to_guint (video_width s)) (to_guint (video_height s))
    (to_guint (par_n s)) (to_guint (par_d s))
    (to_guint (pixel_aspect_ratio (eglglesctx s))) (to_guint EGL_DISPLAY_SCALING).

(** A 640x480 frame with square pixels on a display with square
    pixels, no display region set, aspect ratio respected. *)
Definition letterbox_sink : GstEglGlesSink :=
  set_video_width 640
    (set_video_height 480
       (in_ctx (set_pixel_aspect_ratio EGL_DISPLAY_SCALING) gst_eglglessink_init)).

(** The calls of one teardown ([gst_eglglessink_wipe_eglglesctx]). *)
Definition teardown_trace (s : GstEglGlesSink) : list Event :=
  EvWipeEglGlesCtx
    :: (if surface (eglglesctx s) =? 0 then [] else [EvDestroySurface])
    ++ (if eglcontext (eglglesctx s) =? 0 then [] else [EvDestroyContext]).

(** The window the rebuild ends up using. *)
Definition rebuild_window (be : Backend) (s : GstEglGlesSink) (width height : Z) : Z :=
  if have_window s then window (eglglesctx s)
  else platform_create_native_window be width height.



Definition is_wipe (e : Event) : bool :=
  match e with
  | EvWipeEglGlesCtx => true
  | _ => false
  end.


(** [m] leaves the observation [obs] of the sink as it found it,
    whether it returns or halts. *)
Definition keeps {T A} (obs : GstEglGlesSink -> T) (m : M A) : Prop :=
  forall s, obs (result_sink (m s)) = obs s.

(** Every call [m] makes satisfies [P]. *)
Definition emits_only {A} (P : Event -> bool) (m : M A) : Prop :=
  forall s, forallb P (result_trace (m s)) = true.

Definition not_wipe (e : Event) : bool := negb (is_wipe e).

Definition is_broadcast (e : Event) : bool :=
  match e with
  | EvRenderCondBroadcast => true
  | _ => false
  end.

Definition not_broadcast (e : Event) : bool := negb (is_broadcast e).

(** Number of acknowledgments in a trace. *)
Definition broadcasts (tr : list Event) : nat :=
  List.length (filter is_broadcast tr).

Definition is_cond_wait (e : Event) : bool :=
  match e with
  | EvRenderCondWait => true
  | _ => false
  end.

(** The queue after [item] was accepted. *)
Definition enqueue (item : GstDataQueueItem) (q : GstDataQueue) : GstDataQueue :=
  {| flushing := false; items := items q ++ [item] |}.

(** Events of the teardown that follows the loop. *)
Definition is_teardown (e : Event) : bool :=
  match e with
  | EvWipeEglGlesCtx | EvDestroySurface | EvDestroyContext => true
  | _ => false
  end.

(* ===================================================================== *)
(** ** Definitions used to state further properties of the code *)

(** From sink [s] the call [m] returns (it does not halt), with a value
    and a sink that satisfy [Q]. *)
Definition returns {A} (m : M A) (Q : A -> GstEglGlesSink -> Prop)
  (s : GstEglGlesSink) : Prop :=
  exists a s' tr, m s = Ok a s' tr /\ Q a s'.

(** The three entries [gst_eglglessink_fill_supported_fbuffer_configs]
    can append. *)
Definition catalog : list GstEglGlesImageFmt :=
  [RGBA8888_fmt; RGB888_fmt; RGB565_fmt].

(** The caps the sink advertises once the catalog holds [l]. *)
Definition advertised (l : list GstEglGlesImageFmt) : GstCaps :=
  flat_map caps l.

(** Every entry of the sink's list is one of the catalog. *)
Definition catalog_known (s : GstEglGlesSink) : Prop :=
  forall fm, In (Some fm) (supported_fmts s) -> In fm catalog.

(** The selected entry and the frame format were set from the same
    caps: the entry lists the format. *)
Definition selection_consistent (s : GstEglGlesSink) : Prop :=
  exists fm, selected_fmt s = Some fm
             /\ In fm catalog
             /\ In (format s) (map st_format (caps fm)).

(** What the render thread relies on when it goes to the head of its
    loop: the object lock is free, there is a display, the list of
    supported formats comes from the catalog, and configured caps come
    with a consistent selection. *)
Definition render_inv (s : GstEglGlesSink) : Prop :=
  object_lock s = false
  /\ display (eglglesctx s) <> 0
  /\ catalog_known s
  /\ (configured_caps s <> None -> selection_consistent s).

(** The EGL/GLES resources of the render context are released. *)
Definition torn_down (s : GstEglGlesSink) : Prop :=
  surface (eglglesctx s) = 0
  /\ eglcontext (eglglesctx s) = 0
  /\ glslprogram0 (eglglesctx s) = 0
  /\ glslprogram1 (eglglesctx s) = 0
  /\ have_texture s = false
  /\ have_vbo s = false
  /\ Rect.w (display_region s) = 0
  /\ Rect.h (display_region s) = 0.

(** Calls that reach the graphics backend to draw: uploads, vertex
    setup, draws and buffer swaps. *)
Definition is_drawing (e : Event) : bool :=
  match e with
  | EvTexImage2D _ | EvSetupVbo | EvDrawBorders | EvDrawVideo | EvSwapBuffers => true
  | _ => false
  end.

(** Calls that build or release EGL/GLES resources or windows. *)
Definition is_setup (e : Event) : bool :=
  match e with
  | EvWipeEglGlesCtx | EvChooseConfig _ | EvCreateContext
  | EvCreateNativeWindow _ _ | EvGotWindowHandle _ | EvCreateWindowSurface _
  | EvShaderSource _ _ | EvGenTextures _ | EvDestroySurface | EvDestroyContext => true
  | _ => false
  end.

Definition is_item_destroy (e : Event) : bool :=
  match e with
  | EvItemDestroy => true
  | _ => false
  end.

Definition is_render_lock (e : Event) : bool :=
  match e with
  | EvRenderLock => true
  | _ => false
  end.

Definition is_thread_create (e : Event) : bool :=
  match e with
  | EvThreadCreate => true
  | _ => false
  end.

(** The application hands over a window when asked. *)
Definition app_gives_window (be : Backend) : bool :=
  match app_window_handle be with
  | Some id => negb (id =? 0)
  | None => false
  end.

(** The acknowledgment of a frame: the broadcast under the render
    lock. *)
Definition ack_trace (buf : option GstBuffer) : list Event :=
  if is_buffer buf then [EvRenderLock; EvRenderCondBroadcast; EvRenderUnlock]
  else [].

(** [m] never takes away the property [P] of the sink, whether it
    returns or halts. *)
Definition preserves {A} (P : GstEglGlesSink -> Prop) (m : M A) : Prop :=
  forall s, P s -> P (result_sink (m s)).

(** The backend lets [egl_init] through: the platform wrapper
    initialises, there is a display, EGL initialises with a major
    version of at least [min_version], and one of the three probes
    lets its entry into the catalog ([eglChooseConfig] does not return
    EGL_FALSE, whatever number of configurations it reports). *)
Definition egl_usable (min_version : Z) (be : Backend) : Prop :=
  platform_wrapper_init be = true
  /\ eglGetDisplay be <> 0
  /\ (exists major minor,
         eglInitialize be = Some (major, minor) /\ min_version <= major)
  /\ probed_formats be <> [].

(** What the functions of the render thread never touch. *)
Definition thread_frame (s : GstEglGlesSink) :=
  (display (eglglesctx s), supported_fmts s, egl_started s, thread s,
   current_caps s, create_window s, force_aspect_ratio s).

(** What rendering, as opposed to caps configuration, does not touch
    either. *)
Definition render_frame (s : GstEglGlesSink) :=
  (selected_fmt s, format s, configured_caps s, video_width s, video_height s,
   last_flow s, have_window s, using_own_window s, have_surface s,
   have_texture s).

(** The fields [render_inv] speaks of. *)
Definition inv_frame (s : GstEglGlesSink) :=
  (object_lock s, display (eglglesctx s), supported_fmts s, configured_caps s,
   selected_fmt s, format s).

(** An item that asks for no caps configuration on a sink without
    configured caps: the redraw sentinel, or a frame that carries no
    caps. *)
Definition carries_no_caps (item : GstDataQueueItem) : bool :=
  match object item with
  | None => true
  | Some b => match buf_caps b with
              | None => true
              | Some _ => false
              end
  end.

(** The calls of the iterations that handle such items. *)
Definition unconfigured_trace (l : list GstDataQueueItem) : list Event :=
  flat_map (fun item => EvQueuePop item :: ack_trace (object item) ++ [EvItemDestroy]) l.

(** The render thread has the surface size the backend reports and a
    display region to draw into. *)
Definition region_stale (be : Backend) (s : GstEglGlesSink) : bool :=
  negb (query_surface_width be =? surface_width (eglglesctx s))
  || negb (query_surface_height be =? surface_height (eglglesctx s))
  || (Rect.w (display_region s) =? 0)
  || (Rect.h (display_region s) =? 0).

(** The sink once it has taken note of the surface size. *)
Definition with_surface_size (be : Backend) (s : GstEglGlesSink) : GstEglGlesSink :=
  in_ctx (set_surface_height (query_surface_height be))
    (in_ctx (set_surface_width (query_surface_width be)) s).

Definition is_setup_vbo (e : Event) : bool :=
  match e with
  | EvSetupVbo => true
  | _ => false
  end.

Definition is_render_unlock (e : Event) : bool :=
  match e with
  | EvRenderUnlock => true
  | _ => false
  end.

(** Calls an iteration makes before it acknowledges and releases its
    item: none of them touches the render lock, the condition or the
    item. *)
Definition before_ack (e : Event) : bool :=
  match e with
  | EvRenderLock | EvRenderUnlock | EvRenderCondBroadcast | EvRenderCondWait
  | EvItemDestroy | EvQueuePush _ | EvQueuePop _ => false
  | _ => true
  end.

Definition not_setup (e : Event) : bool := negb (is_setup e).

(** The resources caps configuration builds, and what it derives from
    the caps. *)
Definition configuration (s : GstEglGlesSink) :=
  (selected_fmt s, format s, configured_caps s, video_width s, video_height s,
   par_n s, par_d s, have_window s, using_own_window s, have_surface s,
   have_texture s, eglcontext (eglglesctx s), surface (eglglesctx s),
   fragshader0 (eglglesctx s), n_textures (eglglesctx s)).

(** Every step of [gst_eglglessink_render_and_display] that the call
    comes to succeeds on backend [be]: the uploads when there is a
    frame, the vertex setup when the display region is computed, the
    border draws when the surface content is not preserved, the draw
    of the frame and the swap. *)
Definition gl_steps_succeed (be : Backend) (buf : option GstBuffer)
  (s : GstEglGlesSink) : bool :=
  (negb (is_buffer buf) || negb (glTexImage2D_error be))
  && (negb (region_stale be s) || negb (vbo_error be))
  && (buffer_preserved (eglglesctx s) || negb (border_error be))
  && negb (video_error be)
  && eglSwapBuffers be.

Definition is_swap (e : Event) : bool :=
  match e with
  | EvSwapBuffers => true
  | _ => false
  end.

Definition is_upload (e : Event) : bool :=
  match e with
  | EvTexImage2D _ => true
  | _ => false
  end.

(** The items a trace pops from the queue, in order. *)
Definition popped (tr : list Event) : list GstDataQueueItem :=
  flat_map (fun e => match e with
                     | EvQueuePop item => [item]
                     | _ => []
                     end) tr.

(** Number of calls of [item->destroy] in a trace. *)
Definition destroys (tr : list Event) : nat :=
  List.length (filter is_item_destroy tr).

(** Number of items that carry a frame. *)
Definition frames_of (l : list GstDataQueueItem) : nat :=
  List.length (filter (fun item => is_buffer (object item)) l).

(** Caps the sink cannot configure whatever the backend answers: they
    are not fixed video caps with a known format and a frame size, or
    no entry of the sink's list of supported formats can intersect
    them. *)
Definition unconfigurable (s : GstEglGlesSink) (c : option GstCapsObj) : Prop :=
  gst_video_format_parse_caps (option_map caps_val c) = None
  \/ gst_eglglessink_get_compat_format_from_caps s (option_map caps_val c) = None.

(** What is left alone when caps configuration gives up before it
    comes to the EGL configuration. *)
Definition negotiated (s : GstEglGlesSink) :=
  (selected_fmt s, configured_caps s, video_width s, video_height s,
   par_n s, par_d s, eglglesctx s, have_window s, using_own_window s,
   have_surface s, have_texture s, have_vbo s, display_region s).

(** The sink holds the window [id] handed over by the application and
    has not created a window of its own. *)
Definition holds_app_window (id : Z) (s : GstEglGlesSink) : Prop :=
  have_window s = true
  /\ using_own_window s = false
  /\ window (eglglesctx s) = id.

Definition is_native_window (e : Event) : bool :=
  match e with
  | EvCreateNativeWindow _ _ | EvDestroyNativeWindow _ => true
  | _ => false
  end.

Definition no_native_window (e : Event) : bool := negb (is_native_window e).

(** From a sink that satisfies [I], [m] leaves a sink that satisfies
    [I] and makes only calls that satisfy [P], whether it returns or
    halts. *)
Definition guarded {A} (I : GstEglGlesSink -> Prop) (P : Event -> bool)
  (m : M A) : Prop :=
  forall s, I s -> I (result_sink (m s)) /\ forallb P (result_trace (m s)) = true.

(** Locks less unlocks of the render lock in a trace. *)
Definition render_lock_balance (tr : list Event) : Z :=
  Z.of_nat (List.length (filter is_render_lock tr))
  - Z.of_nat (List.length (filter is_render_unlock tr)).

(** The calls of a whole [gst_eglglessink_queue_buffer] entered on sink
    [s]: those up to the return or the wait; for a producer that waits
    for room, those it makes when it is woken on sink [woken]; and for a
    producer that waits on the render condition the unlock that
    follows.  A producer that finds the queue full again when it is
    woken is followed no further. *)
Definition producer_trace (buf : option GstBuffer) (s woken : GstEglGlesSink)
  : list Event :=
  let r := gst_eglglessink_queue_buffer buf s in
  let after_wait (r' : Res Producer) :=
    match result_value r' with
    | Some WaitingForRender =>
        result_trace (queue_buffer_resume (result_sink r'))
    | _ => []
    end in
  result_trace r
  ++ match result_value r with
     | Some WaitingForRoom =>
         let r' := queue_buffer_push buf woken in
         result_trace r' ++ after_wait r'
     | _ => after_wait r
     end.

(** The push of that call is refused: the queue is flushing when the
    call is made, or it is full then and flushing when the producer is
    woken. *)
Definition push_refused (s woken : GstEglGlesSink) : bool :=
  flushing (queue s)
  || (gst_data_queue_is_full (queue s) && flushing (queue woken)).

(** The producer found the queue full when it made the call and finds
    it full again when it is woken. *)
Definition still_waits_for_room (s woken : GstEglGlesSink) : bool :=
  negb (flushing (queue s)) && gst_data_queue_is_full (queue s)
  && negb (flushing (queue woken)) && gst_data_queue_is_full (queue woken).


(** Rectangle [frame] centred within [surface], its size unchanged:
    the last step of the display region in the words of the
    specification. *)
Definition centered_in (frame surface : GstVideoRectangle) : GstVideoRectangle :=
  {| Rect.x := (Rect.w surface - Rect.w frame) / 2;
     Rect.y := (Rect.h surface - Rect.h frame) / 2;
     Rect.w := Rect.w frame;
     Rect.h := Rect.h frame |}.

(** Rectangle [r] is fitted to [surface]: it spans the width of the
    surface and is centred along its height, or it spans the height
    and is centred along the width. *)
Definition fitted_to (surface r : GstVideoRectangle) : Prop :=
  (Rect.w r = Rect.w surface /\ Rect.x r = 0
   /\ Rect.y r = Z.quot (to_gint (Rect.h surface - Rect.h r)) 2)
  \/ (Rect.h r = Rect.h surface /\ Rect.y r = 0
      /\ Rect.x r = Z.quot (to_gint (Rect.w surface - Rect.w r)) 2).



(* ===================================================================== *)
(** * Properties *)

Unset Implicit Arguments.

(** ** Running the monad in proofs *)

Ltac run_step :=
  unfold bind, ret, get, modify, emit, when, halt,
    GST_OBJECT_LOCK, GST_OBJECT_UNLOCK, in_ctx; cbn.

(** Case analysis on the tests a run meets, one after the other; [H]
    says that the object lock is free on entry. *)
Ltac run_cases H :=
  repeat (cbn; rewrite ?H;
          match goal with
          | |- context [if negb ?c then _ else _] => destruct c eqn:?
          | |- context [if ?c then _ else _] => destruct c eqn:?
          end);
  cbn; rewrite ?H.

Lemma bind_Ok {A B} (m : M A) (f : A -> M B) s {a s1 tr1} :
  m s = Ok a s1 tr1 ->
  bind m f s =
  match f a s1 with
  | Ok b s2 tr2 => Ok b s2 (tr1 ++ tr2)
  | Stuck why s2 tr2 => Stuck why s2 (tr1 ++ tr2)
  end.
Proof. intros H. unfold bind. now rewrite H. Qed.

Lemma bind_Stuck {A B} (m : M A) (f : A -> M B) s {why s1 tr1} :
  m s = Stuck why s1 tr1 ->
  bind m f s = Stuck why s1 tr1.
Proof. intros H. unfold bind. now rewrite H. Qed.

(** Stepping through a run by rewriting keeps the goal close to the
    source text. *)

Lemma res_eta {A} (r : Res A) :
  match r with
  | Ok a s tr => Ok a s tr
  | Stuck why s tr => Stuck why s tr
  end = r.
Proof. destruct r; reflexivity. Qed.

Lemma bind_ret {A B} (a : A) (f : A -> M B) s : bind (ret a) f s = f a s.
Proof. unfold bind, ret. apply res_eta. Qed.

Lemma bind_get {A B} (g : GstEglGlesSink -> A) (f : A -> M B) s :
  bind (get g) f s = f (g s) s.
Proof. unfold bind, get. apply res_eta. Qed.

Lemma bind_modify {B} (g : GstEglGlesSink -> GstEglGlesSink) (f : unit -> M B) s :
  bind (modify g) f s = f tt (g s).
Proof. unfold bind, modify. apply res_eta. Qed.

Lemma bind_emit {B} (e : Event) (f : unit -> M B) s :
  bind (emit e) f s = prepend [e] (f tt s).
Proof. reflexivity. Qed.

Lemma bind_when {B} (b : bool) (m : M unit) (f : unit -> M B) s :
  bind (when b m) f s = if b then bind m f s else f tt s.
Proof. destruct b; [reflexivity|]. apply bind_ret. Qed.

Lemma bind_assoc {A B C} (m : M A) (g : A -> M B) (f : B -> M C) s :
  bind (bind m g) f s = bind m (fun a => bind (g a) f) s.
Proof.
  unfold bind. destruct (m s) as [a s1 tr1|]; [|reflexivity].
  destruct (g a s1) as [b s2 tr2|]; [|reflexivity].
  destruct (f b s2); now rewrite app_assoc.
Qed.

Lemma bind_lock {B} (f : unit -> M B) s :
  object_lock s = false ->
  bind GST_OBJECT_LOCK f s = f tt (set_object_lock true s).
Proof.
  intros H. unfold bind, GST_OBJECT_LOCK. rewrite H. apply res_eta.
Qed.

Lemma bind_lock_held {B} (f : unit -> M B) s :
  object_lock s = true ->
  bind GST_OBJECT_LOCK f s = Stuck SelfDeadlock s [].
Proof. intros H. unfold bind, GST_OBJECT_LOCK. now rewrite H. Qed.

Lemma bind_unlock {B} (f : unit -> M B) s :
  bind GST_OBJECT_UNLOCK f s = f tt (set_object_lock false s).
Proof. apply bind_modify. Qed.

Lemma bind_prepend {A B} (m : M A) (f : A -> M B) s a s1 tr1 :
  m s = Ok a s1 tr1 -> bind m f s = prepend tr1 (f a s1).
Proof. intros H. unfold bind. now rewrite H. Qed.

Lemma prepend_prepend {A} tr1 tr2 (r : Res A) :
  prepend tr1 (prepend tr2 r) = prepend (tr1 ++ tr2) r.
Proof. destruct r; cbn; now rewrite app_assoc. Qed.

Lemma prepend_nil {A} (r : Res A) : prepend [] r = r.
Proof. destruct r; reflexivity. Qed.

(** Projections of a sink after assignments. *)
Ltac sink_simpl :=
  cbn [object_lock video_width video_height par_n par_d format display_region
       sinkcaps current_caps configured_caps supported_fmts selected_fmt
       eglglesctx have_window using_own_window have_surface have_vbo
       have_texture egl_started thread last_flow queue create_window
       force_aspect_ratio
       window used_window display eglcontext surface egl_minor egl_major
       glslprogram0 glslprogram1 fragshader0 surface_width surface_height
       pixel_aspect_ratio n_textures buffer_preserved
       set_object_lock set_video_width set_video_height set_par_n set_par_d
       set_format set_display_region set_sinkcaps set_current_caps
       set_configured_caps set_supported_fmts set_selected_fmt set_eglglesctx
       set_have_window set_using_own_window set_have_surface set_have_vbo
       set_have_texture set_egl_started set_thread set_last_flow set_queue
       set_create_window set_force_aspect_ratio
       set_window set_used_window set_display set_eglcontext set_surface
       set_egl_minor set_egl_major set_glslprogram0 set_glslprogram1
       set_fragshader0 set_surface_width set_surface_height
       set_pixel_aspect_ratio set_n_textures set_buffer_preserved
       in_ctx negb andb orb prepend app result_sink result_trace result_value].

(** One step of a run. *)
Ltac mstep :=
  first
    [ rewrite bind_assoc
    | rewrite bind_get
    | rewrite bind_modify
    | rewrite bind_emit
    | rewrite bind_ret
    | rewrite bind_when
    | rewrite bind_unlock ];
  cbv beta.

Ltac msteps := repeat (mstep; sink_simpl).

(** Steps, with a case analysis on each test the run meets. *)
Ltac mcase :=
  match goal with
  | |- context [if negb ?c then _ else _] => destruct c eqn:?
  | |- context [if ?c then _ else _] => destruct c eqn:?
  end.

Ltac mrun := repeat (first [ mstep | mcase ]; sink_simpl).

(** ** Format catalog *)

Lemma probe_config_run be fm acc s :
  probe_config be fm acc s =
  if probe_accepts be fm then
    Ok (fst acc + 1, gst_caps_append (snd acc) (caps fm))
       (set_supported_fmts (supported_fmts s ++ [Some fm]) s)
       [EvProbeConfig (attribs fm)]
  else Ok acc s [EvProbeConfig (attribs fm)].
Proof.
  unfold probe_config, probe_accepts.
  destruct (eglChooseConfig be (attribs fm)); reflexivity.
Qed.

Lemma fill_supported_fbuffer_configs_run be s :
  object_lock s = false ->
  exists s',
    gst_eglglessink_fill_supported_fbuffer_configs be s
    = Ok (Z.of_nat (List.length (probed_formats be))) s'
        [EvProbeConfig eglglessink_RGBA8888_attribs;
         EvProbeConfig eglglessink_RGB888_attribs;
         EvProbeConfig eglglessink_RGB565_attribs]
    /\ supported_fmts s' = supported_fmts s ++ map Some (probed_formats be)
    /\ object_lock s' = false
    /\ egl_started s' = egl_started s
    /\ thread s' = thread s
    /\ have_window s' = have_window s
    /\ eglglesctx s' = eglglesctx s.
Proof.
  intros Hlock.
  unfold gst_eglglessink_fill_supported_fbuffer_configs, probed_formats.
  unfold bind at 1. rewrite probe_config_run.
  unfold bind at 1. 
  destruct (probe_accepts be RGBA8888_fmt) eqn:E1;
  rewrite probe_config_run;
  destruct (probe_accepts be RGB888_fmt) eqn:E2;
  unfold bind at 1; rewrite probe_config_run;
  destruct (probe_accepts be RGB565_fmt) eqn:E3;
  run_step; rewrite Hlock; cbn; rewrite ?E1, ?E2, ?E3; cbn;
  eexists; repeat split; cbn; rewrite <- ?app_assoc; try reflexivity;
  now rewrite app_nil_r.
Qed.

Lemma compat_format_traverse_first l c :
  match compat_format_traverse l c with
  | Some fm =>
      exists l1 l2,
        l = l1 ++ Some fm :: l2
        /\ entry_matches c fm = true
        /\ forall fm', In (Some fm') l1 -> entry_matches c fm' = false
  | None => forall fm, In (Some fm) l -> entry_matches c fm = false
  end.
Proof.
  induction l as [|data next IH]; cbn.
  - intros fm [].
  - destruct data as [fm|].
    + fold (entry_matches c fm).
      destruct (entry_matches c fm) eqn:E.
      * exists [], next. repeat split; auto. intros fm' [].
      * destruct (compat_format_traverse next c) as [fm0|].
        -- destruct IH as (l1 & l2 & -> & Hm & Hbefore).
           exists (Some fm :: l1), l2. repeat split; auto.
           intros fm' [Heq|Hin]; [congruence | auto].
        -- intros fm' [Heq|Hin]; [congruence | auto].
    + destruct (compat_format_traverse next c) as [fm0|].
      * destruct IH as (l1 & l2 & -> & Hm & Hbefore).
        exists (None :: l1), l2. repeat split; auto.
        intros fm' [Heq|Hin]; [discriminate | auto].
      * intros fm' [Heq|Hin]; [discriminate | auto].
Qed.

Lemma compat_format_traverse_find l c :
  compat_format_traverse (map Some l) c = find (entry_matches c) l.
Proof.
  induction l as [|fm l IH]; cbn; [reflexivity|].
  fold (entry_matches c fm). now rewrite IH.
Qed.

(** The catalog is built by three probes, in the order RGBA8888,
    RGB888, RGB565; an entry is appended exactly when its probe does
    not return EGL_FALSE; the number of appended entries is returned.
    On any catalog, the match returns the first entry, in list order,
    whose compatible caps intersect the request, and nothing when no
    entry does. *)
Lemma catalog_probe_and_match (be : Backend) (s : GstEglGlesSink) :
  object_lock s = false ->
  (exists s',
      gst_eglglessink_fill_supported_fbuffer_configs be s
      = Ok (Z.of_nat (List.length (probed_formats be))) s'
          [EvProbeConfig eglglessink_RGBA8888_attribs;
           EvProbeConfig eglglessink_RGB888_attribs;
           EvProbeConfig eglglessink_RGB565_attribs]
      /\ supported_fmts s' = supported_fmts s ++ map Some (probed_formats be)
      /\ (supported_fmts s = [] ->
          forall c, gst_eglglessink_get_compat_format_from_caps s' c
                    = find (entry_matches c) (probed_formats be)))
  /\ (forall s1 c,
        match gst_eglglessink_get_compat_format_from_caps s1 c with
        | Some fm =>
            exists l1 l2,
              supported_fmts s1 = l1 ++ Some fm :: l2
              /\ entry_matches c fm = true
              /\ forall fm', In (Some fm') l1 -> entry_matches c fm' = false
        | None =>
            forall fm, In (Some fm) (supported_fmts s1) -> entry_matches c fm = false
        end).
Proof.
  intros Hlock. split.
  - destruct (fill_supported_fbuffer_configs_run be s Hlock)
      as (s' & Hrun & Hfmts & _).
    exists s'. repeat split; auto.
    intros Hempty c.
    unfold gst_eglglessink_get_compat_format_from_caps.
    rewrite Hfmts, Hempty. cbn [app].
    apply compat_format_traverse_find.
  - intros s1 c. apply compat_format_traverse_first.
Qed.

(** ** Initialisation and state changes *)

Lemma probed_formats_none be :
  (forall fm, In fm [RGBA8888_fmt; RGB888_fmt; RGB565_fmt] ->
              eglChooseConfig be (attribs fm) = None) ->
  probed_formats be = [].
Proof.
  intros H. unfold probed_formats, probe_accepts. cbn [filter].
  rewrite (H RGBA8888_fmt), (H RGB888_fmt), (H RGB565_fmt); cbn; auto.
Qed.

Lemma init_egl_display_run min_version be s :
  exists b s',
    gst_eglglessink_init_egl_display min_version be s = Ok b s' []
    /\ object_lock s' = object_lock s
    /\ supported_fmts s' = supported_fmts s
    /\ egl_started s' = egl_started s
    /\ thread s' = thread s
    /\ have_window s' = have_window s
    /\ window (eglglesctx s') = window (eglglesctx s)
    /\ (b = true -> min_version <= egl_major (eglglesctx s')).
Proof.
  unfold gst_eglglessink_init_egl_display. run_step.
  destruct (eglGetDisplay be =? 0).
  - do 2 eexists. repeat split. discriminate.
  - destruct (eglInitialize be) as [[major minor]|]; cbn.
    + destruct (major <? min_version) eqn:E; cbn;
        do 2 eexists; repeat split; cbn; try discriminate.
      intros _. apply Z.ltb_ge in E. exact E.
    + do 2 eexists. repeat split. discriminate.
Qed.

Lemma egl_init_no_config min_version be s :
  object_lock s = false ->
  probed_formats be = [] ->
  exists s' tr,
    egl_init min_version be s = Ok false s' tr
    /\ forallb is_probe tr = true
    /\ egl_started s' = egl_started s
    /\ thread s' = thread s
    /\ have_window s' = have_window s
    /\ window (eglglesctx s') = window (eglglesctx s).
Proof.
  intros Hlock Hnone. unfold egl_init.
  destruct (platform_wrapper_init be); cbn.
  2: { exists s, []. repeat split. }
  destruct (init_egl_display_run min_version be s)
    as (b & s1 & Hrun & Hl & _ & Hs & Ht & Hw & Hwin & _).
  rewrite (bind_Ok _ _ _ Hrun).
  destruct b; cbn.
  2: { exists s1, []. repeat split; auto. }
  rewrite <- Hl in Hlock.
  destruct (fill_supported_fbuffer_configs_run be s1 Hlock)
    as (s2 & Hfill & _ & _ & Hs2 & Ht2 & Hw2 & Hc2).
  rewrite (bind_Ok _ _ _ Hfill). rewrite Hnone. cbn.
  do 2 eexists. repeat split; cbn; try congruence.
Qed.

(** When [eglChooseConfig] returns EGL_FALSE for each of the three
    attribute lists, the NULL to READY transition fails.  The failed call makes no call
    other than the three probes: no thread is created and no window is
    asked for or created; [egl_started], the thread handle and the
    window fields are as before.  A later READY to PAUSED transition on
    a sink that was never started returns failure at once, again
    without a thread or a window. *)
Lemma egl_false_fails_before_thread_and_window
  (lib : GstVideoLib) (min_version : Z) (be : Backend) (status : ThreadStatus)
  (s : GstEglGlesSink) :
  object_lock s = false ->
  (forall fm, In fm [RGBA8888_fmt; RGB888_fmt; RGB565_fmt] ->
              eglChooseConfig be (attribs fm) = None) ->
  exists s' tr,
    gst_eglglessink_change_state lib min_version be status
      GST_STATE_CHANGE_NULL_TO_READY s
    = Ok GST_STATE_CHANGE_FAILURE s' tr
    /\ existsb starts_thread_or_window tr = false
    /\ egl_started s' = egl_started s
    /\ thread s' = thread s
    /\ have_window s' = have_window s
    /\ window (eglglesctx s') = window (eglglesctx s)
    /\ (egl_started s = false ->
        forall be' status',
          gst_eglglessink_change_state lib min_version be' status'
            GST_STATE_CHANGE_READY_TO_PAUSED s'
          = Ok GST_STATE_CHANGE_FAILURE s' []).
Proof.
  intros Hlock Hnone.
  destruct (egl_init_no_config min_version be s Hlock (probed_formats_none be Hnone))
    as (s' & tr & Hrun & Hprobe & Hs & Ht & Hw & Hwin).
  exists s', tr.
  assert (Hopen : gst_eglglessink_open min_version be s = Ok false s' tr).
  { unfold gst_eglglessink_open. rewrite (bind_Ok _ _ _ Hrun). cbn.
    now rewrite app_nil_r. }
  unfold gst_eglglessink_change_state.
  rewrite (bind_Ok _ _ _ Hopen). cbn. rewrite app_nil_r.
  repeat split; auto.
  - clear - Hprobe. induction tr as [|e tr IH]; cbn in *; [reflexivity|].
    apply andb_prop in Hprobe as [He Htr].
    rewrite (IH Htr). destruct e; cbn in *; auto; discriminate.
  - intros Hnot be' status'.
    unfold gst_eglglessink_start. run_step.
    rewrite Hs, Hnot. reflexivity.
Qed.

(** ** Surface creation *)

Lemma result_sink_bind {A B} (m : M A) (f : A -> M B) s :
  result_sink (bind m f s) =
  match m s with
  | Ok a s1 _ => result_sink (f a s1)
  | Stuck _ s1 _ => s1
  end.
Proof.
  unfold bind. destruct (m s) as [a s1 tr1|why s1 tr1]; [|reflexivity].
  destruct (f a s1); reflexivity.
Qed.

Lemma saved_pixel_aspect_ratio_expected major minor reported :
  1 <= major ->
  saved_pixel_aspect_ratio major minor reported
  = expected_display_par major minor reported.
Proof.
  intros Hmajor.
  unfold saved_pixel_aspect_ratio, expected_display_par, egl_at_least_1_2,
    plausible_par, EGL_SANE_DAR_MIN, EGL_SANE_DAR_MAX.
  destruct (major =? 1) eqn:E1; destruct (minor <? 2) eqn:E2;
    destruct (1 <? major) eqn:E3; destruct (2 <=? minor) eqn:E4;
    destruct (reported =? EGL_UNKNOWN) eqn:E5;
    destruct (reported <? EGL_DISPLAY_SCALING / 10) eqn:E6;
    destruct (reported >? EGL_DISPLAY_SCALING * 10) eqn:E7;
    destruct (EGL_DISPLAY_SCALING / 10 <=? reported) eqn:E8;
    destruct (reported <=? EGL_DISPLAY_SCALING * 10) eqn:E9;
    cbn; try reflexivity; exfalso;
    rewrite ?Z.eqb_eq, ?Z.eqb_neq, ?Z.ltb_lt, ?Z.ltb_ge, ?Z.leb_le,
      ?Z.leb_gt, ?Z.gtb_ltb in *;
    rewrite ?Z.ltb_lt, ?Z.ltb_ge in *; lia.
Qed.

Lemma make_current_bind_run be s :
  display (eglglesctx s) <> 0 ->
  eglMakeCurrent be = true ->
  gst_eglglessink_context_make_current be true s = Ok true s [].
Proof.
  intros Hdpy H. apply Z.eqb_neq in Hdpy.
  unfold gst_eglglessink_context_make_current. run_step.
  rewrite Hdpy, H. cbn.
  destruct (negb (surface (eglglesctx s) =? 0)
            && negb (eglcontext (eglglesctx s) =? 0)); cbn; [|reflexivity].
  destruct (eglGetCurrentContext be =? eglcontext (eglglesctx s)); reflexivity.
Qed.

Lemma create_window_surface_run be s :
  display (eglglesctx s) <> 0 ->
  eglCreateWindowSurface be <> 0 ->
  eglMakeCurrent be = true ->
  exists s1,
    create_window_surface be s
    = Ok true s1 [EvCreateWindowSurface (used_window (eglglesctx s))]
    /\ pixel_aspect_ratio (eglglesctx s1)
       = saved_pixel_aspect_ratio (egl_major (eglglesctx s))
           (egl_minor (eglglesctx s)) (query_pixel_aspect_ratio be)
    /\ surface (eglglesctx s1) = eglCreateWindowSurface be
    /\ have_surface s1 = true
    /\ buffer_preserved (eglglesctx s1)
       = match query_swap_behavior be with Some p => p | None => false end
    /\ format s1 = format s
    /\ have_texture s1 = have_texture s
    /\ object_lock s1 = object_lock s.
Proof.
  intros Hdpy Hsurf Hmc.
  apply Z.eqb_neq in Hsurf.
  unfold create_window_surface.
  unfold bind at 1, get at 1. unfold bind at 1, emit at 1.
  unfold bind at 1, modify at 1. rewrite Hsurf.
  unfold bind at 1, modify at 1.
  unfold bind at 1.
  destruct (query_swap_behavior be) as [p|];
    unfold modify at 1, ret at 1;
    unfold bind at 1;
    rewrite make_current_bind_run by (first [exact Hdpy | exact Hmc]);
    unfold gst_eglglessink_update_surface_dimensions;
    run_step;
    match goal with
    | |- context [if ?c then _ else _] => destruct c
    end; cbn; eexists; repeat split.
Qed.

Lemma build_video_program_par be s :
  pixel_aspect_ratio (eglglesctx (result_sink (build_video_program be s)))
  = pixel_aspect_ratio (eglglesctx s).
Proof.
  unfold build_video_program.
  destruct (fails_at be StShaderCompiler); [reflexivity|].
  destruct (fails_at be StVertexShader0); [reflexivity|].
  run_step.
  destruct (fragment_shader_for_format (format s)) as [[[prog n] names]|];
    [|reflexivity].
  cbn. destruct (fails_at be StFragmentShader0); [reflexivity|].
  cbn. destruct (fails_at be StProgram0); reflexivity.
Qed.

Lemma build_border_program_par be s :
  pixel_aspect_ratio (eglglesctx (result_sink (build_border_program be s)))
  = pixel_aspect_ratio (eglglesctx s).
Proof.
  unfold build_border_program.
  destruct (fails_at be StVertexShader1); [reflexivity|].
  run_step.
  destruct (fails_at be StFragmentShader1); [reflexivity|].
  cbn. destruct (fails_at be StProgram1); reflexivity.
Qed.

Lemma setup_textures_par be s :
  pixel_aspect_ratio (eglglesctx (result_sink (setup_textures be s)))
  = pixel_aspect_ratio (eglglesctx s).
Proof.
  unfold setup_textures. run_step.
  destruct (have_texture s); [reflexivity|].
  cbn. destruct (fails_at be StTextures); reflexivity.
Qed.

Lemma init_egl_surface_par be s s1 tr :
  create_window_surface be s = Ok true s1 tr ->
  pixel_aspect_ratio (eglglesctx (result_sink (gst_eglglessink_init_egl_surface be s)))
  = pixel_aspect_ratio (eglglesctx s1).
Proof.
  intros Hcreate. unfold gst_eglglessink_init_egl_surface.
  rewrite result_sink_bind, Hcreate. cbn [negb].
  rewrite result_sink_bind.
  pose proof (build_video_program_par be s1) as Hv.
  destruct (build_video_program be s1) as [video s2 tr2|why s2 tr2];
    cbn [result_sink] in Hv; [|exact Hv].
  destruct video; cbn [negb]; cbv beta iota; [|exact Hv].
  rewrite result_sink_bind. unfold get at 1. cbv beta iota.
  rewrite result_sink_bind.
  destruct (buffer_preserved (eglglesctx s2)); cbn [negb]; cbv beta iota.
  - unfold ret at 1. cbn [negb]. cbv beta iota.
    rewrite setup_textures_par. exact Hv.
  - pose proof (build_border_program_par be s2) as Hb.
    destruct (build_border_program be s2) as [border s3 tr3|why s3 tr3];
      cbn [result_sink] in Hb; [|congruence].
    destruct border; cbn [negb]; cbv beta iota; [|cbn; congruence].
    rewrite setup_textures_par. congruence.
Qed.

(** C8. Once the EGL surface is created and the context attached, the
    stored display pixel aspect ratio is the value the backend reports
    when the EGL version is at least 1.2 and the report is not
    EGL_UNKNOWN and lies within
    [EGL_DISPLAY_SCALING / 10, EGL_DISPLAY_SCALING * 10]; in every other
    case it is EGL_DISPLAY_SCALING.  This is the value the sink holds
    when [gst_eglglessink_init_egl_surface] is over, whatever becomes
    of the shader and texture setup that follows.  The sink has a
    display by then, and EGL versions start at 1.0. *)
Theorem display_par_reported_or_default (be : Backend) (s : GstEglGlesSink) :
  display (eglglesctx s) <> 0 ->
  1 <= egl_major (eglglesctx s) ->
  eglCreateWindowSurface be <> 0 ->
  eglMakeCurrent be = true ->
  pixel_aspect_ratio
    (eglglesctx (result_sink (gst_eglglessink_init_egl_surface be s)))
  = expected_display_par (egl_major (eglglesctx s)) (egl_minor (eglglesctx s))
      (query_pixel_aspect_ratio be).
Proof.
  intros Hdpy Hmajor Hsurf Hmc.
  destruct (create_window_surface_run be s Hdpy Hsurf Hmc)
    as (s1 & Hrun & Hpar & _).
  rewrite (init_egl_surface_par be s s1 _ Hrun), Hpar.
  now apply saved_pixel_aspect_ratio_expected.
Qed.

Lemma display_par_reported_or_default_witness :
  pixel_aspect_ratio
    (eglglesctx (result_sink
       (gst_eglglessink_init_egl_surface Scenario.nominal Scenario.paused)))
  = 10000.
Proof.
  refine (display_par_reported_or_default Scenario.nominal Scenario.paused
            _ _ _ _).
  - discriminate.
  - vm_compute. discriminate.
  - discriminate.
  - reflexivity.
Defined.

(** ** Shader selection and texture uploads *)











Lemma emit_uploads_run (plan : list TexImage) s :
  fold_right (fun t k => emit (EvTexImage2D t) ;; k) (ret tt) plan s
  = Ok tt s (map EvTexImage2D plan).
Proof.
  induction plan as [|t plan IH]; [reflexivity|].
  cbn [fold_right map]. unfold bind at 1, emit at 1.
  cbv beta iota. now rewrite IH.
Qed.

Lemma upload_frame_run lib be s fm plan :
  selected_fmt s = Some fm ->
  upload_plan lib (fmt fm) (format s) (video_width s) (video_height s) = Some plan ->
  upload_frame lib be s
  = Ok (negb (glTexImage2D_error be)) s (map EvTexImage2D plan).
Proof.
  intros Hsel Hplan. unfold upload_frame.
  unfold bind at 1, get at 1. rewrite Hsel.
  unfold bind at 1, get at 1. unfold bind at 1, get at 1.
  unfold bind at 1, get at 1. rewrite Hplan.
  unfold bind at 1. rewrite emit_uploads_run.
  unfold ret. cbn. now rewrite app_nil_r.
Qed.

(** The catalog entry matched by fixed caps of format [f] has the
    hardware format [hardware_format f], whatever subset of the three
    configurations the backend supports. *)
Lemma catalog_entry_hardware_format be c f width height fm :
  gst_video_format_parse_caps (Some c) = Some (f, width, height) ->
  compat_format_traverse (map Some (probed_formats be)) (Some c) = Some fm ->
  fmt fm = hardware_format f.
Proof.
  intros Hparse.
  destruct c as [|st [|st' rest]]; try discriminate.
  destruct st as [sf sw sh sp]. cbn in Hparse.
  assert (Hf : sf = f /\ sw = Some width /\ sh = Some height).
  { destruct sf, sw, sh; inversion Hparse; auto. }
  destruct Hf as (-> & -> & ->). clear Hparse.
  unfold probed_formats. cbn [filter].
  destruct (probe_accepts be RGBA8888_fmt), (probe_accepts be RGB888_fmt),
    (probe_accepts be RGB565_fmt); destruct f, sp; cbn; intros H;
    inversion H; reflexivity.
Qed.



(** ** Display region *)

Arguments to_gint : simpl never.
Arguments to_guint : simpl never.
Arguments to_guint64 : simpl never.

Lemma to_gint_small z : - 2 ^ 31 <= z < 2 ^ 31 -> to_gint z = z.
Proof.
  intros H. unfold to_gint. rewrite Z.mod_small by lia. lia.
Qed.

Lemma to_guint_small z : 0 <= z < 2 ^ 32 -> to_guint z = z.
Proof. intros H. unfold to_guint. now rewrite Z.mod_small. Qed.

Lemma to_guint64_small z : 0 <= z < 2 ^ 64 -> to_guint64 z = z.
Proof. intros H. unfold to_guint64. now rewrite Z.mod_small. Qed.

Lemma uint64_scale_int_small val num denom :
  0 <= val < 2 ^ 31 -> 0 <= num < 2 ^ 31 -> 0 < denom < 2 ^ 31 ->
  val * num / denom < 2 ^ 31 ->
  to_gint (GstVideo010.uint64_scale_int (to_guint64 val) (to_gint num) (to_gint denom))
  = val * num / denom.
Proof.
  intros Hval Hnum Hden Hres.
  rewrite to_guint64_small by lia.
  rewrite (to_gint_small num), (to_gint_small denom) by lia.
  unfold GstVideo010.uint64_scale_int.
  replace (denom <=? 0) with false by (symmetry; apply Z.leb_gt; lia).
  replace (num <? 0) with false by (symmetry; apply Z.ltb_ge; lia).
  cbn [orb].
  assert (0 <= val * num / denom) by (apply Z.div_pos; nia).
  replace (val * num / denom >? G_MAXUINT64) with false.
  - apply to_gint_small. lia.
  - symmetry. rewrite Z.gtb_ltb. apply Z.ltb_ge. unfold G_MAXUINT64. lia.
Qed.

(** On values in the range of [gint], the frame of the source is the
    frame of the specification. *)
Lemma scaled_frame_specified width height dar_n dar_d :
  0 <= width < 2 ^ 31 -> 0 <= height < 2 ^ 31 ->
  0 < dar_n < 2 ^ 31 -> 0 < dar_d < 2 ^ 31 ->
  height * dar_n / dar_d < 2 ^ 31 ->
  width * dar_d / dar_n < 2 ^ 31 ->
  scaled_frame GstVideo010.lib width height dar_n dar_d
  = specified_frame width height dar_n dar_d.
Proof.
  intros Hw Hh Hn Hd Hrw Hrh.
  unfold scaled_frame, specified_frame.
  cbn [gst_util_uint64_scale_int GstVideo010.lib].
  rewrite !to_guint_small by lia.
  rewrite !uint64_scale_int_small by lia.
  reflexivity.
Qed.

Lemma draw_and_swap_region be s :
  display_region (result_sink (draw_and_swap be s)) = display_region s.
Proof.
  unfold draw_and_swap. run_step.
  destruct (buffer_preserved (eglglesctx s)); cbn;
    try destruct (border_error be); cbn; try reflexivity;
    destruct (video_error be); cbn; try reflexivity;
    destruct (eglSwapBuffers be); reflexivity.
Qed.

Lemma setup_vbo_run be s :
  gst_eglglessink_setup_vbo be false s
  = Ok (negb (vbo_error be))
       (if vbo_error be then s else set_have_vbo true s) [EvSetupVbo].
Proof.
  unfold gst_eglglessink_setup_vbo. unfold bind at 1, get at 1.
  rewrite andb_false_r. run_step.
  destruct (vbo_error be); reflexivity.
Qed.

Lemma update_surface_dimensions_run be s :
  exists changed,
    gst_eglglessink_update_surface_dimensions be s
    = Ok changed
        (in_ctx (set_surface_height (query_surface_height be))
           (in_ctx (set_surface_width (query_surface_width be)) s)) [].
Proof.
  unfold gst_eglglessink_update_surface_dimensions. run_step.
  destruct (negb (query_surface_width be =? surface_width (eglglesctx s))
            || negb (query_surface_height be =? surface_height (eglglesctx s)))
    eqn:Hchanged; cbn.
  - now exists true.
  - exists false. apply orb_false_elim in Hchanged as [Hw Hh].
    apply negb_false_iff, Z.eqb_eq in Hw.
    apply negb_false_iff, Z.eqb_eq in Hh.
    rewrite Hw, Hh. destruct s as [? ? ? ? ? ? ? ? ? ? ? ? c]; destruct c.
    reflexivity.
Qed.

Lemma update_display_region_run lib be s :
  object_lock s = false ->
  Rect.w (display_region s) = 0 \/ Rect.h (display_region s) = 0 ->
  exists s',
    update_display_region lib be s = Ok (negb (vbo_error be)) s' [EvSetupVbo]
    /\ display_region s'
       = default_display_region lib
           (in_ctx (set_surface_height (query_surface_height be))
              (in_ctx (set_surface_width (query_surface_width be)) s))
    /\ object_lock s' = false.
Proof.
  intros Hlock Hunset.
  assert (Hcond : forall changed,
             changed || (Rect.w (display_region s) =? 0)
             || (Rect.h (display_region s) =? 0) = true).
  { intros changed. destruct Hunset as [-> | ->]; cbn;
      rewrite ?orb_true_r; reflexivity. }
  destruct (update_surface_dimensions_run be s) as (changed & Hdims).
  unfold update_display_region.
  rewrite (bind_Ok _ _ _ Hdims).
  unfold bind at 1, get at 1.
  replace (display_region _) with (display_region s) by reflexivity.
  rewrite Hcond.
  unfold bind at 1, GST_OBJECT_LOCK at 1.
  replace (object_lock _) with (object_lock s) by reflexivity.
  rewrite Hlock.
  unfold bind at 1, modify at 1.
  unfold bind at 1, GST_OBJECT_UNLOCK, modify at 1.
  rewrite setup_vbo_run.
  eexists. split; [reflexivity|].
  destruct (vbo_error be); split; reflexivity.
Qed.

Lemma default_display_region_letterbox lib be s dar_n dar_d :
  force_aspect_ratio s = true ->
  sink_display_ratio lib s = Some (dar_n, dar_d) ->
  default_display_region lib
    (in_ctx (set_surface_height (query_surface_height be))
       (in_ctx (set_surface_width (query_surface_width be)) s))
  = gst_video_sink_center_rect lib
      (scaled_frame lib (video_width s) (video_height s) dar_n dar_d)
      (surface_rect be) true.
Proof.
  intros Hforce Hdar. unfold default_display_region. cbn.
  rewrite Hforce. cbn [negb].
  unfold sink_display_ratio in Hdar. rewrite Hdar. reflexivity.
Qed.


(** ** Caps configuration *)

Lemma result_trace_bind {A B} (m : M A) (f : A -> M B) s :
  result_trace (bind m f s) =
  match m s with
  | Ok a s1 tr1 => tr1 ++ result_trace (f a s1)
  | Stuck _ _ tr1 => tr1
  end.
Proof.
  unfold bind. destruct (m s) as [a s1 tr1|why s1 tr1]; [|reflexivity].
  destruct (f a s1); reflexivity.
Qed.

Lemma reset_display_region_run s :
  object_lock s = false ->
  gst_eglglessink_reset_display_region s
  = Ok tt
      (set_object_lock false
         (set_display_region
            {| Rect.x := Rect.x (display_region s);
               Rect.y := Rect.y (display_region s);
               Rect.w := 0; Rect.h := 0 |}
            (set_object_lock true s))) [].
Proof.
  intros Hlock. unfold gst_eglglessink_reset_display_region. run_step.
  rewrite Hlock. reflexivity.
Qed.

Lemma make_current_unbind_run {B} be (f : bool -> M B) s :
  display (eglglesctx s) <> 0 ->
  bind (gst_eglglessink_context_make_current be false) f s
  = f (eglMakeCurrent be) s.
Proof.
  intros Hdpy. apply Z.eqb_neq in Hdpy.
  unfold gst_eglglessink_context_make_current.
  rewrite bind_assoc, bind_get. cbv beta. rewrite Hdpy. cbn [andb].
  destruct (eglMakeCurrent be); cbn [negb]; apply bind_ret.
Qed.

(** One teardown: the trace, and what the sink holds afterwards. *)
Lemma wipe_eglglesctx_run be s :
  object_lock s = false ->
  display (eglglesctx s) <> 0 ->
  exists s',
    gst_eglglessink_wipe_eglglesctx be s = Ok tt s' (teardown_trace s)
    /\ object_lock s' = false
    /\ have_texture s' = false
    /\ have_vbo s' = false
    /\ have_surface s'
       = (if surface (eglglesctx s) =? 0 then have_surface s else false)
    /\ surface (eglglesctx s') = 0
    /\ eglcontext (eglglesctx s') = 0
    /\ have_window s' = have_window s
    /\ create_window s' = create_window s
    /\ window (eglglesctx s') = window (eglglesctx s)
    /\ format s' = format s
    /\ selected_fmt s' = selected_fmt s
    /\ configured_caps s' = configured_caps s
    /\ last_flow s' = last_flow s
    /\ queue s' = queue s
    /\ thread s' = thread s
    /\ egl_major (eglglesctx s') = egl_major (eglglesctx s)
    /\ egl_minor (eglglesctx s') = egl_minor (eglglesctx s)
    /\ display (eglglesctx s') = display (eglglesctx s).
Proof.
  intros Hlock Hdpy.
  unfold gst_eglglessink_wipe_eglglesctx, teardown_trace.
  mstep. sink_simpl.
  repeat (first [ mstep | mcase ]; sink_simpl;
          rewrite ?make_current_unbind_run, ?reset_display_region_run
            by (first [exact Hlock | exact Hdpy]);
          sink_simpl).
  all: eexists; (split; [reflexivity|]); sink_simpl;
    repeat split; try reflexivity; try assumption;
    apply Z.eqb_eq; assumption.
Qed.

(** ** Frame rules: what a run leaves alone, what it may call *)

Section Frames.

Context {T : Type} (obs : GstEglGlesSink -> T).

Lemma keeps_ret {A} (a : A) : keeps obs (ret a).
Proof. intros s. reflexivity. Qed.

Lemma keeps_halt {A} why : keeps obs (@halt A why).
Proof. intros s. reflexivity. Qed.

Lemma keeps_get {A} (g : GstEglGlesSink -> A) : keeps obs (get g).
Proof. intros s. reflexivity. Qed.

Lemma keeps_emit e : keeps obs (emit e).
Proof. intros s. reflexivity. Qed.

Lemma keeps_modify g : (forall s, obs (g s) = obs s) -> keeps obs (modify g).
Proof. intros H s. apply H. Qed.

Lemma keeps_bind {A B} (m : M A) (f : A -> M B) :
  keeps obs m -> (forall a, keeps obs (f a)) -> keeps obs (bind m f).
Proof.
  intros Hm Hf s. rewrite result_sink_bind.
  specialize (Hm s). destruct (m s) as [a s1 tr1|why s1 tr1]; cbn in Hm.
  - now rewrite Hf.
  - exact Hm.
Qed.

Lemma keeps_when b (m : M unit) : keeps obs m -> keeps obs (when b m).
Proof. intros H. destruct b; [exact H | apply keeps_ret]. Qed.

Lemma keeps_lock :
  (forall b s, obs (set_object_lock b s) = obs s) -> keeps obs GST_OBJECT_LOCK.
Proof.
  intros H s. unfold GST_OBJECT_LOCK.
  destruct (object_lock s); cbn; [reflexivity | apply H].
Qed.

Lemma keeps_unlock :
  (forall b s, obs (set_object_lock b s) = obs s) -> keeps obs GST_OBJECT_UNLOCK.
Proof. intros H. apply keeps_modify. intros s. apply H. Qed.

End Frames.

Section Emits.

Context (P : Event -> bool).

Lemma emits_ret {A} (a : A) : emits_only P (ret a).
Proof. intros s. reflexivity. Qed.

Lemma emits_halt {A} why : emits_only P (@halt A why).
Proof. intros s. reflexivity. Qed.

Lemma emits_get {A} (g : GstEglGlesSink -> A) : emits_only P (get g).
Proof. intros s. reflexivity. Qed.

Lemma emits_modify g : emits_only P (modify g).
Proof. intros s. reflexivity. Qed.

Lemma emits_emit e : P e = true -> emits_only P (emit e).
Proof. intros H s. cbn. now rewrite H. Qed.

Lemma emits_bind {A B} (m : M A) (f : A -> M B) :
  emits_only P m -> (forall a, emits_only P (f a)) -> emits_only P (bind m f).
Proof.
  intros Hm Hf s. rewrite result_trace_bind.
  specialize (Hm s). destruct (m s) as [a s1 tr1|why s1 tr1]; cbn in Hm.
  - rewrite forallb_app, Hm. apply Hf.
  - exact Hm.
Qed.

Lemma emits_when b (m : M unit) : emits_only P m -> emits_only P (when b m).
Proof. intros H. destruct b; [exact H | apply emits_ret]. Qed.

Lemma emits_lock : emits_only P GST_OBJECT_LOCK.
Proof. intros s. unfold GST_OBJECT_LOCK. destruct (object_lock s); reflexivity. Qed.

Lemma emits_unlock : emits_only P GST_OBJECT_UNLOCK.
Proof. intros s. reflexivity. Qed.

End Emits.

(** Both judgements are proved by following the structure of the
    code. *)
Ltac frame_step :=
  match goal with
  | |- keeps _ (bind _ _) => apply keeps_bind; [|intros ?]
  | |- keeps _ (ret _) => apply keeps_ret
  | |- keeps _ (halt _) => apply keeps_halt
  | |- keeps _ (get _) => apply keeps_get
  | |- keeps _ (emit _) => apply keeps_emit
  | |- keeps _ (when _ _) => apply keeps_when
  | |- keeps _ GST_OBJECT_LOCK => apply keeps_lock; intros; reflexivity
  | |- keeps _ GST_OBJECT_UNLOCK => apply keeps_unlock; intros; reflexivity
  | |- keeps _ (modify _) => apply keeps_modify; intros; reflexivity
  | |- emits_only _ (bind _ _) => apply emits_bind; [|intros ?]
  | |- emits_only _ (ret _) => apply emits_ret
  | |- emits_only _ (halt _) => apply emits_halt
  | |- emits_only _ (get _) => apply emits_get
  | |- emits_only _ (modify _) => apply emits_modify
  | |- emits_only _ (emit _) => apply emits_emit; reflexivity
  | |- emits_only _ (when _ _) => apply emits_when
  | |- emits_only _ GST_OBJECT_LOCK => apply emits_lock
  | |- emits_only _ GST_OBJECT_UNLOCK => apply emits_unlock
  | |- keeps _ (if ?c then _ else _) => destruct c
  | |- emits_only _ (if ?c then _ else _) => destruct c
  | |- keeps _ (match ?x with _ => _ end) => destruct x
  | |- emits_only _ (match ?x with _ => _ end) => destruct x
  | |- keeps _ (let (_, _) := ?x in _) => destruct x
  | |- emits_only _ (let (_, _) := ?x in _) => destruct x
  end.

Ltac frames := repeat frame_step.

(** The functions of a rebuild, unfolded down to the primitive steps. *)
Ltac unfold_rebuild :=
  unfold gst_eglglessink_choose_config, configure_window,
    gst_eglglessink_create_window, gst_eglglessink_init_egl_surface,
    create_window_surface, build_video_program, build_border_program,
    setup_textures, gst_eglglessink_context_make_current,
    gst_eglglessink_update_surface_dimensions.

Lemma init_egl_surface_not_wipe be :
  emits_only not_wipe (gst_eglglessink_init_egl_surface be).
Proof. unfold_rebuild. frames. Qed.


Lemma configure_window_run be width height s :
  object_lock s = false ->
  (have_window s = false ->
   create_window s = true /\ platform_create_native_window be width height <> 0) ->
  exists s',
    configure_window be width height s
    = Ok true s'
        ((if have_window s then [] else [EvCreateNativeWindow width height])
         ++ [EvGotWindowHandle (rebuild_window be s width height)])
    /\ used_window (eglglesctx s') = rebuild_window be s width height
    /\ object_lock s' = false
    /\ have_surface s' = have_surface s
    /\ have_texture s' = have_texture s
    /\ format s' = format s
    /\ configured_caps s' = configured_caps s
    /\ egl_major (eglglesctx s') = egl_major (eglglesctx s)
    /\ egl_minor (eglglesctx s') = egl_minor (eglglesctx s).
Proof.
  intros Hlock Hwin.
  unfold configure_window, gst_eglglessink_create_window, rebuild_window.
  rewrite bind_lock by exact Hlock.
  mstep. sink_simpl.
  destruct (have_window s) eqn:Hhave; sink_simpl.
  - msteps. eexists. split; [reflexivity|]. sink_simpl. repeat split.
  - destruct (Hwin eq_refl) as [Hcreate Hnative].
    apply Z.eqb_neq in Hnative.
    rewrite bind_assoc, bind_assoc, bind_get. cbv beta. sink_simpl.
    rewrite Hcreate. sink_simpl.
    rewrite bind_assoc, bind_emit, bind_ret, Hnative.
    msteps. eexists. split; [reflexivity|]. sink_simpl. repeat split.
Qed.


Lemma configure_window_keeps_display be width height :
  keeps (fun s => display (eglglesctx s)) (configure_window be width height).
Proof. unfold_rebuild. frames. Qed.

Lemma result_trace_prepend {A} tr (r : Res A) :
  result_trace (prepend tr r) = tr ++ result_trace r.
Proof. destruct r; reflexivity. Qed.

(** The part of [gst_eglglessink_configure_caps] up to the test of the
    configured caps. *)
Lemma configure_caps_prefix be c s f width height fm :
  gst_video_format_parse_caps (Some (caps_val c)) = Some (f, width, height) ->
  gst_eglglessink_get_compat_format_from_caps s (Some (caps_val c)) = Some fm ->
  exists s1,
    gst_eglglessink_configure_caps be (Some c) s
    = (succeed <- check_configured be (Some (caps_val c)) ;;
       if succeed then ret true
       else
         chosen <- gst_eglglessink_choose_config be ;;
         if negb chosen then ret false
         else
           modify (set_configured_caps (Some c)) ;;
           win <- configure_window be width height ;;
           if negb win then ret false
           else
             have_surface' <- get have_surface ;;
             if negb have_surface' then
               ok <- gst_eglglessink_init_egl_surface be ;;
               if negb ok then ret false else ret true
             else ret true) s1
    /\ format s1 = f
    /\ selected_fmt s1 = Some fm
    /\ eglglesctx s1 = eglglesctx s
    /\ object_lock s1 = object_lock s
    /\ configured_caps s1 = configured_caps s
    /\ have_surface s1 = have_surface s
    /\ have_texture s1 = have_texture s
    /\ have_vbo s1 = have_vbo s
    /\ have_window s1 = have_window s
    /\ create_window s1 = create_window s
    /\ last_flow s1 = last_flow s
    /\ queue s1 = queue s.
Proof.
  intros Hparse Hcompat.
  unfold gst_eglglessink_configure_caps.
  cbn [option_map]. rewrite Hparse.
  rewrite bind_modify, bind_get.
  unfold gst_eglglessink_get_compat_format_from_caps in *.
  sink_simpl. rewrite Hcompat.
  rewrite !bind_modify.
  eexists. split; [reflexivity|]. sink_simpl. repeat split.
Qed.

Lemma teardown_trace_ext s s1 :
  eglglesctx s1 = eglglesctx s -> teardown_trace s1 = teardown_trace s.
Proof. intros H. unfold teardown_trace. now rewrite H. Qed.



(** ** The object lock in set_render_rectangle *)

Lemma set_render_rectangle_always_relocks x y width height s :
  object_lock s = false ->
  gst_eglglessink_set_render_rectangle x y width height s
  = Stuck SelfDeadlock (set_object_lock true s) [].
Proof.
  intros Hlock. unfold gst_eglglessink_set_render_rectangle.
  rewrite bind_lock by exact Hlock.
  destruct ((width =? -1) && (height =? -1)).
  - unfold gst_eglglessink_reset_display_region. now rewrite bind_lock_held.
  - now rewrite bind_lock_held.
Qed.

(** C9 fails on the code.  [gst_eglglessink_set_render_rectangle]
    takes the object lock on entry and then takes it again, through
    [gst_eglglessink_reset_display_region] when width and height are
    -1 and directly otherwise; the outer acquisition has no release.
    On a new sink both calls end blocked on the lock they hold, the
    display region unchanged; [gst_eglglessink_set_window_handle], its
    neighbour, takes and releases the lock once. *)
Theorem set_render_rectangle_relocks_object_lock :
  gst_eglglessink_set_render_rectangle 0 0 640 480 gst_eglglessink_init
  = Stuck SelfDeadlock (set_object_lock true gst_eglglessink_init) []
  /\ gst_eglglessink_set_render_rectangle 0 0 (-1) (-1) gst_eglglessink_init
     = Stuck SelfDeadlock (set_object_lock true gst_eglglessink_init) []
  /\ (forall x y width height,
        result_value
          (gst_eglglessink_set_render_rectangle x y width height
             gst_eglglessink_init) = None)
  /\ result_value (gst_eglglessink_set_window_handle 7 gst_eglglessink_init)
     = Some tt
  /\ object_lock
       (result_sink (gst_eglglessink_set_window_handle 7 gst_eglglessink_init))
     = false.
Proof.
  repeat split; try reflexivity.
  intros x y width height.
  now rewrite set_render_rectangle_always_relocks.
Qed.

(** ** The last flow after the render thread has left its loop *)

Lemma result_value_bind {A B} (m : M A) (f : A -> M B) s :
  result_value (bind m f s) =
  match m s with
  | Ok a s1 _ => result_value (f a s1)
  | Stuck _ _ _ => None
  end.
Proof.
  unfold bind. destruct (m s) as [a s1 tr1|why s1 tr1]; [|reflexivity].
  destruct (f a s1); reflexivity.
Qed.

Lemma wipe_keeps_last_flow be :
  keeps last_flow (gst_eglglessink_wipe_eglglesctx be).
Proof.
  unfold gst_eglglessink_wipe_eglglesctx, gst_eglglessink_context_make_current,
    gst_eglglessink_reset_display_region.
  frames.
Qed.

Lemma render_thread_shutdown_flow be s :
  last_flow (result_sink (render_thread_shutdown be s)) <> GST_FLOW_OK.
Proof.
  unfold render_thread_shutdown.
  rewrite bind_get, bind_when.
  assert (Hrest : keeps last_flow
            (gst_eglglessink_wipe_eglglesctx be ;;
             modify (set_configured_caps None))).
  { apply keeps_bind; [apply wipe_keeps_last_flow|].
    intros _. apply keeps_modify. reflexivity. }
  destruct (last_flow s) eqn:Hflow; cbn [GstFlowReturn_beq].
  - rewrite bind_modify, Hrest. discriminate.
  - rewrite Hrest, Hflow. discriminate.
  - rewrite Hrest, Hflow. discriminate.
  - rewrite Hrest, Hflow. discriminate.
Qed.

Lemma shutdown_then_exit_flow be s :
  last_flow (result_sink ((render_thread_shutdown be ;; ret ThreadExited) s))
  <> GST_FLOW_OK.
Proof.
  rewrite result_sink_bind.
  pose proof (render_thread_shutdown_flow be s) as H.
  destruct (render_thread_shutdown be s); exact H.
Qed.

Lemma render_loop_exit_flow lib world fuel :
  forall k s,
    result_value (render_loop lib world k fuel s) = Some ThreadExited ->
    last_flow (result_sink (render_loop lib world k fuel s)) <> GST_FLOW_OK.
Proof.
  induction fuel as [|fuel IH]; intros k s; cbn [render_loop].
  - discriminate.
  - rewrite bind_get.
    destruct (gst_data_queue_pop (queue s)) as [item q'| |].
    + rewrite bind_modify, bind_emit.
      destruct (render_item lib (world k) item (set_queue q' s))
        as [continue s2 tr2|why s2 tr2] eqn:Hitem.
      * rewrite (bind_prepend _ _ _ _ _ _ Hitem).
        destruct continue.
        -- destruct (render_loop lib world (S k) fuel s2) eqn:Hloop;
             cbn; intros Hv.
           ++ specialize (IH (S k) s2). rewrite Hloop in IH. now apply IH.
           ++ discriminate.
        -- intros _.
           pose proof (shutdown_then_exit_flow (world k) s2) as H.
           destruct ((render_thread_shutdown (world k);; ret ThreadExited) s2);
             exact H.
      * rewrite (bind_Stuck _ _ _ Hitem). discriminate.
    + intros _. apply shutdown_then_exit_flow.
    + discriminate.
Qed.

Lemma result_sink_prepend {A} tr (r : Res A) :
  result_sink (prepend tr r) = result_sink r.
Proof. destruct r; reflexivity. Qed.

Lemma render_loop_flushing lib world k fuel s :
  flushing (queue s) = true ->
  render_loop lib world k (S fuel) s
  = (render_thread_shutdown (world k) ;; ret ThreadExited) s.
Proof.
  intros Hflush. cbn [render_loop]. rewrite bind_get.
  unfold gst_data_queue_pop. now rewrite Hflush.
Qed.

Lemma stop_flow lib be status s :
  last_flow (result_sink (gst_eglglessink_stop lib be status s)) <> GST_FLOW_OK.
Proof.
  unfold gst_eglglessink_stop, render_cond_broadcast.
  msteps. rewrite !result_sink_prepend.
  destruct (thread s).
  - rewrite result_sink_prepend.
    set (s1 := set_queue (gst_data_queue_set_flushing (queue s) true) s).
    assert (Htail : forall s2 : GstEglGlesSink,
      last_flow
        (result_sink
           ((modify (set_thread false);;
             modify (set_last_flow GST_FLOW_WRONG_STATE);;
             own <- get using_own_window;;
             when own
               (c <- get eglglesctx;;
                emit (EvDestroyNativeWindow (used_window c));;
                modify (in_ctx (set_used_window 0));;
                modify (set_have_window false));;
             modify (in_ctx (set_used_window 0));;
             modify (set_current_caps None);; ret true) s2))
      = GST_FLOW_WRONG_STATE).
    { intros s2. msteps. destruct (using_own_window s2); reflexivity. }
    destruct status.
    + rewrite bind_assoc.
      destruct (render_loop lib (fun _ => be) 0 1 s1) as [a s2 tr2|why s2 tr2] eqn:Hrun.
      * rewrite (bind_prepend _ _ _ _ _ _ Hrun), bind_ret, result_sink_prepend, Htail.
        discriminate.
      * rewrite (bind_Stuck _ _ _ Hrun).
        pose proof (shutdown_then_exit_flow be s1) as H.
        rewrite <- (render_loop_flushing lib (fun _ => be) 0 0 s1 eq_refl) in H.
        now rewrite Hrun in H.
    + rewrite bind_ret, Htail. discriminate.
    + rewrite bind_assoc.
      destruct (render_loop lib (fun _ => be) 0 1 s1) as [a s2 tr2|why s2 tr2] eqn:Hrun.
      * rewrite (bind_prepend _ _ _ _ _ _ Hrun), bind_ret, result_sink_prepend, Htail.
        discriminate.
      * rewrite (bind_Stuck _ _ _ Hrun).
        pose proof (shutdown_then_exit_flow be s1) as H.
        rewrite <- (render_loop_flushing lib (fun _ => be) 0 0 s1 eq_refl) in H.
        now rewrite Hrun in H.
  - destruct (using_own_window s); cbn; discriminate.
Qed.

Lemma render_loop_flushing_exit lib world k fuel s :
  flushing (queue s) = true ->
  object_lock s = false ->
  display (eglglesctx s) <> 0 ->
  exists s',
    render_loop lib world k (S fuel) s = Ok ThreadExited s' (teardown_trace s)
    /\ last_flow s'
       = (if GstFlowReturn_beq (last_flow s) GST_FLOW_OK
          then GST_FLOW_WRONG_STATE else last_flow s)
    /\ configured_caps s' = None.
Proof.
  intros Hflush Hlock Hdpy.
  rewrite render_loop_flushing by exact Hflush.
  unfold render_thread_shutdown.
  rewrite bind_assoc, bind_get. cbv beta. rewrite bind_assoc, bind_when.
  set (s1 := if GstFlowReturn_beq (last_flow s) GST_FLOW_OK
             then set_last_flow GST_FLOW_WRONG_STATE s else s).
  assert (Hstep :
    forall (B : Type) (f : unit -> M B),
      (if GstFlowReturn_beq (last_flow s) GST_FLOW_OK
       then bind (modify (set_last_flow GST_FLOW_WRONG_STATE)) f s
       else f tt s) = f tt s1).
  { intros B f. subst s1.
    destruct (GstFlowReturn_beq (last_flow s) GST_FLOW_OK);
      [apply bind_modify | reflexivity]. }
  rewrite Hstep.
  assert (Hlock1 : object_lock s1 = false)
    by (subst s1; destruct (GstFlowReturn_beq (last_flow s) GST_FLOW_OK); exact Hlock).
  assert (Hctx1 : eglglesctx s1 = eglglesctx s)
    by (subst s1; destruct (GstFlowReturn_beq (last_flow s) GST_FLOW_OK); reflexivity).
  assert (Hflow1 : last_flow s1
                   = (if GstFlowReturn_beq (last_flow s) GST_FLOW_OK
                      then GST_FLOW_WRONG_STATE else last_flow s))
    by (subst s1; destruct (GstFlowReturn_beq (last_flow s) GST_FLOW_OK); reflexivity).
  assert (Hdpy1 : display (eglglesctx s1) <> 0) by (rewrite Hctx1; exact Hdpy).
  destruct (wipe_eglglesctx_run (world k) s1 Hlock1 Hdpy1)
    as (sw & Hwipe & _ & _ & _ & _ & _ & _ & _ & _ & _ & _ & _ & _ & Hfloww & _).
  rewrite bind_assoc, (bind_prepend _ _ _ _ _ _ Hwipe), bind_modify.
  rewrite (teardown_trace_ext s s1 Hctx1).
  unfold ret. cbn [prepend]. rewrite app_nil_r.
  eexists. split; [reflexivity|]. sink_simpl.
  split; [congruence | reflexivity].
Qed.

(** C10. Whenever [render_thread_func] returns, [last_flow] is not
    GST_FLOW_OK: the loop is left on a failed caps configuration
    (NOT_NEGOTIATED), on a frame whose result is not OK, or when the
    pop finds the queue flushing, and the statement after the loop
    turns a value that is still OK into WRONG_STATE; the teardown that
    follows leaves the field alone.  [gst_eglglessink_stop], which
    joins the thread, leaves a value that is not OK either.  A thread
    that finds the queue flushing, on a sink with its display, does
    return, with WRONG_STATE when the last result was OK and with the
    last result otherwise. *)
Theorem last_flow_not_ok_after_loop_exit
  (lib : GstVideoLib) (world : nat -> Backend) (k fuel : nat) (s : GstEglGlesSink) :
  result_value (render_loop lib world k fuel s) = Some ThreadExited ->
  last_flow (result_sink (render_loop lib world k fuel s)) <> GST_FLOW_OK
  /\ (forall be status,
        last_flow
          (result_sink
             (gst_eglglessink_stop lib be status
                (result_sink (render_loop lib world k fuel s))))
        <> GST_FLOW_OK)
  /\ (forall s0 : GstEglGlesSink,
        flushing (queue s0) = true ->
        object_lock s0 = false ->
        display (eglglesctx s0) <> 0 ->
        exists s',
          render_loop lib world k (S fuel) s0
          = Ok ThreadExited s' (teardown_trace s0)
          /\ last_flow s'
             = (if GstFlowReturn_beq (last_flow s0) GST_FLOW_OK
                then GST_FLOW_WRONG_STATE else last_flow s0)).
Proof.
  intros Hexit. split; [|split].
  - now apply render_loop_exit_flow.
  - intros be status. apply stop_flow.
  - intros s0 Hflush Hlock Hdpy.
    destruct (render_loop_flushing_exit lib world k fuel s0 Hflush Hlock Hdpy)
      as (s' & Hrun & Hflow & _).
    exists s'. split; assumption.
Qed.

Lemma last_flow_not_ok_after_loop_exit_witness :
  (* a frame whose buffer swap fails *)
  last_flow
    (result_sink
       (render_loop GstVideo010.lib
          (fun _ => Scenario.with_swap_buffers false Scenario.nominal) 0 2
          Scenario.pushed))
  <> GST_FLOW_OK.
Proof.
  refine (proj1 (last_flow_not_ok_after_loop_exit GstVideo010.lib
                   (fun _ => Scenario.with_swap_buffers false Scenario.nominal)
                   0 2 Scenario.pushed _)).
  vm_compute. reflexivity.
Defined.

(** ** Frame handoff *)

Lemma queue_not_full_empty q : items q = [] -> gst_data_queue_is_full q = false.
Proof.
  intros H. unfold gst_data_queue_is_full, cur_level_visible. now rewrite H.
Qed.

Lemma queue_buffer_push_flushing buf s :
  flushing (queue s) = true ->
  queue_buffer_push buf s
  = Ok (Returned GST_FLOW_WRONG_STATE) s [EvRenderUnlock].
Proof.
  intros Hflush. unfold queue_buffer_push, gst_data_queue_push.
  rewrite bind_get, Hflush. reflexivity.
Qed.

Lemma queue_buffer_push_full buf s :
  flushing (queue s) = false ->
  gst_data_queue_is_full (queue s) = true ->
  queue_buffer_push buf s = Ok WaitingForRoom s [].
Proof.
  intros Hflush Hfull. unfold queue_buffer_push, gst_data_queue_push.
  rewrite bind_get, Hflush, Hfull. reflexivity.
Qed.

Lemma queue_buffer_push_accepted buf s :
  flushing (queue s) = false ->
  gst_data_queue_is_full (queue s) = false ->
  queue_buffer_push buf s
  = Ok (if is_buffer buf then WaitingForRender else Returned GST_FLOW_OK)
      (set_queue (enqueue (queue_item buf) (queue s)) s)
      (if is_buffer buf then [EvRenderCondWait] else []).
Proof.
  intros Hflush Hfull. unfold queue_buffer_push, gst_data_queue_push.
  rewrite bind_get, Hflush, Hfull. cbv beta iota. rewrite bind_modify.
  destruct (is_buffer buf); reflexivity.
Qed.

Lemma queue_buffer_enters buf s :
  gst_eglglessink_queue_buffer buf s
  = prepend ((if is_buffer buf then [EvRenderLock] else [])
             ++ [EvQueuePush (queue_item buf)])
      (queue_buffer_push buf s).
Proof.
  unfold gst_eglglessink_queue_buffer.
  destruct (is_buffer buf); cbn [when].
  - rewrite bind_emit, bind_emit, prepend_prepend. reflexivity.
  - rewrite bind_ret, bind_emit. reflexivity.
Qed.

Lemma queue_buffer_flushing buf s :
  flushing (queue s) = true ->
  gst_eglglessink_queue_buffer buf s
  = Ok (Returned GST_FLOW_WRONG_STATE) s
      ((if is_buffer buf then [EvRenderLock] else [])
       ++ [EvQueuePush (queue_item buf); EvRenderUnlock]).
Proof.
  intros Hflush.
  rewrite queue_buffer_enters, (queue_buffer_push_flushing buf s Hflush).
  destruct (is_buffer buf); reflexivity.
Qed.

Lemma queue_buffer_full buf s :
  flushing (queue s) = false ->
  gst_data_queue_is_full (queue s) = true ->
  gst_eglglessink_queue_buffer buf s
  = Ok WaitingForRoom s
      ((if is_buffer buf then [EvRenderLock] else [])
       ++ [EvQueuePush (queue_item buf)]).
Proof.
  intros Hflush Hfull.
  rewrite queue_buffer_enters, (queue_buffer_push_full buf s Hflush Hfull).
  destruct (is_buffer buf); reflexivity.
Qed.

Lemma queue_buffer_accepted buf s :
  flushing (queue s) = false ->
  gst_data_queue_is_full (queue s) = false ->
  gst_eglglessink_queue_buffer buf s
  = Ok (if is_buffer buf then WaitingForRender else Returned GST_FLOW_OK)
      (set_queue (enqueue (queue_item buf) (queue s)) s)
      (if is_buffer buf
       then [EvRenderLock; EvQueuePush (queue_item buf); EvRenderCondWait]
       else [EvQueuePush (queue_item buf)]).
Proof.
  intros Hflush Hfull.
  rewrite queue_buffer_enters, (queue_buffer_push_accepted buf s Hflush Hfull).
  destruct (is_buffer buf); reflexivity.
Qed.

Lemma queue_buffer_resume_run s :
  queue_buffer_resume s = Ok (last_flow s) s [EvRenderUnlock].
Proof. reflexivity. Qed.

Lemma bind_Ok_inv {A B} (m : M A) (f : A -> M B) s b s2 tr :
  bind m f s = Ok b s2 tr ->
  exists a s1 tr1 tr2,
    m s = Ok a s1 tr1 /\ f a s1 = Ok b s2 tr2 /\ tr = tr1 ++ tr2.
Proof.
  unfold bind. destruct (m s) as [a s1 tr1|]; [|discriminate].
  destruct (f a s1) as [b' s2' tr2|] eqn:Hf; [|discriminate].
  intros H. inversion H; subst. now exists a, s1, tr1, tr2.
Qed.

Lemma broadcasts_app tr1 tr2 :
  broadcasts (tr1 ++ tr2) = (broadcasts tr1 + broadcasts tr2)%nat.
Proof. unfold broadcasts. now rewrite filter_app, length_app. Qed.

Lemma broadcasts_quiet tr : forallb not_broadcast tr = true -> broadcasts tr = 0%nat.
Proof.
  unfold broadcasts, not_broadcast.
  induction tr as [|e tr IH]; cbn; [reflexivity|].
  intros H. apply andb_prop in H as [He Htr].
  destruct (is_broadcast e); [discriminate | auto].
Qed.

Lemma emits_uploads (P : Event -> bool) (plan : list TexImage) :
  (forall t, P (EvTexImage2D t) = true) ->
  emits_only P (fold_right (fun t k => emit (EvTexImage2D t) ;; k) (ret tt) plan).
Proof.
  intros HP s. rewrite emit_uploads_run. cbn.
  induction plan as [|t plan IH]; cbn; [reflexivity|].
  now rewrite HP.
Qed.

(** The functions of caps configuration and of rendering, unfolded
    down to the primitive steps. *)
Ltac unfold_render :=
  unfold gst_eglglessink_configure_caps, check_configured,
    gst_eglglessink_wipe_eglglesctx, gst_eglglessink_reset_display_region,
    gst_eglglessink_render_and_display, upload_frame, update_display_region,
    gst_eglglessink_setup_vbo, draw_and_swap;
  unfold_rebuild.

Lemma configure_caps_quiet be c :
  emits_only not_broadcast (gst_eglglessink_configure_caps be c).
Proof. unfold_render. frames. Qed.

Lemma render_and_display_quiet lib be buf :
  emits_only not_broadcast (gst_eglglessink_render_and_display lib be buf).
Proof.
  unfold_render. frames.
  apply emits_uploads. reflexivity.
Qed.

Lemma quiet_run {A} (m : M A) s a s1 tr1 :
  emits_only not_broadcast m -> m s = Ok a s1 tr1 -> broadcasts tr1 = 0%nat.
Proof.
  intros Hq Hrun. apply broadcasts_quiet.
  specialize (Hq s). now rewrite Hrun in Hq.
Qed.

Lemma prepend_Ok_inv {A} tr1 (r : Res A) a s tr :
  prepend tr1 r = Ok a s tr ->
  exists tr2, r = Ok a s tr2 /\ tr = tr1 ++ tr2.
Proof.
  destruct r as [a' s' tr2|]; cbn; [|discriminate].
  intros H. inversion H; subst. now exists tr2.
Qed.

(** The end of an iteration: acknowledgment for a frame, release of
    the item, and the test of [last_flow]. *)
Lemma render_item_tail buf s continue s2 tr :
  (when (is_buffer buf) render_cond_broadcast ;;
   emit EvItemDestroy ;;
   flow <- get last_flow ;;
   if negb (GstFlowReturn_beq flow GST_FLOW_OK) then ret false else ret true) s
  = Ok continue s2 tr ->
  s2 = s
  /\ continue = GstFlowReturn_beq (last_flow s) GST_FLOW_OK
  /\ broadcasts tr = (if is_buffer buf then 1 else 0)%nat.
Proof.
  unfold render_cond_broadcast.
  destruct (is_buffer buf); msteps;
    destruct (GstFlowReturn_beq (last_flow s) GST_FLOW_OK); cbn;
    intros H; inversion H; subst; repeat split.
Qed.

(** An iteration that returns acknowledges a frame exactly once and a
    redraw sentinel not at all; it continues exactly when [last_flow]
    is GST_FLOW_OK. *)
Lemma render_item_ack lib be item s continue s2 tr :
  render_item lib be item s = Ok continue s2 tr ->
  broadcasts tr = (if is_buffer (object item) then 1 else 0)%nat
  /\ continue = GstFlowReturn_beq (last_flow s2) GST_FLOW_OK.
Proof.
  unfold render_item.
  destruct (configure_for_item be (object item) s)
    as [configured s1 tr1|why s1 tr1] eqn:Hconf;
    [rewrite (bind_prepend _ _ _ _ _ _ Hconf)
    | rewrite (bind_Stuck _ _ _ Hconf); discriminate].
  assert (Hq1 : broadcasts tr1 = 0%nat).
  { unfold configure_for_item in Hconf.
    destruct (object item) as [b|]; [|now inversion Hconf].
    rewrite bind_get in Hconf.
    destruct (negb (caps_ptr_eqb (buf_caps b) (configured_caps s)));
      [|now inversion Hconf].
    exact (quiet_run _ _ _ _ _ (configure_caps_quiet be (buf_caps b)) Hconf). }
  assert (Hbuf : configured = false -> is_buffer (object item) = true).
  { unfold configure_for_item in Hconf.
    destruct (object item) as [b|]; [reflexivity|].
    inversion Hconf. discriminate. }
  destruct configured; cbn [negb].
  - rewrite bind_get.
    intros H. apply prepend_Ok_inv in H as (tr2 & H & ->).
    rewrite broadcasts_app, Hq1. cbn [Nat.add].
    destruct (configured_caps s1) as [cc|].
    + rewrite bind_assoc in H.
      destruct (gst_eglglessink_render_and_display lib be (object item) s1)
        as [flow s3 tr3|why s3 tr3] eqn:Hrender;
        [rewrite (bind_prepend _ _ _ _ _ _ Hrender) in H
        | rewrite (bind_Stuck _ _ _ Hrender) in H; discriminate].
      rewrite bind_modify in H.
      apply prepend_Ok_inv in H as (tr4 & H & ->).
      apply render_item_tail in H as (-> & -> & Hb).
      rewrite broadcasts_app, Hb.
      rewrite (quiet_run _ _ _ _ _
                 (render_and_display_quiet lib be (object item)) Hrender).
      split; reflexivity.
    + rewrite bind_ret in H.
      apply render_item_tail in H as (-> & -> & Hb).
      split; [exact Hb | reflexivity].
  - unfold render_cond_broadcast. msteps.
    intros H. inversion H; subst. clear H.
    rewrite broadcasts_app, Hq1, (Hbuf eq_refl). split; reflexivity.
Qed.

Lemma keeps_uploads {T} (obs : GstEglGlesSink -> T) (plan : list TexImage) :
  keeps obs (fold_right (fun t k => emit (EvTexImage2D t) ;; k) (ret tt) plan).
Proof. intros s. now rewrite emit_uploads_run. Qed.

Lemma render_item_keeps_queue lib be item :
  keeps queue (render_item lib be item).
Proof.
  unfold render_item, configure_for_item, render_cond_broadcast.
  unfold_render. frames.
  all: apply keeps_uploads.
Qed.

Lemma render_thread_shutdown_keeps_queue be :
  keeps queue (render_thread_shutdown be ;; ret ThreadExited).
Proof.
  unfold render_thread_shutdown. unfold_render. frames.
Qed.

Lemma render_thread_shutdown_teardown be :
  emits_only is_teardown (render_thread_shutdown be ;; ret ThreadExited).
Proof.
  unfold render_thread_shutdown. unfold_render. frames.
Qed.

Lemma pop_item_not_flushing q item q' :
  gst_data_queue_pop q = PopItem item q' ->
  flushing q = false /\ flushing q' = false /\ items q = item :: items q'.
Proof.
  unfold gst_data_queue_pop.
  destruct (flushing q); [discriminate|].
  destruct (items q) as [|i rest] eqn:Hitems; [discriminate|].
  intros H. inversion H; subst. cbn. auto.
Qed.

Lemma render_loop_break lib world k fuel s item q' s2 tr2 :
  gst_data_queue_pop (queue s) = PopItem item q' ->
  render_item lib (world k) item (set_queue q' s) = Ok false s2 tr2 ->
  render_loop lib world k (S fuel) s
  = prepend (EvQueuePop item :: tr2)
      ((render_thread_shutdown (world k) ;; ret ThreadExited) s2).
Proof.
  intros Hpop Hitem. cbn [render_loop].
  rewrite bind_get, Hpop, bind_modify, bind_emit.
  rewrite (bind_prepend _ _ _ _ _ _ Hitem), prepend_prepend.
  reflexivity.
Qed.

(** C2 as stated does not hold.  After the render thread has left its
    loop on a failed buffer swap ([last_flow] is GST_FLOW_ERROR), the
    queue is not flushing and pushes are not rejected: a redraw
    sentinel is enqueued and [gst_eglglessink_queue_buffer] returns
    GST_FLOW_OK; a frame is enqueued and its producer waits.  And a
    redraw sentinel whose rendering fails ends the loop without any
    acknowledgment. *)
Lemma push_after_exit_is_not_rejected :
  result_value
    (render_loop GstVideo010.lib
       (fun _ => Scenario.with_swap_buffers false Scenario.nominal) 0 2
       Scenario.pushed) = Some ThreadExited
  /\ last_flow Scenario.broken = GST_FLOW_ERROR
  /\ flushing (queue Scenario.broken) = false
  /\ result_value (gst_eglglessink_queue_buffer None Scenario.broken)
     = Some (Returned GST_FLOW_OK)
  /\ result_value
       (gst_eglglessink_queue_buffer
          (Some (Scenario.frame 2 Scenario.rgba_640x480)) Scenario.broken)
     = Some WaitingForRender
  /\ (let r := (_ <- gst_eglglessink_queue_buffer None ;;
                render_loop GstVideo010.lib
                  (fun _ => Scenario.with_swap_buffers false Scenario.nominal) 0 2)
                 Scenario.playing in
      result_value r = Some ThreadExited
      /\ last_flow (result_sink r) = GST_FLOW_ERROR
      /\ broadcasts (result_trace r) = 0%nat).
Proof. vm_compute. repeat split; reflexivity. Qed.

(* ===================================================================== *)
(** * Further properties of the element's code *)

(** ** Runs that return *)

Lemma returns_ret {A} (a : A) Q s : Q a s -> returns (ret a) Q s.
Proof. intros H. now exists a, s, []. Qed.

Lemma returns_bind {A B} (m : M A) (f : A -> M B) Q s :
  returns m (fun a s1 => returns (f a) Q s1) s -> returns (bind m f) Q s.
Proof.
  intros (a & s1 & tr1 & Hm & b & s2 & tr2 & Hf & HQ).
  exists b, s2, (tr1 ++ tr2). split; [|exact HQ].
  rewrite (bind_Ok _ _ _ Hm). now rewrite Hf.
Qed.

Lemma returns_get {A} (g : GstEglGlesSink -> A) Q s :
  Q (g s) s -> returns (get g) Q s.
Proof. intros H. now exists (g s), s, []. Qed.

Lemma returns_modify g (Q : unit -> GstEglGlesSink -> Prop) s :
  Q tt (g s) -> returns (modify g) Q s.
Proof. intros H. now exists tt, (g s), []. Qed.

Lemma returns_emit e (Q : unit -> GstEglGlesSink -> Prop) s :
  Q tt s -> returns (emit e) Q s.
Proof. intros H. now exists tt, s, [e]. Qed.

Lemma returns_when b (m : M unit) (Q : unit -> GstEglGlesSink -> Prop) s :
  (b = true -> returns m Q s) -> (b = false -> Q tt s) -> returns (when b m) Q s.
Proof.
  destruct b; intros Ht Hf; [now apply Ht|].
  apply returns_ret. now apply Hf.
Qed.

Lemma returns_lock (Q : unit -> GstEglGlesSink -> Prop) s :
  object_lock s = false -> Q tt (set_object_lock true s) ->
  returns GST_OBJECT_LOCK Q s.
Proof.
  intros Hlock H. exists tt, (set_object_lock true s), [].
  unfold GST_OBJECT_LOCK. now rewrite Hlock.
Qed.

Lemma returns_unlock (Q : unit -> GstEglGlesSink -> Prop) s :
  Q tt (set_object_lock false s) -> returns GST_OBJECT_UNLOCK Q s.
Proof. apply returns_modify. Qed.

Lemma returns_conseq {A} (m : M A) (Q Q' : A -> GstEglGlesSink -> Prop) s :
  returns m Q s -> (forall a s', Q a s' -> Q' a s') -> returns m Q' s.
Proof.
  intros (a & s' & tr & Hm & HQ) Himp. exists a, s', tr. auto.
Qed.

Lemma returns_Ok {A} (m : M A) (Q : A -> GstEglGlesSink -> Prop) s a s' tr :
  m s = Ok a s' tr -> Q a s' -> returns m Q s.
Proof. intros Hm HQ. now exists a, s', tr. Qed.

Lemma returns_ext {A} (m m' : M A) (Q : A -> GstEglGlesSink -> Prop) s s' :
  m s = m' s' -> returns m' Q s' -> returns m Q s.
Proof. intros Heq (a & s2 & tr & Hm & HQ). exists a, s2, tr. now rewrite Heq. Qed.

(** What a run keeps holds of the sink it returns with. *)
Lemma returns_keeps {A T} (obs : GstEglGlesSink -> T) (m : M A)
  (Q : A -> GstEglGlesSink -> Prop) s :
  keeps obs m -> returns m Q s ->
  returns m (fun a s' => Q a s' /\ obs s' = obs s) s.
Proof.
  intros Hk (a & s' & tr & Hm & HQ). exists a, s', tr.
  split; [exact Hm|]. split; [exact HQ|].
  specialize (Hk s). now rewrite Hm in Hk.
Qed.

Lemma returns_preserves {A} (P : GstEglGlesSink -> Prop) (m : M A)
  (Q : A -> GstEglGlesSink -> Prop) s :
  preserves P m -> P s -> returns m Q s ->
  returns m (fun a s' => Q a s' /\ P s') s.
Proof.
  intros Hp HP (a & s' & tr & Hm & HQ). exists a, s', tr.
  split; [exact Hm|]. split; [exact HQ|].
  specialize (Hp s HP). now rewrite Hm in Hp.
Qed.

Ltac sink_simpl_in H :=
  cbn [object_lock video_width video_height par_n par_d format display_region
       sinkcaps current_caps configured_caps supported_fmts selected_fmt
       eglglesctx have_window using_own_window have_surface have_vbo
       have_texture egl_started thread last_flow queue create_window
       force_aspect_ratio
       window used_window display eglcontext surface egl_minor egl_major
       glslprogram0 glslprogram1 fragshader0 surface_width surface_height
       pixel_aspect_ratio n_textures buffer_preserved
       set_object_lock set_video_width set_video_height set_par_n set_par_d
       set_format set_display_region set_sinkcaps set_current_caps
       set_configured_caps set_supported_fmts set_selected_fmt set_eglglesctx
       set_have_window set_using_own_window set_have_surface set_have_vbo
       set_have_texture set_egl_started set_thread set_last_flow set_queue
       set_create_window set_force_aspect_ratio
       set_window set_used_window set_display set_eglcontext set_surface
       set_egl_minor set_egl_major set_glslprogram0 set_glslprogram1
       set_fragshader0 set_surface_width set_surface_height
       set_pixel_aspect_ratio set_n_textures set_buffer_preserved
       in_ctx negb andb orb prepend app result_sink result_trace result_value]
    in H.

(** An equation between tuples of observations, field by field. *)
Ltac split_eqs H :=
  repeat match type of H with
         | (_, _) = (_, _) =>
             let H' := fresh H in
             injection H as H H'
         end.

(** One step of a run that returns; the tests are split into cases. *)
Ltac returns_step :=
  lazymatch goal with
  | |- returns (bind _ _) _ _ => apply returns_bind
  | |- returns (ret _) _ _ => apply returns_ret
  | |- returns (get _) _ _ => apply returns_get
  | |- returns (modify _) _ _ => apply returns_modify
  | |- returns (emit _) _ _ => apply returns_emit
  | |- returns GST_OBJECT_UNLOCK _ _ => apply returns_unlock
  | |- returns (when _ _) _ _ => apply returns_when; intros ?
  | |- returns (if negb ?c then _ else _) _ _ => destruct c eqn:?; cbn [negb]
  | |- returns (if ?c then _ else _) _ _ => destruct c eqn:?
  | |- returns (match ?x with _ => _ end) _ _ => destruct x eqn:?
  end; cbv beta.

Ltac returns_steps := repeat (returns_step; sink_simpl).

(** Record equalities of sinks whose fields agree. *)
Lemma unlock_lock_id s :
  object_lock s = false -> set_object_lock false (set_object_lock true s) = s.
Proof. destruct s. cbn. now intros ->. Qed.

Lemma set_queue_id s : set_queue (queue s) s = s.
Proof. now destruct s. Qed.

(** ** Frame rules for properties that are never taken away *)

Section Preserves.

Context (P : GstEglGlesSink -> Prop).

Lemma preserves_ret {A} (a : A) : preserves P (ret a).
Proof. intros s H. exact H. Qed.

Lemma preserves_halt {A} why : preserves P (@halt A why).
Proof. intros s H. exact H. Qed.

Lemma preserves_get {A} (g : GstEglGlesSink -> A) : preserves P (get g).
Proof. intros s H. exact H. Qed.

Lemma preserves_emit e : preserves P (emit e).
Proof. intros s H. exact H. Qed.

Lemma preserves_modify g : (forall s, P s -> P (g s)) -> preserves P (modify g).
Proof. intros Hg s H. now apply Hg. Qed.

Lemma preserves_bind {A B} (m : M A) (f : A -> M B) :
  preserves P m -> (forall a, preserves P (f a)) -> preserves P (bind m f).
Proof.
  intros Hm Hf s H. rewrite result_sink_bind.
  specialize (Hm s H). destruct (m s) as [a s1 tr1|why s1 tr1]; cbn in Hm.
  - now apply Hf.
  - exact Hm.
Qed.

Lemma preserves_when b (m : M unit) : preserves P m -> preserves P (when b m).
Proof. intros H. destruct b; [exact H | apply preserves_ret]. Qed.

Lemma preserves_lock :
  (forall b s, P s -> P (set_object_lock b s)) -> preserves P GST_OBJECT_LOCK.
Proof.
  intros Hl s H. unfold GST_OBJECT_LOCK.
  destruct (object_lock s); cbn; [exact H | now apply Hl].
Qed.

Lemma preserves_unlock :
  (forall b s, P s -> P (set_object_lock b s)) -> preserves P GST_OBJECT_UNLOCK.
Proof. intros Hl. apply preserves_modify. intros s. apply Hl. Qed.

Lemma preserves_uploads (plan : list TexImage) :
  preserves P (fold_right (fun t k => emit (EvTexImage2D t) ;; k) (ret tt) plan).
Proof. intros s H. now rewrite emit_uploads_run. Qed.

End Preserves.

Lemma keeps_preserves {A T} (obs : GstEglGlesSink -> T) (Q : T -> Prop) (m : M A) :
  keeps obs m -> preserves (fun s => Q (obs s)) m.
Proof. intros Hk s H. now rewrite Hk. Qed.

Ltac preserves_step :=
  lazymatch goal with
  | |- preserves _ (bind _ _) => apply preserves_bind; [|intros ?]
  | |- preserves _ (ret _) => apply preserves_ret
  | |- preserves _ (halt _) => apply preserves_halt
  | |- preserves _ (get _) => apply preserves_get
  | |- preserves _ (emit _) => apply preserves_emit
  | |- preserves _ (when _ _) => apply preserves_when
  | |- preserves _ GST_OBJECT_LOCK => apply preserves_lock; intros ? ? ?; assumption
  | |- preserves _ GST_OBJECT_UNLOCK => apply preserves_unlock; intros ? ? ?; assumption
  | |- preserves _ (modify _) =>
      apply preserves_modify; intros ? ?; first [assumption | reflexivity]
  | |- preserves _ (fold_right _ _ _) => apply preserves_uploads
  | |- preserves _ (if ?c then _ else _) => destruct c
  | |- preserves _ (match ?x with _ => _ end) => destruct x
  | |- preserves _ (let (_, _) := ?x in _) => destruct x
  end.

Ltac preserves_all := repeat preserves_step.

(* ===================================================================== *)
(** ** Opening and closing the display *)

Lemma fill_sinkcaps be s :
  object_lock s = false ->
  sinkcaps (result_sink (gst_eglglessink_fill_supported_fbuffer_configs be s))
  = Some (advertised (probed_formats be)).
Proof.
  intros Hlock.
  unfold gst_eglglessink_fill_supported_fbuffer_configs, probed_formats, advertised.
  unfold bind at 1. rewrite probe_config_run.
  unfold bind at 1.
  destruct (probe_accepts be RGBA8888_fmt) eqn:E1;
  rewrite probe_config_run;
  destruct (probe_accepts be RGB888_fmt) eqn:E2;
  unfold bind at 1; rewrite probe_config_run;
  destruct (probe_accepts be RGB565_fmt) eqn:E3;
  run_step; rewrite Hlock; cbn; rewrite ?E1, ?E2, ?E3; cbn;
  rewrite ?app_nil_r; reflexivity.
Qed.

Lemma egl_init_run min_version be s :
  object_lock s = false ->
  exists ok s' tr,
    egl_init min_version be s = Ok ok s' tr
    /\ (ok = true <-> egl_usable min_version be)
    /\ object_lock s' = false
    /\ forallb is_probe tr = true
    /\ (ok = true ->
        egl_started s' = true
        /\ display (eglglesctx s') = eglGetDisplay be
        /\ supported_fmts s' = supported_fmts s ++ map Some (probed_formats be)
        /\ sinkcaps s' = Some (advertised (probed_formats be)))
    /\ (ok = false -> egl_started s' = egl_started s)
    /\ configured_caps s' = configured_caps s
    /\ thread s' = thread s
    /\ queue s' = queue s
    /\ last_flow s' = last_flow s.
Proof.
  intros Hlock. unfold egl_init, egl_usable.
  destruct (platform_wrapper_init be) eqn:Hplat; cbn [negb].
  2: { exists false, s, []. split; [reflexivity|].
       repeat split; try discriminate; auto. intros (H & _). discriminate. }
  unfold gst_eglglessink_init_egl_display, gst_eglglessink_init_egl_exts.
  rewrite bind_assoc, bind_modify.
  destruct (eglGetDisplay be =? 0) eqn:Hdpy.
  { rewrite bind_ret. cbn [negb]. do 3 eexists. split; [reflexivity|].
    sink_simpl. repeat split; try discriminate; auto.
    intros (_ & H & _). apply Z.eqb_eq in Hdpy. contradiction. }
  apply Z.eqb_neq in Hdpy.
  destruct (eglInitialize be) as [[major minor]|] eqn:Hinit.
  2: { rewrite bind_ret. cbn [negb]. do 3 eexists. split; [reflexivity|].
       sink_simpl. repeat split; try discriminate; auto.
       intros (_ & _ & (? & ? & H & _) & _). discriminate. }
  rewrite bind_assoc, bind_modify, bind_assoc, bind_modify.
  destruct (major <? min_version) eqn:Hver.
  { rewrite bind_ret. cbn [negb]. do 3 eexists. split; [reflexivity|].
    sink_simpl. repeat split; try discriminate; auto.
    intros (_ & _ & (? & ? & H & Hle) & _). inversion H; subst.
    apply Z.ltb_lt in Hver. lia. }
  apply Z.ltb_ge in Hver.
  rewrite bind_ret. cbn [negb]. rewrite bind_ret.
  set (s1 := in_ctx (set_egl_minor minor) _).
  assert (Hlock1 : object_lock s1 = false) by exact Hlock.
  destruct (fill_supported_fbuffer_configs_run be s1 Hlock1)
    as (s2 & Hfill & Hfmts & Hlock2 & Hs2 & Ht2 & Hw2 & Hc2).
  pose proof (fill_sinkcaps be s1 Hlock1) as Hcaps.
  rewrite Hfill in Hcaps. cbn [result_sink] in Hcaps.
  assert (Hkeep : configured_caps s2 = configured_caps s
                  /\ queue s2 = queue s /\ last_flow s2 = last_flow s).
  { assert (Hk : keeps (fun s => (configured_caps s, queue s, last_flow s))
                   (gst_eglglessink_fill_supported_fbuffer_configs be)).
    { unfold gst_eglglessink_fill_supported_fbuffer_configs, probe_config.
      frames. }
    specialize (Hk s1). rewrite Hfill in Hk. cbn [result_sink] in Hk.
    inversion Hk. auto. }
  destruct Hkeep as (Hcc & Hq & Hlf).
  rewrite (bind_prepend _ _ _ _ _ _ Hfill).
  destruct (probed_formats be) as [|fm rest] eqn:Hprobed.
  - cbn [List.length Z.of_nat Z.eqb]. unfold ret; cbn [prepend].
    do 3 eexists. split; [reflexivity|].
    repeat split; try discriminate; auto.
    intros (_ & _ & _ & H). now elim H.
  - replace (Z.of_nat (List.length (fm :: rest)) =? 0) with false
      by (symmetry; apply Z.eqb_neq; cbn [List.length]; lia).
    rewrite bind_modify. unfold ret; cbn [prepend].
    do 3 eexists. split; [reflexivity|]. sink_simpl.
    repeat split; try discriminate; auto.
    + exists major, minor. auto.
    + rewrite Hc2. reflexivity.
Qed.

Lemma probed_formats_accepts be :
  probed_formats be <> []
  <-> exists fm, In fm catalog /\ eglChooseConfig be (attribs fm) <> None.
Proof.
  unfold probed_formats, catalog, probe_accepts. cbn [filter]. split.
  - intros H.
    destruct (eglChooseConfig be (attribs RGBA8888_fmt)) eqn:E1;
      [exists RGBA8888_fmt; split; [cbn; auto | congruence]|].
    destruct (eglChooseConfig be (attribs RGB888_fmt)) eqn:E2;
      [exists RGB888_fmt; split; [cbn; auto | congruence]|].
    destruct (eglChooseConfig be (attribs RGB565_fmt)) eqn:E3;
      [exists RGB565_fmt; split; [cbn; auto | congruence]|].
    now elim H.
  - intros (fm & [<- | [<- | [<- | []]]] & Hfm);
      destruct (eglChooseConfig be (attribs RGBA8888_fmt)),
        (eglChooseConfig be (attribs RGB888_fmt)),
        (eglChooseConfig be (attribs RGB565_fmt));
      try discriminate; now elim Hfm.
Qed.

Lemma probed_formats_zero_configs be :
  (forall fm, In fm catalog -> eglChooseConfig be (attribs fm) = Some 0) ->
  probed_formats be = catalog
  /\ forall fm, In fm catalog -> satisfiable be fm = false.
Proof.
  intros H. split.
  - unfold probed_formats, catalog, probe_accepts. cbn [filter].
    rewrite (H RGBA8888_fmt), (H RGB888_fmt), (H RGB565_fmt);
      cbn; auto.
  - intros fm Hin. unfold satisfiable. now rewrite (H fm Hin).
Qed.

(** X1. [gst_eglglessink_open] returns TRUE exactly when the platform
    wrapper initialises, there is an EGL display, EGL initialises with a
    major version of at least GST_EGLGLESSINK_EGL_MIN_VERSION, and one
    of the three probes lets its entry into the catalog: its call of
    [eglChooseConfig] returns something other than EGL_FALSE.  The
    number of configurations a probe reports is not looked at: a
    backend that answers every probe with EGL_TRUE and zero
    configurations, reporting none of them satisfiable, gets all three
    entries.  On success the sink is marked started, holds the display,
    the catalog entries the probes let in and their caps; on failure
    [egl_started] is as before.  The only backend calls traced are the
    three configuration probes, and the object lock is free again when
    the call is over. *)
Theorem open_succeeds_iff_backend_usable
  (min_version : Z) (be : Backend) (s : GstEglGlesSink) :
  object_lock s = false ->
  exists ok s' tr,
    gst_eglglessink_open min_version be s = Ok ok s' tr
    /\ (ok = true <-> egl_usable min_version be)
    /\ (probed_formats be <> []
        <-> exists fm, In fm catalog /\ eglChooseConfig be (attribs fm) <> None)
    /\ ((forall fm, In fm catalog -> eglChooseConfig be (attribs fm) = Some 0) ->
        probed_formats be = catalog
        /\ forall fm, In fm catalog -> satisfiable be fm = false)
    /\ object_lock s' = false
    /\ forallb is_probe tr = true
    /\ (ok = true ->
        egl_started s' = true
        /\ display (eglglesctx s') = eglGetDisplay be
        /\ supported_fmts s' = supported_fmts s ++ map Some (probed_formats be)
        /\ sinkcaps s' = Some (advertised (probed_formats be)))
    /\ (ok = false -> egl_started s' = egl_started s).
Proof.
  intros Hlock.
  destruct (egl_init_run min_version be s Hlock)
    as (ok & s' & tr & Hrun & Hiff & Hlock' & Htr & Hok & Hfail & _).
  exists ok, s', tr.
  split; [|split; [exact Hiff|split; [apply probed_formats_accepts|
            split; [apply probed_formats_zero_configs|auto]]]].
  unfold gst_eglglessink_open. rewrite (bind_prepend _ _ _ _ _ _ Hrun).
  destruct ok; unfold ret; cbn [negb prepend]; now rewrite app_nil_r.
Qed.

Lemma open_succeeds_iff_backend_usable_witness :
  exists s' tr,
    gst_eglglessink_open 1 Scenario.nominal gst_eglglessink_init = Ok true s' tr
    /\ egl_started s' = true
    /\ supported_fmts s' = [Some RGBA8888_fmt; Some RGB888_fmt; Some RGB565_fmt].
Proof.
  destruct (open_succeeds_iff_backend_usable 1 Scenario.nominal
              gst_eglglessink_init eq_refl)
    as (ok & s' & tr & Hrun & Hiff & _ & _ & _ & _ & Hok & _).
  assert (Htrue : ok = true).
  { apply Hiff. repeat split; try discriminate.
    exists 1, 4. split; [reflexivity | discriminate]. }
  subst ok. destruct (Hok eq_refl) as (Hs & _ & Hf & _).
  exists s', tr. repeat split; assumption.
Defined.

(* ===================================================================== *)
(** ** The caps the sink advertises *)

Lemma existsb_orb {A} (f g : A -> bool) l :
  existsb (fun a => f a || g a) l = existsb f l || existsb g l.
Proof.
  induction l as [|a l IH]; cbn; [reflexivity|].
  rewrite IH. destruct (f a), (g a), (existsb f l); reflexivity.
Qed.

Lemma caps_can_intersect_app_r c a b :
  caps_can_intersect c (a ++ b) = caps_can_intersect c a || caps_can_intersect c b.
Proof.
  unfold caps_can_intersect. rewrite <- existsb_orb.
  induction c as [|st c IH]; cbn; [reflexivity|].
  now rewrite existsb_app, IH.
Qed.

Lemma caps_can_intersect_advertised c l :
  caps_can_intersect c (advertised l)
  = existsb (fun fm => caps_can_intersect c (caps fm)) l.
Proof.
  unfold advertised. induction l as [|fm l IH]; cbn [flat_map existsb].
  - unfold caps_can_intersect. induction c; cbn; auto.
  - now rewrite caps_can_intersect_app_r, IH.
Qed.

Lemma find_some_existsb {A} (f : A -> bool) l :
  existsb f l = true <-> exists a, find f l = Some a.
Proof.
  induction l as [|a l IH]; cbn.
  - split; [discriminate | intros (a & H); discriminate].
  - destruct (f a); cbn; [|exact IH].
    split; [now exists a | reflexivity].
Qed.

Lemma getcaps_run s :
  object_lock s = false ->
  gst_eglglessink_getcaps s
  = Ok (match sinkcaps s with
        | Some c => c
        | None => gst_pad_get_pad_template_caps
        end) s [].
Proof.
  intros Hlock. unfold gst_eglglessink_getcaps.
  rewrite bind_lock by exact Hlock. rewrite bind_get. sink_simpl.
  destruct (sinkcaps s); rewrite bind_ret, bind_unlock;
    unfold ret; now rewrite unlock_lock_id.
Qed.

Lemma advertised_in_template l st :
  incl l catalog -> In st (advertised l) -> In st gst_pad_get_pad_template_caps.
Proof.
  intros Hl Hin. unfold advertised in Hin.
  apply in_flat_map in Hin as (fm & Hfm & Hst).
  apply Hl in Hfm. cbn in Hfm.
  destruct Hfm as [<- | [<- | [<- | []]]]; cbn in Hst;
    repeat (destruct Hst as [<- | Hst]; [cbn; tauto|]); destruct Hst.
Qed.

Lemma probed_formats_incl be : incl (probed_formats be) catalog.
Proof. unfold probed_formats. intros fm H. now apply filter_In in H as [H _]. Qed.

(** X2. Before the display is opened [gst_eglglessink_getcaps] answers
    with the caps of the pad template.  Once [egl_init] has succeeded
    on a sink with an empty format list, it answers with the caps of
    the catalog entries, and these are exactly the requests caps
    configuration finds a catalog entry for: a request can intersect
    the advertised caps if and only if
    [gst_eglglessink_get_compat_format_from_caps] returns an entry.
    Every advertised structure is one of the pad template.  The query
    takes the object lock and releases it, and leaves the sink as it
    is. *)
Theorem getcaps_advertises_what_the_catalog_accepts
  (min_version : Z) (be : Backend) (s s' : GstEglGlesSink) (tr : list Event) :
  object_lock s = false ->
  supported_fmts s = [] ->
  egl_init min_version be s = Ok true s' tr ->
  (sinkcaps s = None ->
   gst_eglglessink_getcaps s = Ok gst_pad_get_pad_template_caps s [])
  /\ gst_eglglessink_getcaps s' = Ok (advertised (probed_formats be)) s' []
  /\ (forall c,
        caps_can_intersect c (advertised (probed_formats be)) = true
        <-> exists fm,
              gst_eglglessink_get_compat_format_from_caps s' (Some c) = Some fm)
  /\ (forall st,
        In st (advertised (probed_formats be)) ->
        In st gst_pad_get_pad_template_caps).
Proof.
  intros Hlock Hempty Hrun.
  destruct (egl_init_run min_version be s Hlock)
    as (ok & s1 & tr1 & Hrun1 & _ & Hlock' & _ & Hok & _).
  rewrite Hrun in Hrun1. inversion Hrun1; subst ok s1 tr1. clear Hrun1.
  destruct (Hok eq_refl) as (_ & _ & Hfmts & Hcaps).
  split; [|split; [|split]].
  - intros Hnone. rewrite (getcaps_run s Hlock), Hnone. reflexivity.
  - rewrite (getcaps_run s' Hlock'), Hcaps. reflexivity.
  - intros c. rewrite caps_can_intersect_advertised.
    unfold gst_eglglessink_get_compat_format_from_caps.
    rewrite Hfmts, Hempty. cbn [app].
    rewrite compat_format_traverse_find.
    apply find_some_existsb.
  - intros st. apply advertised_in_template, probed_formats_incl.
Qed.

Lemma getcaps_advertises_what_the_catalog_accepts_witness :
  exists s' tr,
    egl_init 1 Scenario.nominal gst_eglglessink_init = Ok true s' tr
    /\ gst_eglglessink_getcaps gst_eglglessink_init
       = Ok gst_pad_get_pad_template_caps gst_eglglessink_init []
    /\ gst_eglglessink_getcaps s'
       = Ok (advertised [RGBA8888_fmt; RGB888_fmt; RGB565_fmt]) s' []
    /\ exists fm,
         gst_eglglessink_get_compat_format_from_caps s'
           (Some (fixed_caps GST_VIDEO_FORMAT_I420 640 480)) = Some fm.
Proof.
  destruct (egl_init_run 1 Scenario.nominal gst_eglglessink_init eq_refl)
    as (ok & s' & tr & Hrun & Husable & _).
  assert (Htrue : ok = true).
  { apply Husable. repeat split; try discriminate.
    exists 1, 4. split; [reflexivity | discriminate]. }
  subst ok.
  destruct (getcaps_advertises_what_the_catalog_accepts 1 Scenario.nominal
              gst_eglglessink_init s' tr eq_refl eq_refl Hrun)
    as (Hbefore & Hafter & Hiff & _).
  exists s', tr. split; [exact Hrun|].
  split; [exact (Hbefore eq_refl)|]. split; [exact Hafter|].
  apply Hiff. reflexivity.
Defined.

(* ===================================================================== *)
(** ** Start and stop *)

Ltac mlock Hlock :=
  rewrite bind_lock by (sink_simpl; exact Hlock).

Lemma start_run be s :
  object_lock s = false ->
  exists ok s' tr,
    gst_eglglessink_start be s = Ok ok s' tr
    /\ (ok = true <->
        egl_started s = true
        /\ (have_window s = true \/ app_gives_window be = true
            \/ create_window s = true)
        /\ g_thread_create be = true)
    /\ object_lock s' = false
    /\ have_window s' = have_window s || (egl_started s && app_gives_window be)
    /\ (ok = true ->
        last_flow s' = GST_FLOW_OK
        /\ queue s' = gst_data_queue_set_flushing (queue s) false
        /\ thread s' = true
        /\ Rect.w (display_region s') = 0
        /\ Rect.h (display_region s') = 0)
    /\ (egl_started s = false
        \/ (have_window s = false /\ app_gives_window be = false
            /\ create_window s = false) ->
        queue s' = queue s /\ last_flow s' = last_flow s
        /\ thread s' = thread s /\ display_region s' = display_region s
        /\ existsb is_thread_create tr = false)
    /\ display (eglglesctx s') = display (eglglesctx s)
    /\ supported_fmts s' = supported_fmts s
    /\ configured_caps s' = configured_caps s
    /\ selected_fmt s' = selected_fmt s
    /\ egl_started s' = egl_started s
    /\ using_own_window s' = using_own_window s.
Proof.
  intros Hlock.
  unfold gst_eglglessink_start, gst_x_overlay_prepare_xwindow_id,
    gst_eglglessink_set_window_handle, gst_eglglessink_reset_display_region,
    app_gives_window.
  rewrite bind_get.
  destruct (egl_started s) eqn:Hstarted; cbn [negb andb].
  2: { exists false, s, []. split; [reflexivity|]. rewrite orb_false_r.
       intuition congruence. }
  rewrite bind_get, bind_when.
  destruct (have_window s) eqn:Hhave; cbn [negb orb].
  - rewrite bind_get, bind_get. sink_simpl. rewrite Hhave. cbn [negb andb].
    repeat first [ mstep | mlock Hlock ]; sink_simpl.
    destruct (g_thread_create be) eqn:Hth; cbn [negb];
      do 3 eexists; (split; [reflexivity|]); sink_simpl;
      intuition congruence.
  - rewrite bind_assoc, bind_emit.
    destruct (app_window_handle be) as [id|] eqn:Happ.
    + repeat first [ mstep | mlock Hlock ]; sink_simpl.
      destruct (id =? 0) eqn:Hid; cbn [negb andb].
      * destruct (create_window s) eqn:Hcreate; cbn [negb].
        -- repeat first [ mstep | mlock Hlock ]; sink_simpl.
           destruct (g_thread_create be) eqn:Hth; cbn [negb];
             do 3 eexists; (split; [reflexivity|]); sink_simpl;
             intuition congruence.
        -- do 3 eexists. split; [reflexivity|]. sink_simpl.
           intuition congruence.
      * repeat first [ mstep | mlock Hlock ]; sink_simpl.
        destruct (g_thread_create be) eqn:Hth; cbn [negb];
          do 3 eexists; (split; [reflexivity|]); sink_simpl;
          intuition congruence.
    + rewrite bind_ret. cbn [prepend].
      rewrite bind_get, bind_get. sink_simpl. rewrite Hhave. cbn [negb andb].
      destruct (create_window s) eqn:Hcreate; cbn [negb].
      * repeat first [ mstep | mlock Hlock ]; sink_simpl.
        destruct (g_thread_create be) eqn:Hth; cbn [negb];
          do 3 eexists; (split; [reflexivity|]); sink_simpl;
          intuition congruence.
      * do 3 eexists. split; [reflexivity|]. sink_simpl.
        intuition congruence.
Qed.

(** The teardown, with all it clears and all it leaves alone. *)
Lemma wipe_eglglesctx_torn_down be s :
  object_lock s = false ->
  display (eglglesctx s) <> 0 ->
  exists s',
    gst_eglglessink_wipe_eglglesctx be s = Ok tt s' (teardown_trace s)
    /\ torn_down s'
    /\ object_lock s' = false
    /\ display (eglglesctx s') = display (eglglesctx s)
    /\ used_window (eglglesctx s') = used_window (eglglesctx s)
    /\ using_own_window s' = using_own_window s
    /\ have_window s' = have_window s
    /\ current_caps s' = current_caps s
    /\ configured_caps s' = configured_caps s
    /\ supported_fmts s' = supported_fmts s
    /\ selected_fmt s' = selected_fmt s
    /\ format s' = format s
    /\ last_flow s' = last_flow s
    /\ queue s' = queue s
    /\ thread s' = thread s
    /\ egl_started s' = egl_started s.
Proof.
  intros Hlock Hdpy.
  unfold gst_eglglessink_wipe_eglglesctx, teardown_trace, torn_down.
  mstep. sink_simpl.
  repeat (first [ mstep | mcase ]; sink_simpl;
          rewrite ?make_current_unbind_run, ?reset_display_region_run
            by (first [exact Hlock | exact Hdpy]);
          sink_simpl).
  all: eexists; (split; [reflexivity|]); sink_simpl;
    repeat split; try reflexivity; try assumption;
    repeat match goal with
           | H : negb _ = false |- _ => apply negb_false_iff in H
           | H : (_ =? _) = true |- _ => apply Z.eqb_eq in H
           end; assumption.
Qed.

(** What follows the loop of the render thread. *)
Lemma render_thread_shutdown_run be s :
  object_lock s = false ->
  display (eglglesctx s) <> 0 ->
  exists s',
    render_thread_shutdown be s = Ok tt s' (teardown_trace s)
    /\ torn_down s'
    /\ configured_caps s' = None
    /\ last_flow s'
       = (if GstFlowReturn_beq (last_flow s) GST_FLOW_OK
          then GST_FLOW_WRONG_STATE else last_flow s)
    /\ object_lock s' = false
    /\ display (eglglesctx s') = display (eglglesctx s)
    /\ used_window (eglglesctx s') = used_window (eglglesctx s)
    /\ using_own_window s' = using_own_window s
    /\ have_window s' = have_window s
    /\ current_caps s' = current_caps s
    /\ supported_fmts s' = supported_fmts s
    /\ queue s' = queue s
    /\ thread s' = thread s
    /\ egl_started s' = egl_started s.
Proof.
  intros Hlock Hdpy. unfold render_thread_shutdown.
  rewrite bind_get, bind_when.
  set (s1 := if GstFlowReturn_beq (last_flow s) GST_FLOW_OK
             then set_last_flow GST_FLOW_WRONG_STATE s else s).
  assert (Hstep :
    forall (B : Type) (f : unit -> M B),
      (if GstFlowReturn_beq (last_flow s) GST_FLOW_OK
       then bind (modify (set_last_flow GST_FLOW_WRONG_STATE)) f s
       else f tt s) = f tt s1).
  { intros B f. subst s1.
    destruct (GstFlowReturn_beq (last_flow s) GST_FLOW_OK);
      [apply bind_modify | reflexivity]. }
  rewrite Hstep.
  assert (H1 : object_lock s1 = false /\ eglglesctx s1 = eglglesctx s
               /\ using_own_window s1 = using_own_window s
               /\ have_window s1 = have_window s
               /\ current_caps s1 = current_caps s
               /\ supported_fmts s1 = supported_fmts s
               /\ queue s1 = queue s /\ thread s1 = thread s
               /\ egl_started s1 = egl_started s
               /\ last_flow s1
                  = (if GstFlowReturn_beq (last_flow s) GST_FLOW_OK
                     then GST_FLOW_WRONG_STATE else last_flow s)).
  { subst s1. destruct (GstFlowReturn_beq (last_flow s) GST_FLOW_OK);
      sink_simpl; repeat split; assumption. }
  destruct H1 as (Hlock1 & Hctx1 & Hown1 & Hwin1 & Hcur1 & Hfmts1 & Hq1 & Hth1
                  & Hst1 & Hflow1).
  assert (Hdpy1 : display (eglglesctx s1) <> 0) by (rewrite Hctx1; exact Hdpy).
  destruct (wipe_eglglesctx_torn_down be s1 Hlock1 Hdpy1)
    as (sw & Hwipe & Htorn & Hlockw & Hdpyw & Husedw & Hownw & Hwinw & Hcurw
        & _ & Hfmtsw & _ & _ & Hfloww & Hqw & Hthw & Hstw).
  rewrite (bind_prepend _ _ _ _ _ _ Hwipe).
  rewrite (teardown_trace_ext s s1 Hctx1).
  unfold modify. cbn [prepend]. rewrite app_nil_r.
  eexists. split; [reflexivity|]. unfold torn_down in *. sink_simpl.
  rewrite <- Hctx1.
  repeat split; try tauto; congruence.
Qed.

(** The part of [gst_eglglessink_stop] that follows the join. *)
Lemma stop_tail_run s :
  (modify (set_last_flow GST_FLOW_WRONG_STATE) ;;
   own <- get using_own_window ;;
   when own
     (c <- get eglglesctx ;;
      emit (EvDestroyNativeWindow (used_window c)) ;;
      modify (in_ctx (set_used_window 0)) ;;
      modify (set_have_window false)) ;;
   modify (in_ctx (set_used_window 0)) ;;
   modify (set_current_caps None) ;; ret true) s
  = Ok true
      (set_current_caps None
         (in_ctx (set_used_window 0)
            (set_have_window (if using_own_window s then false else have_window s)
               (set_last_flow GST_FLOW_WRONG_STATE s))))
      (if using_own_window s
       then [EvDestroyNativeWindow (used_window (eglglesctx s))] else []).
Proof.
  msteps. destruct (using_own_window s); msteps; unfold ret;
    destruct s as [? ? ? ? ? ? ? ? ? ? ? ? c]; destruct c; reflexivity.
Qed.

Lemma stop_join_run {B} lib be s1 s2 tr (tl : unit -> M B) :
  flushing (queue s1) = true ->
  render_thread_shutdown be s1 = Ok tt s2 tr ->
  bind (_ <- render_loop lib (fun _ => be) 0 1 ;; ret tt) tl s1
  = prepend tr (tl tt s2).
Proof.
  intros Hflush Hshut. cbn [render_loop].
  rewrite !bind_assoc, bind_get. unfold gst_data_queue_pop. rewrite Hflush.
  rewrite !bind_assoc, (bind_prepend _ _ _ _ _ _ Hshut).
  now rewrite !bind_ret.
Qed.

Lemma stop_run lib be status s :
  object_lock s = false ->
  display (eglglesctx s) <> 0 ->
  exists s' tr,
    gst_eglglessink_stop lib be status s = Ok true s' tr
    /\ tr = [EvSetFlushing true; EvRenderLock; EvRenderCondBroadcast;
             EvRenderUnlock]
            ++ (if thread s then
                  EvThreadJoin
                  :: match status with
                     | ThreadExited => []
                     | _ => teardown_trace s
                     end
                else [])
            ++ (if using_own_window s
                then [EvDestroyNativeWindow (used_window (eglglesctx s))] else [])
    /\ queue s' = gst_data_queue_set_flushing (queue s) true
    /\ thread s' = false
    /\ last_flow s' = GST_FLOW_WRONG_STATE
    /\ current_caps s' = None
    /\ used_window (eglglesctx s') = 0
    /\ have_window s' = (if using_own_window s then false else have_window s)
    /\ using_own_window s' = using_own_window s
    /\ object_lock s' = false
    /\ display (eglglesctx s') = display (eglglesctx s)
    /\ supported_fmts s' = supported_fmts s
    /\ egl_started s' = egl_started s
    /\ (thread s = true -> status <> ThreadExited ->
        torn_down s' /\ configured_caps s' = None).
Proof.
  intros Hlock Hdpy.
  unfold gst_eglglessink_stop, render_cond_broadcast.
  rewrite bind_get, bind_emit, bind_modify.
  rewrite bind_assoc, bind_emit, bind_assoc, bind_emit, bind_emit.
  rewrite bind_get, bind_when. sink_simpl.
  set (s1 := set_queue (gst_data_queue_set_flushing (queue s) true) s).
  destruct (thread s) eqn:Hth.
  - rewrite bind_assoc, bind_emit, bind_assoc.
    assert (Hexited :
      exists s2,
        (forall tl : unit -> M bool,
           bind (match status with
                 | ThreadExited => ret tt
                 | _ => _ <- render_loop lib (fun _ => be) 0 1 ;; ret tt
                 end) tl s1
           = prepend (match status with
                      | ThreadExited => []
                      | _ => teardown_trace s
                      end) (tl tt s2))
        /\ object_lock s2 = false
        /\ display (eglglesctx s2) = display (eglglesctx s)
        /\ used_window (eglglesctx s2) = used_window (eglglesctx s)
        /\ using_own_window s2 = using_own_window s
        /\ have_window s2 = have_window s
        /\ supported_fmts s2 = supported_fmts s
        /\ queue s2 = queue s1
        /\ egl_started s2 = egl_started s
        /\ (status <> ThreadExited -> torn_down s2 /\ configured_caps s2 = None)).
    { destruct (render_thread_shutdown_run be s1 Hlock Hdpy)
        as (s2 & Hshut & Htorn & Hcc & _ & Hlock2 & Hdpy2 & Hused2 & Hown2
            & Hwin2 & _ & Hfmts2 & Hq2 & _ & Hst2).
      change (teardown_trace s1) with (teardown_trace s) in Hshut.
      destruct status.
      - exists s2. split; [|repeat split; auto; apply Htorn].
        intros tl. now apply stop_join_run.
      - exists s1. split; [|repeat split; auto; congruence].
        intros tl. rewrite bind_ret. now rewrite prepend_nil.
      - exists s2. split; [|repeat split; auto; apply Htorn].
        intros tl. now apply stop_join_run. }
    destruct Hexited as (s2 & Hrun & Hlock2 & Hdpy2 & Hused2 & Hown2 & Hwin2
                         & Hfmts2 & Hq2 & Hst2 & Htorn).
    rewrite Hrun, bind_modify, stop_tail_run.
    sink_simpl. rewrite Hown2, Hused2, Hwin2.
    do 2 eexists. split; [reflexivity|]. sink_simpl.
    split; [reflexivity|].
    unfold torn_down in *. sink_simpl.
    repeat split; try congruence; tauto.
  - rewrite stop_tail_run. sink_simpl.
    do 2 eexists. split; [reflexivity|]. sink_simpl.
    repeat split; try congruence; subst s1; sink_simpl; assumption.
Qed.

(** X3. [gst_eglglessink_start] returns TRUE exactly when EGL was
    initialised, a window is at hand (the sink has one, the application
    hands one over when asked, or the sink may create its own) and the
    render thread could be created.  A successful start clears the
    size of the display region, sets [last_flow] to GST_FLOW_OK, takes
    the queue out of flushing and records the thread.  A start that
    fails for want of initialisation or of a window creates no thread
    and leaves queue, [last_flow] and display region alone. *)
Theorem start_succeeds_iff_started_window_and_thread
  (be : Backend) (s : GstEglGlesSink) :
  object_lock s = false ->
  exists ok s' tr,
    gst_eglglessink_start be s = Ok ok s' tr
    /\ (ok = true <->
        egl_started s = true
        /\ (have_window s = true \/ app_gives_window be = true
            \/ create_window s = true)
        /\ g_thread_create be = true)
    /\ object_lock s' = false
    /\ (ok = true ->
        last_flow s' = GST_FLOW_OK
        /\ queue s' = gst_data_queue_set_flushing (queue s) false
        /\ thread s' = true
        /\ Rect.w (display_region s') = 0
        /\ Rect.h (display_region s') = 0)
    /\ (egl_started s = false
        \/ (have_window s = false /\ app_gives_window be = false
            /\ create_window s = false) ->
        queue s' = queue s /\ last_flow s' = last_flow s
        /\ thread s' = thread s /\ display_region s' = display_region s
        /\ existsb is_thread_create tr = false).
Proof.
  intros Hlock.
  destruct (start_run be s Hlock)
    as (ok & s' & tr & Hrun & Hiff & Hlock' & _ & Hok & Hfail & _).
  exists ok, s', tr. auto.
Qed.

Lemma start_succeeds_iff_started_window_and_thread_witness :
  exists s' tr,
    gst_eglglessink_start Scenario.nominal
      (set_egl_started true gst_eglglessink_init) = Ok true s' tr
    /\ last_flow s' = GST_FLOW_OK
    /\ thread s' = true.
Proof.
  destruct (start_succeeds_iff_started_window_and_thread Scenario.nominal
              (set_egl_started true gst_eglglessink_init) eq_refl)
    as (ok & s' & tr & Hrun & Hiff & _ & Hok & _).
  assert (Htrue : ok = true).
  { apply Hiff. split; [reflexivity|]. split; [|reflexivity].
    right. right. reflexivity. }
  subst ok. destruct (Hok eq_refl) as (Hflow & _ & Hth & _).
  exists s', tr. auto.
Defined.

(** X4. The [create-window] property is read back as it was written,
    writing it leaves [force-aspect-ratio] alone, and an id other than
    the two of the element changes and reports nothing.  On an
    initialised sink without a window, facing an application that hands
    none over, the property decides the start: with TRUE the sink
    starts (it will create its own window), with FALSE the start fails
    and no thread is created. *)
Theorem create_window_property_decides_start
  (be : Backend) (value : bool) (s : GstEglGlesSink) :
  object_lock s = false ->
  egl_started s = true ->
  have_window s = false ->
  app_gives_window be = false ->
  g_thread_create be = true ->
  exists s1,
    gst_eglglessink_set_property PROP_CREATE_WINDOW value s = Ok tt s1 []
    /\ gst_eglglessink_get_property PROP_CREATE_WINDOW s1 = Ok (Some value) s1 []
    /\ gst_eglglessink_get_property PROP_FORCE_ASPECT_RATIO s1
       = Ok (Some (force_aspect_ratio s)) s1 []
    /\ (forall id v,
          id <> PROP_CREATE_WINDOW -> id <> PROP_FORCE_ASPECT_RATIO ->
          gst_eglglessink_set_property id v s1 = Ok tt s1 []
          /\ gst_eglglessink_get_property id s1 = Ok None s1 [])
    /\ exists s2 tr,
         gst_eglglessink_start be s1 = Ok value s2 tr
         /\ (value = true -> thread s2 = true)
         /\ (value = false ->
             existsb is_thread_create tr = false
             /\ thread s2 = thread s /\ queue s2 = queue s).
Proof.
  intros Hlock Hstarted Hwin Happ Hth.
  exists (set_create_window value s).
  split; [reflexivity|]. split; [reflexivity|]. split; [reflexivity|].
  split.
  { intros id v H1 H2.
    unfold gst_eglglessink_set_property, gst_eglglessink_get_property.
    apply Z.eqb_neq in H1, H2. rewrite H1, H2. split; reflexivity. }
  destruct (start_run be (set_create_window value s) Hlock)
    as (ok & s2 & tr & Hrun & Hiff & _ & _ & Hok & Hfail & _).
  sink_simpl_in Hiff. sink_simpl_in Hfail.
  rewrite Hstarted, Hwin, Happ, Hth in Hiff.
  rewrite Hwin, Happ in Hfail.
  assert (Hval : ok = value).
  { destruct ok, value; try reflexivity.
    - destruct Hiff as [Hiff _]. specialize (Hiff eq_refl).
      destruct Hiff as (_ & [H | [H | H]] & _); discriminate.
    - destruct Hiff as [_ Hiff]. apply Hiff.
      repeat split. right. right. reflexivity. }
  subst ok. exists s2, tr. split; [exact Hrun|]. split.
  - intros ->. now destruct (Hok eq_refl) as (_ & _ & H & _).
  - intros ->.
    destruct Hfail as (Hq & _ & Ht & _ & Hev); [right; repeat split|].
    repeat split; assumption.
Qed.

Lemma create_window_property_decides_start_witness :
  exists s1 s2 tr,
    gst_eglglessink_set_property PROP_CREATE_WINDOW false
      (set_egl_started true gst_eglglessink_init) = Ok tt s1 []
    /\ gst_eglglessink_start Scenario.nominal s1 = Ok false s2 tr
    /\ existsb is_thread_create tr = false.
Proof.
  destruct (create_window_property_decides_start Scenario.nominal false
              (set_egl_started true gst_eglglessink_init)
              eq_refl eq_refl eq_refl eq_refl eq_refl)
    as (s1 & Hset & _ & _ & _ & s2 & tr & Hrun & _ & Hfalse).
  destruct (Hfalse eq_refl) as (Hev & _).
  exists s1, s2, tr. auto.
Defined.

(** X5. [gst_eglglessink_stop] on a sink whose render thread has not
    left its loop: the queue is set flushing (its items stay), the
    condition is broadcast under the render lock, the thread is joined
    after it has run the teardown, and the sink's own window, if it has
    created one, is destroyed.  The call returns TRUE with every
    EGL/GLES resource released, no configured caps, no current caps, no
    thread, no window in use, and [last_flow] GST_FLOW_WRONG_STATE
    whatever it was; a window handed over by the application stays
    known to the sink. *)
Theorem stop_joins_thread_and_releases_resources
  (lib : GstVideoLib) (be : Backend) (status : ThreadStatus) (s : GstEglGlesSink) :
  object_lock s = false ->
  display (eglglesctx s) <> 0 ->
  thread s = true ->
  status <> ThreadExited ->
  exists s',
    gst_eglglessink_stop lib be status s
    = Ok true s'
        ([EvSetFlushing true; EvRenderLock; EvRenderCondBroadcast;
          EvRenderUnlock; EvThreadJoin]
         ++ teardown_trace s
         ++ (if using_own_window s
             then [EvDestroyNativeWindow (used_window (eglglesctx s))] else []))
    /\ flushing (queue s') = true
    /\ items (queue s') = items (queue s)
    /\ thread s' = false
    /\ last_flow s' = GST_FLOW_WRONG_STATE
    /\ current_caps s' = None
    /\ configured_caps s' = None
    /\ torn_down s'
    /\ used_window (eglglesctx s') = 0
    /\ have_window s' = (if using_own_window s then false else have_window s)
    /\ object_lock s' = false.
Proof.
  intros Hlock Hdpy Hth Hstatus.
  destruct (stop_run lib be status s Hlock Hdpy)
    as (s' & tr & Hrun & Htr & Hq & Hth' & Hflow & Hcur & Hused & Hwin & _
        & Hlock' & _ & _ & _ & Htorn).
  destruct (Htorn Hth Hstatus) as (Ht & Hcc).
  exists s'. split.
  - rewrite Hrun, Htr, Hth. f_equal.
    destruct status; [reflexivity | now elim Hstatus | reflexivity].
  - rewrite Hq. repeat split; auto; apply Ht.
Qed.

Lemma stop_joins_thread_and_releases_resources_witness :
  exists s',
    result_value (gst_eglglessink_stop GstVideo010.lib Scenario.nominal
                    ThreadWaiting Scenario.playing) = Some true
    /\ result_sink (gst_eglglessink_stop GstVideo010.lib Scenario.nominal
                      ThreadWaiting Scenario.playing) = s'
    /\ torn_down s' /\ have_window s' = false /\ thread s' = false.
Proof.
  assert (H1 : object_lock Scenario.playing = false) by (vm_compute; reflexivity).
  assert (H2 : display (eglglesctx Scenario.playing) <> 0)
    by (vm_compute; discriminate).
  assert (H3 : thread Scenario.playing = true) by (vm_compute; reflexivity).
  assert (H4 : using_own_window Scenario.playing = true)
    by (vm_compute; reflexivity).
  destruct (stop_joins_thread_and_releases_resources GstVideo010.lib
              Scenario.nominal ThreadWaiting Scenario.playing H1 H2 H3
              ltac:(discriminate))
    as (s' & Hrun & _ & _ & Hth & _ & _ & _ & Htorn & _ & Hwin & _).
  exists s'. rewrite Hrun. cbn [result_value result_sink].
  rewrite H4 in Hwin. auto.
Defined.

(** X6. Whatever the state of the render thread, a stop leaves the
    queue flushing: until the next start every push is refused, a frame
    and a redraw alike, with GST_FLOW_WRONG_STATE and without a wait,
    and the sink is not changed by the attempt.  A start that succeeds
    opens the queue again, with the items it held: a push is no longer
    refused.  With room in the queue a frame is enqueued and waited
    for, a redraw sentinel enqueued and answered with GST_FLOW_OK;
    behind a frame left in the queue the push waits for room, and goes
    on in the same way once the queue has room. *)
Theorem stop_closes_queue_until_next_start
  (lib : GstVideoLib) (be be' : Backend) (status : ThreadStatus)
  (buf : option GstBuffer) (s : GstEglGlesSink) :
  object_lock s = false ->
  display (eglglesctx s) <> 0 ->
  exists s1 tr1,
    gst_eglglessink_stop lib be status s = Ok true s1 tr1
    /\ (exists tr,
           gst_eglglessink_queue_buffer buf s1
           = Ok (Returned GST_FLOW_WRONG_STATE) s1 tr
           /\ existsb is_cond_wait tr = false)
    /\ (forall s2 tr2,
          gst_eglglessink_start be' s1 = Ok true s2 tr2 ->
          flushing (queue s2) = false
          /\ items (queue s2) = items (queue s)
          /\ (gst_data_queue_is_full (queue s2) = false ->
              gst_eglglessink_queue_buffer buf s2
              = Ok (if is_buffer buf then WaitingForRender
                    else Returned GST_FLOW_OK)
                  (set_queue (enqueue (queue_item buf) (queue s2)) s2)
                  (if is_buffer buf
                   then [EvRenderLock; EvQueuePush (queue_item buf);
                         EvRenderCondWait]
                   else [EvQueuePush (queue_item buf)]))
          /\ (gst_data_queue_is_full (queue s2) = true ->
              gst_eglglessink_queue_buffer buf s2
              = Ok WaitingForRoom s2
                  ((if is_buffer buf then [EvRenderLock] else [])
                   ++ [EvQueuePush (queue_item buf)]))
          /\ (forall s3,
                flushing (queue s3) = false ->
                gst_data_queue_is_full (queue s3) = false ->
                queue_buffer_push buf s3
                = Ok (if is_buffer buf then WaitingForRender
                      else Returned GST_FLOW_OK)
                    (set_queue (enqueue (queue_item buf) (queue s3)) s3)
                    (if is_buffer buf then [EvRenderCondWait] else []))).
Proof.
  intros Hlock Hdpy.
  destruct (stop_run lib be status s Hlock Hdpy)
    as (s1 & tr1 & Hrun & _ & Hq & _ & _ & _ & _ & _ & _ & Hlock1 & _).
  exists s1, tr1. split; [exact Hrun|]. split.
  - assert (Hflush : flushing (queue s1) = true) by now rewrite Hq.
    rewrite (queue_buffer_flushing buf s1 Hflush).
    eexists. split; [reflexivity|]. destruct (is_buffer buf); reflexivity.
  - intros s2 tr2 Hstart.
    destruct (start_run be' s1 Hlock1)
      as (ok & s2' & tr2' & Hrun2 & _ & _ & _ & Hok & _).
    rewrite Hstart in Hrun2. inversion Hrun2; subst ok s2' tr2'.
    destruct (Hok eq_refl) as (_ & Hq2 & _).
    assert (Hfl2 : flushing (queue s2) = false) by now rewrite Hq2.
    split; [exact Hfl2|].
    split; [now rewrite Hq2, Hq|].
    split; [|split].
    + intros Hfull. exact (queue_buffer_accepted buf s2 Hfl2 Hfull).
    + intros Hfull. exact (queue_buffer_full buf s2 Hfl2 Hfull).
    + intros s3 Hfl3 Hfull3. exact (queue_buffer_push_accepted buf s3 Hfl3 Hfull3).
Qed.

Lemma stop_closes_queue_until_next_start_witness :
  exists s1 tr1,
    gst_eglglessink_stop GstVideo010.lib Scenario.nominal ThreadWaiting
      (set_egl_started true
         (in_ctx (set_display 1) gst_eglglessink_init)) = Ok true s1 tr1
    /\ exists tr,
         gst_eglglessink_queue_buffer None s1
         = Ok (Returned GST_FLOW_WRONG_STATE) s1 tr.
Proof.
  destruct (stop_closes_queue_until_next_start GstVideo010.lib Scenario.nominal
              Scenario.nominal ThreadWaiting None
              (set_egl_started true (in_ctx (set_display 1) gst_eglglessink_init))
              eq_refl ltac:(discriminate))
    as (s1 & tr1 & Hrun & (tr & Hpush & _) & _).
  exists s1, tr1. split; [exact Hrun|]. now exists tr.
Defined.

(* ===================================================================== *)
(** ** Teardown and close *)

Lemma wipe_torn_down_fixed be s :
  object_lock s = false ->
  display (eglglesctx s) <> 0 ->
  torn_down s ->
  gst_eglglessink_wipe_eglglesctx be s = Ok tt s [EvWipeEglGlesCtx].
Proof.
  intros Hlock Hdpy (Hsurf & Hctx & Hp0 & Hp1 & Htex & Hvbo & Hw & Hh).
  unfold gst_eglglessink_wipe_eglglesctx.
  rewrite bind_emit, bind_get, Hvbo, bind_when.
  rewrite bind_get, Htex, bind_when.
  rewrite bind_get, Hp0, bind_when. cbn [Z.eqb negb].
  rewrite bind_get, Hp1, bind_when. cbn [Z.eqb negb].
  rewrite make_current_unbind_run by exact Hdpy.
  rewrite bind_get, Hsurf, bind_when. cbn [Z.eqb negb].
  rewrite bind_get, Hctx, bind_when. cbn [Z.eqb negb].
  rewrite reset_display_region_run by exact Hlock.
  cbn [prepend app]. f_equal.
  destruct s as [? ? ? ? ? ? r]. destruct r. cbn in *. now subst.
Qed.

(** X7. The teardown of the EGL/GLES context state releases what is
    there and nothing else: the surface is destroyed when there is one,
    the context when there is one, the flags and handles are cleared
    and the size of the display region is reset.  Run again on the
    sink it leaves, it destroys nothing and changes nothing: its only
    call is [glUseProgram (0)]. *)
Theorem teardown_is_idempotent (be be' : Backend) (s : GstEglGlesSink) :
  object_lock s = false ->
  display (eglglesctx s) <> 0 ->
  exists s1,
    gst_eglglessink_wipe_eglglesctx be s
    = Ok tt s1
        (EvWipeEglGlesCtx
           :: (if surface (eglglesctx s) =? 0 then [] else [EvDestroySurface])
           ++ (if eglcontext (eglglesctx s) =? 0 then [] else [EvDestroyContext]))
    /\ torn_down s1
    /\ configured_caps s1 = configured_caps s
    /\ selected_fmt s1 = selected_fmt s
    /\ have_window s1 = have_window s
    /\ gst_eglglessink_wipe_eglglesctx be' s1 = Ok tt s1 [EvWipeEglGlesCtx].
Proof.
  intros Hlock Hdpy.
  destruct (wipe_eglglesctx_torn_down be s Hlock Hdpy)
    as (s1 & Hrun & Htorn & Hlock1 & Hdpy1 & _ & _ & Hwin & _ & Hcc & _ & Hsel & _).
  exists s1. split; [exact Hrun|]. repeat split; try assumption; try apply Htorn.
  apply wipe_torn_down_fixed; [exact Hlock1 | now rewrite Hdpy1 | exact Htorn].
Qed.

Lemma teardown_is_idempotent_witness :
  exists s1,
    gst_eglglessink_wipe_eglglesctx Scenario.nominal Scenario.playing
    = Ok tt s1 [EvWipeEglGlesCtx; EvDestroySurface; EvDestroyContext]
    /\ gst_eglglessink_wipe_eglglesctx Scenario.nominal s1
       = Ok tt s1 [EvWipeEglGlesCtx].
Proof.
  assert (H1 : object_lock Scenario.playing = false) by (vm_compute; reflexivity).
  assert (H2 : display (eglglesctx Scenario.playing) <> 0)
    by (vm_compute; discriminate).
  destruct (teardown_is_idempotent Scenario.nominal Scenario.nominal
              Scenario.playing H1 H2)
    as (s1 & Hrun & _ & _ & _ & _ & Hagain).
  exists s1. split; [|exact Hagain].
  rewrite Hrun. f_equal.
Defined.

Lemma close_run s :
  exists s',
    gst_eglglessink_close s
    = Ok true s'
        (if display (eglglesctx s) =? 0 then [] else [EvTerminateDisplay])
    /\ display (eglglesctx s') = 0
    /\ supported_fmts s' = []
    /\ sinkcaps s' = None
    /\ selected_fmt s' = None
    /\ egl_started s' = false
    /\ object_lock s' = object_lock s
    /\ thread s' = thread s
    /\ queue s' = queue s
    /\ last_flow s' = last_flow s
    /\ configured_caps s' = configured_caps s
    /\ have_window s' = have_window s
    /\ create_window s' = create_window s
    /\ gst_eglglessink_close s' = Ok true s' [].
Proof.
  assert (Hfixed : forall s1,
            display (eglglesctx s1) = 0 -> supported_fmts s1 = [] ->
            sinkcaps s1 = None -> selected_fmt s1 = None ->
            egl_started s1 = false ->
            gst_eglglessink_close s1 = Ok true s1 []).
  { intros s1 Hd Hf Hc Hs He. unfold gst_eglglessink_close.
    rewrite bind_get, bind_when, Hd. cbn [Z.eqb negb]. msteps.
    unfold ret. f_equal. destruct s1. cbn in *. now subst. }
  destruct (display (eglglesctx s) =? 0) eqn:Hdpy.
  - apply Z.eqb_eq in Hdpy.
    eexists. split.
    + unfold gst_eglglessink_close.
      rewrite bind_get, bind_when, Hdpy. cbn [Z.eqb negb]. msteps.
      reflexivity.
    + sink_simpl. repeat split; try reflexivity; try assumption.
      apply Hfixed; sink_simpl; auto.
  - eexists. split.
    + unfold gst_eglglessink_close.
      rewrite bind_get, bind_when, Hdpy. cbn [negb]. msteps.
      reflexivity.
    + sink_simpl. repeat split; reflexivity.
Qed.

(** X8. [gst_eglglessink_close] always returns TRUE.  It terminates the
    display when there is one, and forgets the selected format, the
    catalog, the advertised caps and the mark of initialisation; the
    thread, the queue and the configured caps are not its business.  A
    second close has nothing left to do.  A closed sink cannot be
    started, and opening it again builds the catalog from an empty
    list: the entries are those of the new probe, none twice. *)
Theorem close_forgets_display_and_catalog
  (min_version : Z) (be : Backend) (s : GstEglGlesSink) :
  object_lock s = false ->
  exists s1,
    gst_eglglessink_close s
    = Ok true s1
        (if display (eglglesctx s) =? 0 then [] else [EvTerminateDisplay])
    /\ display (eglglesctx s1) = 0
    /\ supported_fmts s1 = []
    /\ sinkcaps s1 = None
    /\ selected_fmt s1 = None
    /\ egl_started s1 = false
    /\ thread s1 = thread s
    /\ queue s1 = queue s
    /\ configured_caps s1 = configured_caps s
    /\ gst_eglglessink_close s1 = Ok true s1 []
    /\ gst_eglglessink_start be s1 = Ok false s1 []
    /\ (forall s2 tr2,
          gst_eglglessink_open min_version be s1 = Ok true s2 tr2 ->
          supported_fmts s2 = map Some (probed_formats be)
          /\ sinkcaps s2 = Some (advertised (probed_formats be))).
Proof.
  intros Hlock.
  destruct (close_run s)
    as (s1 & Hrun & Hdpy & Hfmts & Hcaps & Hsel & Hst & Hlock1 & Hth & Hq & _
        & Hcc & _ & _ & Hagain).
  exists s1. split; [exact Hrun|].
  repeat split; try assumption.
  - unfold gst_eglglessink_start. rewrite bind_get, Hst. reflexivity.
  - rewrite Hlock in Hlock1.
    destruct (egl_init_run min_version be s1 Hlock1)
      as (ok & s2' & tr2' & Hinit & _ & _ & _ & Hok & _).
    unfold gst_eglglessink_open in H.
    rewrite (bind_prepend _ _ _ _ _ _ Hinit) in H.
    destruct ok; [|discriminate].
    destruct (Hok eq_refl) as (_ & _ & Hf & _).
    cbn in H. inversion H; subst. now rewrite Hf, Hfmts.
  - rewrite Hlock in Hlock1.
    destruct (egl_init_run min_version be s1 Hlock1)
      as (ok & s2' & tr2' & Hinit & _ & _ & _ & Hok & _).
    unfold gst_eglglessink_open in H.
    rewrite (bind_prepend _ _ _ _ _ _ Hinit) in H.
    destruct ok; [|discriminate].
    destruct (Hok eq_refl) as (_ & _ & _ & Hc).
    cbn in H. inversion H; subst. exact Hc.
Qed.

Lemma close_forgets_display_and_catalog_witness :
  exists s1,
    gst_eglglessink_close Scenario.paused = Ok true s1 [EvTerminateDisplay]
    /\ supported_fmts s1 = []
    /\ gst_eglglessink_close s1 = Ok true s1 [].
Proof.
  assert (H1 : object_lock Scenario.paused = false) by (vm_compute; reflexivity).
  destruct (close_forgets_display_and_catalog 1 Scenario.nominal Scenario.paused H1)
    as (s1 & Hrun & _ & Hfmts & _ & _ & _ & _ & _ & _ & Hagain & _).
  exists s1. split; [|split; assumption].
  rewrite Hrun. f_equal.
Defined.

(* ===================================================================== *)
(** ** State changes *)

(** X9. In [gst_eglglessink_change_state] the parent class has the say
    on the way down: when its handler fails, neither
    [gst_eglglessink_stop] nor [gst_eglglessink_close] is run, the sink
    is left as it is and the failure is returned.  The transitions
    between PAUSED and PLAYING do not touch the sink and return what the
    parent returns.  On the way up it is the element that goes first:
    a READY to PAUSED change on a sink that was not initialised fails
    whatever the parent would have answered. *)
Theorem change_state_defers_to_parent_on_the_way_down
  (lib : GstVideoLib) (min_version : Z) (be : Backend) (status : ThreadStatus)
  (s : GstEglGlesSink) :
  (forall transition,
      In transition [GST_STATE_CHANGE_PAUSED_TO_READY;
                     GST_STATE_CHANGE_READY_TO_NULL;
                     GST_STATE_CHANGE_PAUSED_TO_PLAYING;
                     GST_STATE_CHANGE_PLAYING_TO_PAUSED] ->
      parent_change_state be transition = GST_STATE_CHANGE_FAILURE ->
      gst_eglglessink_change_state lib min_version be status transition s
      = Ok GST_STATE_CHANGE_FAILURE s [])
  /\ (forall transition,
        In transition [GST_STATE_CHANGE_PAUSED_TO_PLAYING;
                       GST_STATE_CHANGE_PLAYING_TO_PAUSED] ->
        gst_eglglessink_change_state lib min_version be status transition s
        = Ok (parent_change_state be transition) s [])
  /\ (egl_started s = false ->
      gst_eglglessink_change_state lib min_version be status
        GST_STATE_CHANGE_READY_TO_PAUSED s
      = Ok GST_STATE_CHANGE_FAILURE s []).
Proof.
  split; [|split].
  - intros transition Hin Hparent.
    unfold gst_eglglessink_change_state.
    cbn in Hin.
    destruct Hin as [<- | [<- | [<- | [<- | []]]]];
      rewrite bind_ret; cbn [negb]; rewrite Hparent; reflexivity.
  - intros transition Hin.
    unfold gst_eglglessink_change_state. cbn in Hin.
    destruct Hin as [<- | [<- | []]]; rewrite bind_ret; cbn [negb];
      match goal with
      | |- context [parent_change_state be ?t] =>
          destruct (parent_change_state be t)
      end; try reflexivity; rewrite bind_ret; reflexivity.
  - intros Hst. unfold gst_eglglessink_change_state, gst_eglglessink_start.
    rewrite bind_assoc, bind_get, Hst. cbn [negb].
    rewrite bind_ret. reflexivity.
Qed.

(* ===================================================================== *)
(** ** The render thread never halts *)

Lemma template_structure_intersect st f :
  existsb (gst_structure_can_intersect st) (gst_video_format_new_template_caps f)
  = GstVideoFormat_beq (st_format st) f.
Proof.
  destruct st as [sf sw sh sp].
  unfold gst_video_format_new_template_caps, gst_structure_can_intersect,
    field_can_intersect. cbn.
  destruct sw, sh, sp; cbn; rewrite ?andb_true_r, ?orb_false_r; reflexivity.
Qed.

Lemma template_caps_intersect st l :
  existsb (gst_structure_can_intersect st)
    (flat_map gst_video_format_new_template_caps l)
  = existsb (GstVideoFormat_beq (st_format st)) l.
Proof.
  induction l as [|f l IH]; [reflexivity|].
  cbn [flat_map]. rewrite existsb_app, template_structure_intersect, IH.
  reflexivity.
Qed.

Lemma catalog_caps_are_templates fm :
  In fm catalog ->
  caps fm = flat_map gst_video_format_new_template_caps (map st_format (caps fm)).
Proof.
  intros [<- | [<- | [<- | []]]]; reflexivity.
Qed.

(** A structure that can intersect the caps of a catalog entry names a
    format the entry lists. *)
Lemma catalog_match_lists_format fm st :
  In fm catalog ->
  gst_caps_can_intersect (Some [st]) (Some (caps fm)) = true ->
  In (st_format st) (map st_format (caps fm)).
Proof.
  intros Hin Hmatch. cbn in Hmatch. rewrite orb_false_r in Hmatch.
  rewrite (catalog_caps_are_templates fm Hin), template_caps_intersect in Hmatch.
  apply existsb_exists in Hmatch as (f & Hf & Heq).
  apply internal_GstVideoFormat_dec_bl in Heq. now subst.
Qed.

(** The formats a catalog entry lists have a fragment shader and an
    upload: the [default:] branches of the two switches are not
    reached. *)
Lemma catalog_format_has_shader_and_upload lib fm f :
  In fm catalog ->
  In f (map st_format (caps fm)) ->
  (exists prog n names, fragment_shader_for_format f = Some (prog, n, names))
  /\ forall width height,
       exists plan, upload_plan lib (fmt fm) f width height = Some plan.
Proof.
  intros [<- | [<- | [<- | []]]] Hf; cbn in Hf;
    repeat (destruct Hf as [<- | Hf];
            [split; [do 3 eexists; reflexivity
                    | intros; eexists; reflexivity]|]);
    destruct Hf.
Qed.

Lemma parse_caps_fixed cv f width height :
  gst_video_format_parse_caps cv = Some (f, width, height) ->
  exists st, cv = Some [st] /\ st_format st = f.
Proof.
  destruct cv as [[|st [|st' rest]]|]; try discriminate.
  cbn. destruct st as [sf sw sh sp]. cbn.
  destruct sf, sw, sh; intros H; inversion H; subst; eexists; split; reflexivity.
Qed.

Lemma choose_config_total be s fm :
  selected_fmt s = Some fm ->
  exists ok s' tr, gst_eglglessink_choose_config be s = Ok ok s' tr.
Proof.
  intros Hsel. unfold gst_eglglessink_choose_config.
  rewrite bind_get, Hsel. cbv beta iota. rewrite bind_emit.
  destruct (eglChooseConfig be (attribs fm)) as [n|]; [|do 3 eexists; reflexivity].
  destruct (n <? 1); [do 3 eexists; reflexivity|].
  rewrite bind_emit, bind_modify.
  destruct (eglCreateContext be =? 0); do 3 eexists; reflexivity.
Qed.

Lemma choose_config_keeps be :
  keeps (fun s => (object_lock s, thread_frame s, selected_fmt s, format s,
                   configured_caps s, have_surface s))
    (gst_eglglessink_choose_config be).
Proof. unfold_rebuild. frames. Qed.

Lemma configure_window_returns be width height s :
  object_lock s = false ->
  returns (configure_window be width height)
    (fun _ s' => object_lock s' = false) s.
Proof.
  intros Hlock. unfold configure_window, gst_eglglessink_create_window.
  apply returns_bind. apply returns_lock; [exact Hlock|].
  returns_steps; reflexivity.
Qed.

Lemma configure_window_keeps be width height :
  keeps (fun s => (thread_frame s, selected_fmt s, format s, configured_caps s,
                   have_surface s))
    (configure_window be width height).
Proof. unfold_rebuild. frames. Qed.

Lemma init_egl_surface_total be s prog n names :
  display (eglglesctx s) <> 0 ->
  fragment_shader_for_format (format s) = Some (prog, n, names) ->
  exists ok s' tr, gst_eglglessink_init_egl_surface be s = Ok ok s' tr.
Proof.
  intros Hdpy Hprog. apply Z.eqb_neq in Hdpy.
  assert (H : returns (gst_eglglessink_init_egl_surface be) (fun _ _ => True) s).
  { unfold gst_eglglessink_init_egl_surface, create_window_surface,
      build_video_program, build_border_program, setup_textures,
      gst_eglglessink_context_make_current,
      gst_eglglessink_update_surface_dimensions.
    returns_steps; rewrite ?Hdpy, ?Hprog in *; try discriminate;
      returns_steps; try exact I;
      try match goal with
          | H : Some _ = Some _ |- _ => inversion H; subst; clear H
          end;
      returns_steps; exact I. }
  destruct H as (ok & s' & tr & Hrun & _). now exists ok, s', tr.
Qed.

Lemma init_egl_surface_keeps be :
  keeps (fun s => (object_lock s, thread_frame s, selected_fmt s, format s,
                   configured_caps s))
    (gst_eglglessink_init_egl_surface be).
Proof. unfold_rebuild. frames. Qed.

Lemma update_display_region_returns lib be s :
  object_lock s = false ->
  returns (update_display_region lib be) (fun _ s' => object_lock s' = false) s.
Proof.
  intros Hlock.
  unfold update_display_region, gst_eglglessink_update_surface_dimensions,
    gst_eglglessink_setup_vbo.
  returns_steps; try assumption;
    (apply returns_lock; [sink_simpl; exact Hlock|]);
    returns_steps; reflexivity.
Qed.

Lemma draw_and_swap_run be s :
  exists flow tr,
    draw_and_swap be s = Ok flow s tr
    /\ (flow = GST_FLOW_OK \/ flow = GST_FLOW_ERROR).
Proof.
  unfold draw_and_swap. rewrite bind_get.
  destruct (buffer_preserved (eglglesctx s)); cbn [negb];
    rewrite ?bind_assoc, ?bind_emit, ?bind_ret;
    try (destruct (border_error be); cbn [negb]);
    rewrite ?bind_emit; try (do 2 eexists; split; [reflexivity | tauto]);
    (destruct (video_error be);
     [do 2 eexists; split; [reflexivity | tauto]|]);
    rewrite bind_emit;
    destruct (eglSwapBuffers be); do 2 eexists; (split; [reflexivity | tauto]).
Qed.

Lemma render_and_display_keeps lib be buf :
  keeps (fun s => (thread_frame s, render_frame s))
    (gst_eglglessink_render_and_display lib be buf).
Proof.
  unfold_render. frames.
  all: apply keeps_uploads.
Qed.

Lemma render_and_display_returns lib be buf s :
  object_lock s = false ->
  (buf <> None -> selection_consistent s) ->
  returns (gst_eglglessink_render_and_display lib be buf)
    (fun flow s' =>
       object_lock s' = false
       /\ (flow = GST_FLOW_OK \/ flow = GST_FLOW_ERROR)) s.
Proof.
  intros Hlock Hsel. unfold gst_eglglessink_render_and_display.
  apply returns_bind.
  assert (Hup : returns (match buf with
                         | Some _ => upload_frame lib be
                         | None => ret true
                         end) (fun _ s' => s' = s) s).
  { destruct buf as [b|]; [|now apply returns_ret].
    destruct Hsel as (fm & Hfm & Hcat & Hfmt); [discriminate|].
    destruct (catalog_format_has_shader_and_upload lib fm (format s) Hcat Hfmt)
      as (_ & Hplan).
    destruct (Hplan (video_width s) (video_height s)) as (plan & Hp).
    eapply returns_Ok;
      [exact (upload_frame_run lib be s fm plan Hfm Hp) | reflexivity]. }
  apply (returns_conseq _ _ _ _ Hup). intros uploaded s' ->.
  destruct uploaded; cbn [negb]; [|apply returns_ret; auto].
  apply returns_bind.
  apply (returns_conseq _ _ _ _ (update_display_region_returns lib be s Hlock)).
  intros region s1 Hlock1.
  destruct region; cbn [negb]; [|apply returns_ret; auto].
  destruct (draw_and_swap_run be s1) as (flow & tr & Hrun & Hflow).
  eapply returns_Ok; [exact Hrun|]. auto.
Qed.

Lemma configure_caps_keeps be c :
  keeps thread_frame (gst_eglglessink_configure_caps be c).
Proof. unfold_render. frames. Qed.

(** Caps configuration returns, with the object lock free; when it
    returns TRUE the selection is consistent. *)
Lemma configure_caps_returns be c s :
  object_lock s = false ->
  display (eglglesctx s) <> 0 ->
  catalog_known s ->
  returns (gst_eglglessink_configure_caps be c)
    (fun ok s' => object_lock s' = false
                  /\ (ok = true -> selection_consistent s')) s.
Proof.
  intros Hlock Hdpy Hcat.
  destruct (gst_video_format_parse_caps (option_map caps_val c))
    as [[[f width] height]|] eqn:Hparse.
  2: { unfold gst_eglglessink_configure_caps. rewrite Hparse.
       apply returns_ret. split; [exact Hlock | discriminate]. }
  destruct (gst_eglglessink_get_compat_format_from_caps s (option_map caps_val c))
    as [fm|] eqn:Hcompat.
  2: { unfold gst_eglglessink_configure_caps. rewrite Hparse.
       apply returns_bind, returns_modify, returns_bind, returns_get.
       unfold gst_eglglessink_get_compat_format_from_caps in *.
       sink_simpl. rewrite Hcompat.
       apply returns_ret. split; [exact Hlock | discriminate]. }
  destruct c as [c|]; [|discriminate]. cbn [option_map] in *.
  destruct (configure_caps_prefix be c s f width height fm Hparse Hcompat)
    as (s1 & Heq & Hf1 & Hsel1 & Hctx1 & Hlock1 & _).
  apply (returns_ext _ _ _ _ _ Heq). clear Heq.
  rewrite Hlock in Hlock1.
  assert (Hdpy1 : display (eglglesctx s1) <> 0) by now rewrite Hctx1.
  (* the entry found lists the format of the caps *)
  assert (Hcons : forall s', selected_fmt s' = Some fm -> format s' = f ->
                             selection_consistent s').
  { intros s' Hs Hf. exists fm. split; [exact Hs|].
    pose proof (compat_format_traverse_first (supported_fmts s)
                  (Some (caps_val c))) as Hfirst.
    unfold gst_eglglessink_get_compat_format_from_caps in Hcompat.
    rewrite Hcompat in Hfirst.
    destruct Hfirst as (l1 & l2 & Hl & Hmatch & _).
    assert (Hin : In fm catalog).
    { apply Hcat. rewrite Hl. apply in_or_app. right. now left. }
    split; [exact Hin|].
    destruct (parse_caps_fixed _ _ _ _ Hparse) as (st & Hst & Hfmt).
    inversion Hst as [Hcv]. unfold entry_matches in Hmatch. rewrite Hcv in Hmatch.
    rewrite Hf, <- Hfmt. now apply catalog_match_lists_format. }
  apply returns_bind.
  (* the test of the configured caps, and the teardown *)
  assert (Hcheck : returns (check_configured be (Some (caps_val c)))
            (fun _ s2 => object_lock s2 = false
                         /\ display (eglglesctx s2) <> 0
                         /\ selected_fmt s2 = Some fm /\ format s2 = f) s1).
  { unfold check_configured. apply returns_bind, returns_get.
    destruct (configured_caps s1) as [old|]; [|apply returns_ret; auto].
    destruct (gst_caps_can_intersect (Some (caps_val c)) (Some (caps_val old)));
      [apply returns_ret; auto|].
    destruct (wipe_eglglesctx_torn_down be s1 Hlock1 Hdpy1)
      as (sw & Hwipe & _ & Hlockw & Hdpyw & _ & _ & _ & _ & _ & _ & Hselw
          & Hfw & _).
    apply returns_bind. eapply returns_Ok; [exact Hwipe|].
    apply returns_bind, returns_modify, returns_ret. sink_simpl.
    repeat split; congruence. }
  apply (returns_conseq _ _ _ _ Hcheck).
  intros succeed s2 (Hlock2 & Hdpy2 & Hsel2 & Hf2).
  destruct succeed; [apply returns_ret; auto|].
  (* the rebuild *)
  apply returns_bind.
  destruct (choose_config_total be s2 fm Hsel2) as (chosen & s3 & tr3 & Hchoose).
  pose proof (choose_config_keeps be s2) as Hk3.
  rewrite Hchoose in Hk3. cbn [result_sink] in Hk3.
  unfold thread_frame in Hk3. split_eqs Hk3.
  eapply returns_Ok; [exact Hchoose|].
  destruct chosen; cbn [negb];
    [|apply returns_ret; split; [congruence | discriminate]].
  apply returns_bind, returns_modify, returns_bind.
  set (s4 := set_configured_caps (Some c) s3).
  assert (Hlock4 : object_lock s4 = false) by (subst s4; sink_simpl; congruence).
  pose proof (returns_keeps _ _ _ _ (configure_window_keeps be width height)
                (configure_window_returns be width height s4 Hlock4)) as Hwin.
  apply (returns_conseq _ _ _ _ Hwin).
  intros win s5 (Hlock5 & Hk5).
  unfold thread_frame in Hk5. subst s4. sink_simpl_in Hk5. split_eqs Hk5.
  destruct win; cbn [negb]; [|apply returns_ret; split; [auto | discriminate]].
  apply returns_bind, returns_get.
  assert (Hcons5 : selection_consistent s5) by (apply Hcons; congruence).
  destruct (have_surface s5); cbn [negb]; [apply returns_ret; auto|].
  apply returns_bind.
  destruct Hcons5 as (fm5 & Hfm5 & Hcat5 & Hfmt5).
  destruct (catalog_format_has_shader_and_upload
              {| gst_video_format_get_component_offset := fun _ _ _ _ => 0;
                 gst_video_format_get_component_width := fun _ _ _ => 0;
                 gst_video_format_get_component_height := fun _ _ _ => 0;
                 gst_video_calculate_display_ratio := fun _ _ _ _ _ _ => None;
                 gst_util_uint64_scale_int := fun _ _ _ => 0;
                 gst_video_sink_center_rect := fun r _ _ => r |}
              fm5 (format s5) Hcat5 Hfmt5)
    as ((prog & n & names & Hprog) & _).
  assert (Hdpy5' : display (eglglesctx s5) <> 0) by congruence.
  destruct (init_egl_surface_total be s5 prog n names Hdpy5' Hprog)
    as (ok & s6 & tr6 & Hinit).
  pose proof (init_egl_surface_keeps be s5) as Hk6.
  rewrite Hinit in Hk6. cbn [result_sink] in Hk6.
  unfold thread_frame in Hk6. split_eqs Hk6.
  eapply returns_Ok; [exact Hinit|].
  destruct ok; cbn [negb]; apply returns_ret;
    (split; [congruence|]); [|discriminate].
  intros _. apply Hcons; congruence.
Qed.

Lemma render_item_keeps lib be item :
  keeps thread_frame (render_item lib be item).
Proof.
  unfold render_item, configure_for_item, render_cond_broadcast.
  unfold_render. frames.
  all: apply keeps_uploads.
Qed.

Lemma render_thread_shutdown_keeps be :
  keeps thread_frame (render_thread_shutdown be).
Proof. unfold render_thread_shutdown. unfold_render. frames. Qed.

(** One iteration of the loop returns; if the loop goes on, the sink is
    as the head of the loop wants it. *)
Lemma render_item_returns lib be item s :
  render_inv s ->
  returns (render_item lib be item)
    (fun continue s' =>
       object_lock s' = false
       /\ continue = GstFlowReturn_beq (last_flow s') GST_FLOW_OK
       /\ (continue = true ->
           configured_caps s' <> None -> selection_consistent s')) s.
Proof.
  intros (Hlock & Hdpy & Hcat & Hcons).
  unfold render_item. apply returns_bind.
  assert (Hconf : returns (configure_for_item be (object item))
            (fun configured s1 =>
               object_lock s1 = false
               /\ (configured = true ->
                   configured_caps s1 <> None -> selection_consistent s1)) s).
  { unfold configure_for_item. destruct (object item) as [b|];
      [|apply returns_ret; auto].
    apply returns_bind, returns_get.
    destruct (negb (caps_ptr_eqb (buf_caps b) (configured_caps s)));
      [|apply returns_ret; auto].
    apply (returns_conseq _ _ _ _
             (configure_caps_returns be (buf_caps b) s Hlock Hdpy Hcat)).
    intros ok s1 (Hl & Hc). auto. }
  apply (returns_conseq _ _ _ _ Hconf). clear Hconf.
  intros configured s1 (Hlock1 & Hcons1).
  destruct configured; cbn [negb].
  - specialize (Hcons1 eq_refl).
    apply returns_bind, returns_get, returns_bind.
    assert (Hdraw : returns
              (match configured_caps s1 with
               | Some _ =>
                   flow <- gst_eglglessink_render_and_display lib be (object item) ;;
                   modify (set_last_flow flow)
               | None => ret tt
               end)
              (fun _ s2 => object_lock s2 = false
                           /\ (configured_caps s2 <> None ->
                               selection_consistent s2)) s1).
    { destruct (configured_caps s1) as [cc|] eqn:Hcc; [|apply returns_ret; auto].
      assert (Hsel1 : selection_consistent s1) by (apply Hcons1; discriminate).
      apply returns_bind.
      pose proof (returns_keeps _ _ _ _
                    (render_and_display_keeps lib be (object item))
                    (render_and_display_returns lib be (object item) s1 Hlock1
                       (fun _ => Hsel1))) as Hr.
      apply (returns_conseq _ _ _ _ Hr).
      intros flow s2 ((Hlock2 & _) & Hk).
      apply returns_modify. sink_simpl. split; [exact Hlock2|].
      intros _. unfold render_frame in Hk. split_eqs Hk.
      destruct Hsel1 as (fm & Hfm & Hin & Hf). exists fm.
      sink_simpl. repeat split; [congruence | exact Hin |].
      replace (format s2) with (format s1) by congruence. exact Hf. }
    apply (returns_conseq _ _ _ _ Hdraw). clear Hdraw.
    intros _ s2 (Hlock2 & Hcons2).
    unfold render_cond_broadcast.
    apply returns_bind, returns_when; intros _;
      [apply returns_bind, returns_emit, returns_bind, returns_emit,
         returns_emit|];
      apply returns_bind, returns_emit, returns_bind, returns_get;
      destruct (GstFlowReturn_beq (last_flow s2) GST_FLOW_OK) eqn:Hflow;
      cbn [negb]; apply returns_ret; rewrite Hflow; repeat split; auto;
      discriminate.
  - unfold render_cond_broadcast.
    apply returns_bind, returns_modify, returns_bind, returns_bind, returns_emit,
      returns_bind, returns_emit, returns_emit, returns_bind, returns_emit,
      returns_ret.
    sink_simpl. repeat split; auto; discriminate.
Qed.

Lemma render_inv_set_queue q s : render_inv s -> render_inv (set_queue q s).
Proof. intros H. exact H. Qed.

Lemma render_loop_keeps lib world fuel :
  forall k, keeps thread_frame (render_loop lib world k fuel).
Proof.
  induction fuel as [|fuel IH]; intros k; cbn [render_loop].
  - apply keeps_ret.
  - apply keeps_bind; [apply keeps_get|]. intros q.
    destruct (gst_data_queue_pop q) as [item q'| |].
    + apply keeps_bind; [apply keeps_modify; reflexivity|]. intros _.
      apply keeps_bind; [apply keeps_emit|]. intros _.
      apply keeps_bind; [apply render_item_keeps|]. intros continue.
      destruct continue; [apply IH|].
      apply keeps_bind; [apply render_thread_shutdown_keeps|].
      intros _. apply keeps_ret.
    + apply keeps_bind; [apply render_thread_shutdown_keeps|].
      intros _. apply keeps_ret.
    + apply keeps_ret.
Qed.

Lemma shutdown_returns be s :
  object_lock s = false ->
  display (eglglesctx s) <> 0 ->
  returns (render_thread_shutdown be ;; ret ThreadExited)
    (fun status s' =>
       status = ThreadExited
       /\ object_lock s' = false
       /\ torn_down s' /\ configured_caps s' = None
       /\ last_flow s' <> GST_FLOW_OK) s.
Proof.
  intros Hlock Hdpy.
  destruct (render_thread_shutdown_run be s Hlock Hdpy)
    as (s' & Hrun & Htorn & Hcc & Hflow & Hlock' & _).
  assert (Hne : last_flow s' <> GST_FLOW_OK)
    by (rewrite Hflow; destruct (last_flow s); cbn; discriminate).
  apply returns_bind. eapply returns_Ok; [exact Hrun|].
  apply returns_ret. repeat split; auto; apply Htorn.
Qed.

Lemma render_loop_returns lib world fuel :
  forall k s,
    render_inv s ->
    returns (render_loop lib world k fuel)
      (fun status s' =>
         object_lock s' = false
         /\ (status = ThreadExited ->
             torn_down s' /\ configured_caps s' = None
             /\ last_flow s' <> GST_FLOW_OK)
         /\ (status <> ThreadExited -> render_inv s')) s.
Proof.
  induction fuel as [|fuel IH]; intros k s Hinv; cbn [render_loop].
  - apply returns_ret. split; [apply Hinv|]. split; [discriminate|].
    intros _. exact Hinv.
  - apply returns_bind, returns_get.
    pose proof Hinv as (Hlock & Hdpy & Hcat & Hcons).
    destruct (gst_data_queue_pop (queue s)) as [item q'| |].
    + apply returns_bind, returns_modify, returns_bind, returns_emit.
      apply returns_bind.
      pose proof (returns_keeps _ _ _ _ (render_item_keeps lib (world k) item)
                    (render_item_returns lib (world k) item (set_queue q' s)
                       (render_inv_set_queue q' s Hinv))) as Hitem.
      apply (returns_conseq _ _ _ _ Hitem). clear Hitem.
      intros continue s2 ((Hlock2 & _ & Hcons2) & Hk).
      unfold thread_frame in Hk. sink_simpl_in Hk. split_eqs Hk.
      assert (Hfmts2 : supported_fmts s2 = supported_fmts s) by congruence.
      assert (Hdpy2 : display (eglglesctx s2) = display (eglglesctx s))
        by congruence.
      destruct continue.
      * apply IH. repeat split; auto; try congruence.
        unfold catalog_known. rewrite Hfmts2. exact Hcat.
      * assert (Hdpy2' : display (eglglesctx s2) <> 0) by congruence.
        apply (returns_conseq _ _ _ _ (shutdown_returns (world k) s2 Hlock2 Hdpy2')).
        intros status s3 (-> & Hl & Ht & Hc & Hf).
        split; [exact Hl|]. split; [auto|]. intros Hne. now elim Hne.
    + apply (returns_conseq _ _ _ _ (shutdown_returns (world k) s Hlock Hdpy)).
      intros status s3 (-> & Hl & Ht & Hc & Hf).
      split; [exact Hl|]. split; [auto|]. intros Hne. now elim Hne.
    + apply returns_ret. split; [exact Hlock|]. split; [discriminate|].
      intros _. exact Hinv.
Qed.

(** X10. The render thread never halts.  From a sink whose object lock
    is free, that has its display, whose list of supported formats
    comes from the catalog and whose configured caps, if any, come with
    a consistent selection, [render_thread_func] returns from any
    number of iterations, whatever the queue holds and whatever the
    backend answers: it does not take the object lock twice, it meets
    neither the assertion on the display nor a [g_assert_not_reached]
    of the format switches, and it does not read a missing selected
    format.  The object lock is free when it returns.  A thread that
    has left its loop has released every EGL/GLES resource, has no
    configured caps and a [last_flow] that is not GST_FLOW_OK; a thread
    that has not finds the sink as the head of the loop wants it. *)
Theorem render_thread_never_halts
  (lib : GstVideoLib) (world : nat -> Backend) (fuel : nat) (s : GstEglGlesSink) :
  render_inv s ->
  exists status s' tr,
    render_thread_func lib world fuel s = Ok status s' tr
    /\ object_lock s' = false
    /\ display (eglglesctx s') = display (eglglesctx s)
    /\ supported_fmts s' = supported_fmts s
    /\ (status = ThreadExited ->
        torn_down s' /\ configured_caps s' = None
        /\ last_flow s' <> GST_FLOW_OK)
    /\ (status <> ThreadExited -> render_inv s').
Proof.
  intros Hinv. unfold render_thread_func.
  destruct (returns_keeps _ _ _ _ (render_loop_keeps lib world fuel 0)
              (render_loop_returns lib world fuel 0 s Hinv))
    as (status & s' & tr & Hrun & (Hlock & Hexit & Hgo) & Hk).
  unfold thread_frame in Hk. split_eqs Hk.
  exists status, s', tr. split; [exact Hrun|]. split; [exact Hlock|].
  split; [congruence|]. split; [congruence|]. split; [exact Hexit | exact Hgo].
Qed.

Lemma render_thread_never_halts_witness :
  exists status s' tr,
    render_thread_func GstVideo010.lib (fun _ => Scenario.nominal) 2
      Scenario.pushed = Ok status s' tr
    /\ object_lock s' = false.
Proof.
  assert (Hinv : render_inv Scenario.pushed).
  { split; [vm_compute; reflexivity|]. split; [vm_compute; discriminate|].
    split.
    - intros fm Hin. vm_compute in Hin.
      destruct Hin as [H | [H | [H | []]]]; inversion H; subst; cbn; tauto.
    - intros Hcc. exfalso. apply Hcc. vm_compute. reflexivity. }
  destruct (render_thread_never_halts GstVideo010.lib (fun _ => Scenario.nominal)
              2 Scenario.pushed Hinv)
    as (status & s' & tr & Hrun & Hlock & _).
  exists status, s', tr. split; assumption.
Defined.

Lemma render_inv_frame s s' :
  inv_frame s' = inv_frame s -> render_inv s -> render_inv s'.
Proof.
  unfold inv_frame. intros Hk (Hlock & Hdpy & Hcat & Hcons). split_eqs Hk.
  split; [congruence|]. split; [congruence|]. split.
  - unfold catalog_known.
    replace (supported_fmts s') with (supported_fmts s) by congruence.
    exact Hcat.
  - intros Hcc. destruct Hcons as (fm & Hfm & Hin & Hf); [congruence|].
    exists fm. split; [congruence|]. split; [exact Hin|].
    replace (format s') with (format s) by congruence. exact Hf.
Qed.

Lemma producer_calls_keep_inv_frame :
  (forall c, keeps inv_frame (gst_eglglessink_setcaps c))
  /\ (forall b, keeps inv_frame (gst_eglglessink_show_frame b))
  /\ keeps inv_frame gst_eglglessink_expose.
Proof.
  split; [|split]; intros;
    unfold gst_eglglessink_setcaps, gst_eglglessink_show_frame,
      gst_eglglessink_expose, gst_eglglessink_queue_buffer, queue_buffer_push;
    frames.
Qed.

Lemma start_keeps_format be : keeps format (gst_eglglessink_start be).
Proof.
  unfold gst_eglglessink_start, gst_x_overlay_prepare_xwindow_id,
    gst_eglglessink_set_window_handle, gst_eglglessink_reset_display_region.
  frames.
Qed.

(** X11. What the render thread relies on is there when it is started
    and is not disturbed by the streaming thread.  A successful open of
    a sink with an empty format list and no configured caps leaves the
    object lock free, a display in place and a list of supported
    formats made of catalog entries.  [gst_eglglessink_start], and the
    calls of the producer side, [gst_eglglessink_setcaps],
    [gst_eglglessink_show_frame] and [gst_eglglessink_expose], keep all
    of that, and a consistent selection with it. *)
Theorem render_invariant_established_and_kept
  (min_version : Z) (be : Backend) (s0 : GstEglGlesSink) :
  object_lock s0 = false ->
  supported_fmts s0 = [] ->
  configured_caps s0 = None ->
  (forall s1 tr1,
      gst_eglglessink_open min_version be s0 = Ok true s1 tr1 -> render_inv s1)
  /\ (forall s be', render_inv s ->
        render_inv (result_sink (gst_eglglessink_start be' s)))
  /\ (forall s c, render_inv s ->
        render_inv (result_sink (gst_eglglessink_setcaps c s)))
  /\ (forall s b, render_inv s ->
        render_inv (result_sink (gst_eglglessink_show_frame b s)))
  /\ (forall s, render_inv s ->
        render_inv (result_sink (gst_eglglessink_expose s))).
Proof.
  intros Hlock Hempty Hcc.
  destruct producer_calls_keep_inv_frame as (Hsetcaps & Hshow & Hexpose).
  split; [|split; [|split; [|split]]].
  - intros s1 tr1 Hopen.
    destruct (egl_init_run min_version be s0 Hlock)
      as (ok & s1' & tr1' & Hinit & Hiff & Hlock1 & _ & Hok & _ & Hcc1 & _).
    unfold gst_eglglessink_open in Hopen.
    rewrite (bind_prepend _ _ _ _ _ _ Hinit) in Hopen.
    destruct ok; [|discriminate]. cbn in Hopen. inversion Hopen; subst s1' tr1.
    destruct (Hok eq_refl) as (_ & Hdpy & Hfmts & _).
    destruct (proj1 Hiff eq_refl) as (_ & Hne & _).
    split; [exact Hlock1|]. split; [congruence|]. split.
    + intros fm Hin. rewrite Hfmts, Hempty in Hin. cbn [app] in Hin.
      apply in_map_iff in Hin as (fm' & Heq & Hin). inversion Heq; subst.
      now apply probed_formats_incl in Hin.
    + intros H. rewrite Hcc1, Hcc in H. now elim H.
  - intros s be' Hinv. pose proof Hinv as (Hl & _).
    destruct (start_run be' s Hl)
      as (ok & s' & tr & Hrun & _ & Hlock' & _ & _ & _ & Hdpy & Hfmts & Hconf
          & Hsel & _).
    pose proof (start_keeps_format be' s) as Hf.
    rewrite Hrun in *. cbn [result_sink] in *.
    apply (render_inv_frame s); [|exact Hinv].
    unfold inv_frame. congruence.
  - intros s c. apply render_inv_frame, Hsetcaps.
  - intros s b. apply render_inv_frame, Hshow.
  - intros s. apply render_inv_frame, Hexpose.
Qed.

Lemma render_invariant_established_and_kept_witness :
  exists s1 tr1,
    gst_eglglessink_open 1 Scenario.nominal gst_eglglessink_init = Ok true s1 tr1
    /\ render_inv s1.
Proof.
  destruct (egl_init_run 1 Scenario.nominal gst_eglglessink_init eq_refl)
    as (ok & s1 & tr1 & Hrun & Husable & _).
  assert (Htrue : ok = true).
  { apply Husable. repeat split; try discriminate.
    exists 1, 4. split; [reflexivity | discriminate]. }
  subst ok.
  assert (Hopen : gst_eglglessink_open 1 Scenario.nominal gst_eglglessink_init
                  = Ok true s1 (tr1 ++ [])).
  { unfold gst_eglglessink_open. now rewrite (bind_prepend _ _ _ _ _ _ Hrun). }
  exists s1, (tr1 ++ []). split; [exact Hopen|].
  exact (proj1 (render_invariant_established_and_kept 1 Scenario.nominal
                  gst_eglglessink_init eq_refl eq_refl eq_refl) s1 _ Hopen).
Defined.

(* ===================================================================== *)
(** ** Iterations of the render thread *)

Lemma render_item_unconfigured lib be item s :
  configured_caps s = None ->
  carries_no_caps item = true ->
  render_item lib be item s
  = Ok (GstFlowReturn_beq (last_flow s) GST_FLOW_OK) s
      (ack_trace (object item) ++ [EvItemDestroy]).
Proof.
  intros Hcc Hno. unfold render_item, configure_for_item, carries_no_caps,
    ack_trace, render_cond_broadcast in *.
  destruct (object item) as [b|].
  - destruct (buf_caps b) as [c|]; [discriminate|].
    rewrite bind_assoc, bind_get, Hcc. cbn [caps_ptr_eqb negb is_buffer].
    rewrite bind_ret. cbn [negb]. rewrite bind_get, Hcc. cbv beta iota.
    msteps.
    destruct (GstFlowReturn_beq (last_flow s) GST_FLOW_OK); reflexivity.
  - rewrite bind_ret. cbn [negb is_buffer].
    rewrite bind_get, Hcc. cbv beta iota. msteps.
    destruct (GstFlowReturn_beq (last_flow s) GST_FLOW_OK); reflexivity.
Qed.

Lemma set_queue_set_queue q1 q2 s : set_queue q2 (set_queue q1 s) = set_queue q2 s.
Proof. reflexivity. Qed.

Lemma render_loop_unconfigured lib world :
  forall l k s,
    configured_caps s = None ->
    last_flow s = GST_FLOW_OK ->
    queue s = {| flushing := false; items := l |} ->
    forallb carries_no_caps l = true ->
    render_loop lib world k (S (List.length l)) s
    = Ok ThreadWaiting (set_queue gst_data_queue_new s) (unconfigured_trace l).
Proof.
  induction l as [|item l IH]; intros k s Hcc Hflow Hq Hno.
  - cbn [render_loop List.length]. rewrite bind_get, Hq.
    unfold gst_data_queue_pop; cbn [flushing items].
    unfold ret, gst_data_queue_new. rewrite <- Hq, set_queue_id. reflexivity.
  - cbn [List.length]. remember (S (List.length l)) as n eqn:Hn.
    cbn [render_loop]. rewrite bind_get, Hq.
    unfold gst_data_queue_pop; cbn [flushing items]. subst n.
    cbn [forallb] in Hno. apply andb_prop in Hno as [Hitem Hrest].
    rewrite bind_modify, bind_emit.
    set (s1 := set_queue {| flushing := false; items := l |} s).
    rewrite (bind_prepend _ _ _ _ _ _
               (render_item_unconfigured lib (world k) item s1 Hcc Hitem)).
    replace (last_flow s1) with GST_FLOW_OK by (symmetry; exact Hflow).
    cbn [GstFlowReturn_beq].
    rewrite (IH (S k) s1 Hcc Hflow eq_refl Hrest).
    cbn [prepend]. subst s1. rewrite set_queue_set_queue.
    f_equal; unfold unconfigured_trace; cbn [flat_map app];
      now rewrite <- app_assoc.
Qed.

Lemma unconfigured_trace_quiet l :
  existsb is_drawing (unconfigured_trace l) = false
  /\ existsb is_setup (unconfigured_trace l) = false
  /\ broadcasts (unconfigured_trace l)
     = List.length (filter (fun item => is_buffer (object item)) l).
Proof.
  induction l as [|item l (IH1 & IH2 & IH3)]; [repeat split|].
  assert (Hcons : unconfigured_trace (item :: l)
                  = (EvQueuePop item :: ack_trace (object item) ++ [EvItemDestroy])
                    ++ unconfigured_trace l) by reflexivity.
  rewrite Hcons, !existsb_app, broadcasts_app, IH1, IH2, IH3.
  cbn [filter]. unfold ack_trace.
  destruct (is_buffer (object item)); repeat split.
Qed.

(** X12. Before caps are configured the render thread draws nothing.
    On a sink without configured caps and with [last_flow] GST_FLOW_OK,
    a queue of redraw sentinels and of frames that carry no caps is
    emptied, one iteration per item: each item is popped, a frame is
    acknowledged, the item is released, and no call is made to build
    resources, upload, draw or swap.  [last_flow] stays GST_FLOW_OK, so
    the producer of such a frame is told that all went well; the thread
    then waits for the next item. *)
Theorem nothing_is_drawn_before_caps_are_configured
  (lib : GstVideoLib) (world : nat -> Backend) (s : GstEglGlesSink) :
  configured_caps s = None ->
  last_flow s = GST_FLOW_OK ->
  flushing (queue s) = false ->
  forallb carries_no_caps (items (queue s)) = true ->
  exists tr,
    render_thread_func lib world (S (List.length (items (queue s)))) s
    = Ok ThreadWaiting (set_queue gst_data_queue_new s) tr
    /\ tr = unconfigured_trace (items (queue s))
    /\ existsb is_drawing tr = false
    /\ existsb is_setup tr = false
    /\ broadcasts tr
       = List.length (filter (fun item => is_buffer (object item))
                        (items (queue s)))
    /\ queue_buffer_resume (set_queue gst_data_queue_new s)
       = Ok GST_FLOW_OK (set_queue gst_data_queue_new s) [EvRenderUnlock].
Proof.
  intros Hcc Hflow Hflush Hno.
  assert (Hq : queue s = {| flushing := false; items := items (queue s) |}).
  { destruct (queue s) as [f l]. cbn in *. now subst. }
  exists (unconfigured_trace (items (queue s))).
  destruct (unconfigured_trace_quiet (items (queue s))) as (H1 & H2 & H3).
  split.
  { unfold render_thread_func.
    exact (render_loop_unconfigured lib world (items (queue s)) 0 s
             Hcc Hflow Hq Hno). }
  repeat split; auto.
  unfold queue_buffer_resume. rewrite bind_emit, <- Hflow. reflexivity.
Qed.

Lemma nothing_is_drawn_before_caps_are_configured_witness :
  (* a redraw and a frame without caps on a sink that was given no caps *)
  let frame := {| buf_id := 1; buf_caps := None; buf_size := 0;
                  buf_duration := 0 |} in
  let s := set_queue {| flushing := false;
                        items := [queue_item None; queue_item (Some frame)] |}
             (set_last_flow GST_FLOW_OK gst_eglglessink_init) in
  exists tr,
    render_thread_func GstVideo010.lib (fun _ => Scenario.nominal) 3 s
    = Ok ThreadWaiting (set_queue gst_data_queue_new s) tr
    /\ existsb is_drawing tr = false
    /\ broadcasts tr = 1%nat.
Proof.
  intros frame s.
  destruct (nothing_is_drawn_before_caps_are_configured GstVideo010.lib
              (fun _ => Scenario.nominal) s eq_refl eq_refl eq_refl eq_refl)
    as (tr & Hrun & _ & Hdraw & _ & Hack & _).
  exists tr. split; [exact Hrun|]. split; [exact Hdraw | exact Hack].
Defined.

Lemma forallb_negb_existsb {A} (P : A -> bool) l :
  forallb (fun a => negb (P a)) l = true -> existsb P l = false.
Proof.
  induction l as [|a l IH]; cbn; [reflexivity|].
  intros H. apply andb_prop in H as [Ha Hl].
  apply negb_true_iff in Ha. now rewrite Ha, IH.
Qed.

(** X13. A frame that carries the very caps object the sink is
    configured with is rendered without caps configuration.  The
    iteration makes no call that builds or releases EGL/GLES resources
    or windows (no teardown, no choice of a config, no context, window,
    surface, shader or texture creation), and the selected format, the
    frame format and size, the pixel aspect ratio, the configured caps
    and the resource handles are as before, whatever the backend
    answers on the way. *)
Theorem same_caps_object_skips_configuration
  (lib : GstVideoLib) (be : Backend) (b : GstBuffer) (s : GstEglGlesSink) :
  caps_ptr_eqb (buf_caps b) (configured_caps s) = true ->
  existsb is_setup (result_trace (render_item lib be (queue_item (Some b)) s))
  = false
  /\ configuration (result_sink (render_item lib be (queue_item (Some b)) s))
     = configuration s.
Proof.
  intros Hptr.
  set (rest :=
    (cc <- get configured_caps ;;
     match cc with
     | Some _ =>
         flow <- gst_eglglessink_render_and_display lib be (Some b) ;;
         modify (set_last_flow flow)
     | None => ret tt
     end ;;
     when true render_cond_broadcast ;;
     emit EvItemDestroy ;;
     flow <- get last_flow ;;
     if negb (GstFlowReturn_beq flow GST_FLOW_OK) then ret false else ret true)).
  assert (Heq : render_item lib be (queue_item (Some b)) s = rest s).
  { unfold render_item, configure_for_item. cbn [object queue_item].
    rewrite bind_assoc, bind_get, Hptr. cbn [negb].
    rewrite bind_ret. reflexivity. }
  rewrite Heq. split.
  - apply forallb_negb_existsb.
    assert (Hq : emits_only not_setup rest).
    { subst rest. unfold render_cond_broadcast. unfold_render. frames.
      apply emits_uploads. reflexivity. }
    apply Hq.
  - assert (Hk : keeps configuration rest).
    { subst rest. unfold render_cond_broadcast. unfold_render. frames.
      apply keeps_uploads. }
    apply Hk.
Qed.

Lemma same_caps_object_skips_configuration_witness :
  existsb is_setup
    (result_trace
       (render_item GstVideo010.lib Scenario.nominal
          (queue_item (Some (Scenario.frame 2 Scenario.rgba_640x480)))
          Scenario.playing))
  = false.
Proof.
  assert (Hptr : caps_ptr_eqb (buf_caps (Scenario.frame 2 Scenario.rgba_640x480))
                   (configured_caps Scenario.playing) = true)
    by (vm_compute; reflexivity).
  exact (proj1 (same_caps_object_skips_configuration GstVideo010.lib
                  Scenario.nominal (Scenario.frame 2 Scenario.rgba_640x480)
                  Scenario.playing Hptr)).
Defined.

(* ===================================================================== *)
(** ** The display region *)

Lemma update_surface_dimensions_fresh be s :
  negb (query_surface_width be =? surface_width (eglglesctx s))
  || negb (query_surface_height be =? surface_height (eglglesctx s)) = false ->
  gst_eglglessink_update_surface_dimensions be s = Ok false s [].
Proof.
  intros H. unfold gst_eglglessink_update_surface_dimensions.
  rewrite bind_get, H. reflexivity.
Qed.

Lemma update_surface_dimensions_changed be s :
  negb (query_surface_width be =? surface_width (eglglesctx s))
  || negb (query_surface_height be =? surface_height (eglglesctx s)) = true ->
  gst_eglglessink_update_surface_dimensions be s
  = Ok true (with_surface_size be s) [].
Proof.
  intros H. unfold gst_eglglessink_update_surface_dimensions.
  rewrite bind_get, H. msteps. reflexivity.
Qed.

Lemma with_surface_size_fresh be s :
  negb (query_surface_width be =? surface_width (eglglesctx s))
  || negb (query_surface_height be =? surface_height (eglglesctx s)) = false ->
  with_surface_size be s = s.
Proof.
  intros H. apply orb_false_elim in H as [Hw Hh].
  apply negb_false_iff, Z.eqb_eq in Hw.
  apply negb_false_iff, Z.eqb_eq in Hh.
  unfold with_surface_size. rewrite Hw, Hh.
  destruct s as [? ? ? ? ? ? ? ? ? ? ? ? c]; destruct c. reflexivity.
Qed.

Lemma update_display_region_cases lib be s :
  object_lock s = false ->
  exists s',
    update_display_region lib be s
    = Ok (if region_stale be s then negb (vbo_error be) else true) s'
        (if region_stale be s then [EvSetupVbo] else [])
    /\ display_region s'
       = (if region_stale be s
          then default_display_region lib (with_surface_size be s)
          else display_region s)
    /\ (region_stale be s = false -> s' = s)
    /\ object_lock s' = false
    /\ eglglesctx s' = eglglesctx (with_surface_size be s).
Proof.
  intros Hlock. unfold update_display_region, region_stale.
  destruct (negb (query_surface_width be =? surface_width (eglglesctx s))
            || negb (query_surface_height be =? surface_height (eglglesctx s)))
    eqn:Hchanged.
  - rewrite (bind_Ok _ _ _ (update_surface_dimensions_changed be s Hchanged)).
    rewrite bind_get. cbn [orb].
    rewrite bind_lock by exact Hlock.
    rewrite bind_modify, bind_unlock, setup_vbo_run.
    eexists. split; [reflexivity|].
    destruct (vbo_error be); repeat split; discriminate.
  - rewrite (bind_Ok _ _ _ (update_surface_dimensions_fresh be s Hchanged)).
    rewrite bind_get. cbn [orb].
    rewrite (with_surface_size_fresh be s Hchanged).
    destruct ((Rect.w (display_region s) =? 0) || (Rect.h (display_region s) =? 0)).
    + rewrite bind_lock by exact Hlock.
      rewrite bind_modify, bind_unlock, setup_vbo_run.
      eexists. split; [reflexivity|].
      destruct (vbo_error be); repeat split; discriminate.
    + eexists. split; [reflexivity|]. repeat split; assumption.
Qed.

(** X14. The display region is computed when it is needed and kept
    otherwise.  On a redraw, when the surface has the size the sink
    has noted and the region has a width and a height, the region and
    the vertex buffers are left alone.  When the backend reports
    another surface size, or the region has no width or no height, the
    sink notes the size, computes the region anew and sets the vertex
    buffers up once.  With [force-aspect-ratio] off the new region is
    the whole surface, whatever the frame size and the pixel aspect
    ratios. *)
Theorem display_region_kept_until_resize_or_reset
  (lib : GstVideoLib) (be : Backend) (s : GstEglGlesSink) :
  object_lock s = false ->
  display_region
    (result_sink (gst_eglglessink_render_and_display lib be None s))
  = (if region_stale be s
     then default_display_region lib (with_surface_size be s)
     else display_region s)
  /\ List.length
       (filter is_setup_vbo
          (result_trace (gst_eglglessink_render_and_display lib be None s)))
     = (if region_stale be s then 1%nat else 0%nat)
  /\ (force_aspect_ratio s = false ->
      default_display_region lib (with_surface_size be s)
      = {| Rect.x := 0; Rect.y := 0;
           Rect.w := query_surface_width be;
           Rect.h := query_surface_height be |}).
Proof.
  intros Hlock.
  destruct (update_display_region_cases lib be s Hlock)
    as (s' & Hrun & Hregion & _).
  assert (Hdraw : forall s1,
            display_region (result_sink (draw_and_swap be s1)) = display_region s1
            /\ filter is_setup_vbo (result_trace (draw_and_swap be s1)) = []).
  { intros s1. split; [apply draw_and_swap_region|].
    unfold draw_and_swap. rewrite bind_get.
    destruct (buffer_preserved (eglglesctx s1)); cbn [negb];
      rewrite ?bind_assoc, ?bind_emit, ?bind_ret;
      try destruct (border_error be); cbn [negb];
      rewrite ?bind_emit; try reflexivity;
      destruct (video_error be); try reflexivity;
      rewrite bind_emit; destruct (eglSwapBuffers be); reflexivity. }
  unfold gst_eglglessink_render_and_display.
  rewrite bind_ret. cbn [negb].
  rewrite (bind_prepend _ _ _ _ _ _ Hrun).
  rewrite result_sink_prepend, result_trace_prepend, filter_app, length_app.
  split; [|split].
  - destruct (region_stale be s); [destruct (vbo_error be)|]; cbn [negb];
      try (rewrite (proj1 (Hdraw s'))); exact Hregion.
  - destruct (region_stale be s); [destruct (vbo_error be)|]; cbn [negb];
      try (rewrite (proj2 (Hdraw s'))); reflexivity.
  - intros Hforce. unfold default_display_region, with_surface_size.
    sink_simpl. rewrite Hforce. reflexivity.
Qed.

Lemma display_region_kept_until_resize_or_reset_witness :
  display_region
    (result_sink
       (gst_eglglessink_render_and_display GstVideo010.lib Scenario.nominal None
          Scenario.playing))
  = {| Rect.x := 80; Rect.y := 0; Rect.w := 640; Rect.h := 480 |}.
Proof.
  assert (Hlock : object_lock Scenario.playing = false) by (vm_compute; reflexivity).
  rewrite (proj1 (display_region_kept_until_resize_or_reset GstVideo010.lib
                    Scenario.nominal Scenario.playing Hlock)).
  vm_compute. reflexivity.
Defined.

(* ===================================================================== *)
(** ** The window in use *)

Lemma own_window_kept_by_render_item lib be item :
  preserves (fun s => using_own_window s = true) (render_item lib be item).
Proof.
  unfold render_item, configure_for_item, render_cond_broadcast.
  unfold_render. preserves_all.
Qed.

Lemma own_window_kept_by_shutdown be :
  preserves (fun s => using_own_window s = true) (render_thread_shutdown be).
Proof. unfold render_thread_shutdown. unfold_render. preserves_all. Qed.

Lemma own_window_kept_by_render_loop lib world fuel :
  forall k,
    preserves (fun s => using_own_window s = true) (render_loop lib world k fuel).
Proof.
  induction fuel as [|fuel IH]; intros k; cbn [render_loop].
  - apply preserves_ret.
  - apply preserves_bind; [apply preserves_get|]. intros q.
    destruct (gst_data_queue_pop q) as [item q'| |].
    + apply preserves_bind; [apply preserves_modify; auto|]. intros _.
      apply preserves_bind; [apply preserves_emit|]. intros _.
      apply preserves_bind; [apply own_window_kept_by_render_item|].
      intros continue. destruct continue; [apply IH|].
      apply preserves_bind; [apply own_window_kept_by_shutdown|].
      intros _. apply preserves_ret.
    + apply preserves_bind; [apply own_window_kept_by_shutdown|].
      intros _. apply preserves_ret.
    + apply preserves_ret.
Qed.

Lemma set_window_handle_run id s :
  object_lock s = false ->
  exists s',
    gst_eglglessink_set_window_handle id s = Ok tt s' []
    /\ window (eglglesctx s') = id
    /\ have_window s' = negb (id =? 0)
    /\ object_lock s' = false
    /\ using_own_window s' = using_own_window s
    /\ used_window (eglglesctx s') = used_window (eglglesctx s)
    /\ display (eglglesctx s') = display (eglglesctx s)
    /\ thread s' = thread s.
Proof.
  intros Hlock. unfold gst_eglglessink_set_window_handle.
  rewrite bind_lock by exact Hlock.
  rewrite bind_modify. unfold bind, modify, GST_OBJECT_UNLOCK, modify. cbn.
  eexists. split; [reflexivity|]. sink_simpl. repeat split; reflexivity.
Qed.

(** X15. The mark that the sink uses a window of its own is set when
    it creates one and is never cleared: not by the render thread, a
    stop, a close or a start, and not when the application hands a
    window over.  So once the sink has created a window, it takes any
    later window for its own: a window the application hands over is
    used as it is, no native window is created, and the next stop
    destroys it and forgets it. *)
Theorem own_window_mark_is_never_cleared
  (lib : GstVideoLib) (be : Backend) (status : ThreadStatus)
  (world : nat -> Backend) (fuel : nat) (id width height : Z)
  (s : GstEglGlesSink) :
  using_own_window s = true ->
  id <> 0 ->
  using_own_window (result_sink (render_thread_func lib world fuel s)) = true
  /\ using_own_window (result_sink (gst_eglglessink_stop lib be status s)) = true
  /\ using_own_window (result_sink (gst_eglglessink_start be s)) = true
  /\ using_own_window (result_sink (gst_eglglessink_close s)) = true
  /\ using_own_window (result_sink (gst_eglglessink_set_window_handle id s))
     = true
  /\ (object_lock s = false ->
      display (eglglesctx s) <> 0 ->
      exists s1 s2 s3 tr,
        gst_eglglessink_set_window_handle id s = Ok tt s1 []
        /\ configure_window be width height s1
           = Ok true s2 [EvGotWindowHandle id]
        /\ used_window (eglglesctx s2) = id
        /\ gst_eglglessink_stop lib be status s2 = Ok true s3 tr
        /\ In (EvDestroyNativeWindow id) tr
        /\ have_window s3 = false
        /\ used_window (eglglesctx s3) = 0).
Proof.
  intros Hown Hid.
  split; [|split; [|split; [|split; [|split]]]].
  - exact (own_window_kept_by_render_loop lib world fuel 0%nat s Hown).
  - assert (Hp : preserves (fun s => using_own_window s = true)
                   (gst_eglglessink_stop lib be status)).
    { unfold gst_eglglessink_stop, render_cond_broadcast.
      preserves_all; apply own_window_kept_by_render_loop. }
    exact (Hp s Hown).
  - assert (Hp : preserves (fun s => using_own_window s = true)
                   (gst_eglglessink_start be)).
    { unfold gst_eglglessink_start, gst_x_overlay_prepare_xwindow_id,
        gst_eglglessink_set_window_handle, gst_eglglessink_reset_display_region.
      preserves_all. }
    exact (Hp s Hown).
  - assert (Hp : preserves (fun s => using_own_window s = true)
                   gst_eglglessink_close).
    { unfold gst_eglglessink_close. preserves_all. }
    exact (Hp s Hown).
  - assert (Hp : preserves (fun s => using_own_window s = true)
                   (gst_eglglessink_set_window_handle id)).
    { unfold gst_eglglessink_set_window_handle. preserves_all. }
    exact (Hp s Hown).
  - intros Hlock Hdpy.
    destruct (set_window_handle_run id s Hlock)
      as (s1 & Hset & Hwin1 & Hhave1 & Hlock1 & Hown1 & _ & Hdpy1 & _).
    apply Z.eqb_neq in Hid as Hidb. rewrite Hidb in Hhave1. cbn [negb] in Hhave1.
    assert (Hwin : have_window s1 = false ->
                   create_window s1 = true
                   /\ platform_create_native_window be width height <> 0)
      by (rewrite Hhave1; discriminate).
    destruct (configure_window_run be width height s1 Hlock1 Hwin)
      as (s2 & Hcfg & Hused2 & Hlock2 & _).
    unfold rebuild_window in Hcfg, Hused2. rewrite Hhave1, Hwin1 in Hcfg, Hused2.
    cbn [app] in Hcfg.
    pose proof (configure_window_keeps_display be width height s1) as Hk.
    rewrite Hcfg in Hk. cbn [result_sink] in Hk.
    assert (Hown2 : using_own_window s2 = true).
    { assert (Hp : preserves (fun s => using_own_window s = true)
                     (configure_window be width height)).
      { unfold_rebuild. preserves_all. }
      specialize (Hp s1). rewrite Hcfg in Hp. cbn [result_sink] in Hp.
      apply Hp. now rewrite Hown1. }
    assert (Hdpy2 : display (eglglesctx s2) <> 0).
    { rewrite Hk, Hdpy1. exact Hdpy. }
    destruct (stop_run lib be status s2 Hlock2 Hdpy2)
      as (s3 & tr & Hstop & Htr & _ & _ & _ & _ & Hused3 & Hhave3 & _).
    exists s1, s2, s3, tr.
    repeat (split; [assumption|]).
    rewrite Hown2 in Htr, Hhave3.
    split; [|split; assumption].
    rewrite Htr, Hused2. apply in_or_app. right. apply in_or_app. right.
    now left.
Qed.

Lemma own_window_mark_is_never_cleared_witness :
  using_own_window
    (result_sink
       (gst_eglglessink_stop GstVideo010.lib Scenario.nominal ThreadWaiting
          Scenario.playing))
  = true.
Proof.
  assert (Hown : using_own_window Scenario.playing = true)
    by (vm_compute; reflexivity).
  assert (Hid : 9 <> 0) by lia.
  exact (proj1 (proj2 (own_window_mark_is_never_cleared GstVideo010.lib
           Scenario.nominal ThreadWaiting (fun _ => Scenario.nominal) 1 9 640 480
           Scenario.playing Hown Hid))).
Defined.

(* ===================================================================== *)
(** ** The outcome of rendering *)

Lemma draw_and_swap_cases be s :
  exists tr,
    draw_and_swap be s
    = Ok (if (buffer_preserved (eglglesctx s) || negb (border_error be))
             && negb (video_error be) && eglSwapBuffers be
          then GST_FLOW_OK else GST_FLOW_ERROR) s tr
    /\ List.length (filter is_swap tr)
       = (if (buffer_preserved (eglglesctx s) || negb (border_error be))
             && negb (video_error be)
          then 1%nat else 0%nat)
    /\ forallb is_drawing tr = true
    /\ existsb is_upload tr = false
    /\ ((buffer_preserved (eglglesctx s) || negb (border_error be))
        && negb (video_error be) = true ->
        exists tr0, tr = tr0 ++ [EvDrawVideo; EvSwapBuffers]).
Proof.
  unfold draw_and_swap. rewrite bind_get.
  destruct (buffer_preserved (eglglesctx s)); cbn [negb orb];
    rewrite ?bind_assoc, ?bind_emit, ?bind_ret;
    try (destruct (border_error be); cbn [negb]);
    rewrite ?bind_emit;
    try (eexists; split; [reflexivity|];
         repeat split; try reflexivity; discriminate);
    (destruct (video_error be); cbn [negb andb];
     [eexists; split; [reflexivity|];
      repeat split; try reflexivity; discriminate|]);
    rewrite bind_emit;
    destruct (eglSwapBuffers be); cbn [negb];
    eexists; (split; [reflexivity|]);
    repeat split; try reflexivity.
  all: intros _;
    first [exists (@nil Event); reflexivity | exists [EvDrawBorders]; reflexivity].
Qed.

Lemma forallb_map_upload plan : forallb is_upload (map EvTexImage2D plan) = true.
Proof. induction plan; cbn; auto. Qed.

Lemma filter_swap_uploads plan : filter is_swap (map EvTexImage2D plan) = [].
Proof. induction plan; cbn; auto. Qed.

(** X16. [gst_eglglessink_render_and_display] returns GST_FLOW_OK
    exactly when every step it comes to succeeds: the texture uploads
    when it is given a frame, the vertex setup when the display region
    is computed, the border draws when the surface content is not
    preserved, the draw of the frame and the buffer swap; otherwise it
    returns GST_FLOW_ERROR.  The buffers are swapped at most once, and
    on success the swap is the last call, right after the draw of the
    frame.  A frame whose upload fails changes nothing in the sink and
    no call follows the uploads; a redraw uploads nothing. *)
Theorem frame_is_shown_iff_every_step_succeeds
  (lib : GstVideoLib) (be : Backend) (buf : option GstBuffer)
  (s : GstEglGlesSink) :
  object_lock s = false ->
  (buf <> None -> selection_consistent s) ->
  exists s' tr,
    gst_eglglessink_render_and_display lib be buf s
    = Ok (if gl_steps_succeed be buf s then GST_FLOW_OK else GST_FLOW_ERROR)
        s' tr
    /\ object_lock s' = false
    /\ (List.length (filter is_swap tr) <= 1)%nat
    /\ (gl_steps_succeed be buf s = true ->
        exists tr0, tr = tr0 ++ [EvDrawVideo; EvSwapBuffers]
                    /\ filter is_swap tr0 = [])
    /\ (is_buffer buf = true -> glTexImage2D_error be = true ->
        s' = s /\ forallb is_upload tr = true)
    /\ (buf = None -> existsb is_upload tr = false).
Proof.
  intros Hlock Hsel. unfold gst_eglglessink_render_and_display, gl_steps_succeed.
  assert (Hup : exists tr_up,
             (match buf with
              | Some _ => upload_frame lib be
              | None => ret true
              end) s
             = Ok (negb (is_buffer buf) || negb (glTexImage2D_error be)) s tr_up
             /\ forallb is_upload tr_up = true
             /\ filter is_swap tr_up = []
             /\ (buf = None -> tr_up = [])).
  { destruct buf as [b|].
    - destruct Hsel as (fm & Hfm & Hcat & Hfmt); [discriminate|].
      destruct (catalog_format_has_shader_and_upload lib fm (format s) Hcat Hfmt)
        as (_ & Hplan).
      destruct (Hplan (video_width s) (video_height s)) as (plan & Hp).
      exists (map EvTexImage2D plan).
      rewrite (upload_frame_run lib be s fm plan Hfm Hp).
      repeat split; [apply forallb_map_upload | apply filter_swap_uploads|].
      discriminate.
    - exists []. repeat split. }
  destruct Hup as (tr_up & Hup & Hups & Hupw & Hnone).
  rewrite (bind_prepend _ _ _ _ _ _ Hup).
  destruct (negb (is_buffer buf) || negb (glTexImage2D_error be)) eqn:Huploaded;
    cbn [negb andb].
  2: { unfold ret; cbn [prepend]. do 2 eexists. split; [reflexivity|].
       rewrite app_nil_r, Hupw.
       repeat split; try assumption; try discriminate; cbn; try lia.
       intros ->. now rewrite Hnone. }
  destruct (update_display_region_cases lib be s Hlock)
    as (s1 & Hregion & _ & _ & Hlock1 & Hctx1).
  rewrite (bind_prepend _ _ _ _ _ _ Hregion).
  assert (Hbp : buffer_preserved (eglglesctx s1) = buffer_preserved (eglglesctx s)).
  { rewrite Hctx1. reflexivity. }
  assert (Hnoup : is_buffer buf = true -> glTexImage2D_error be = true -> False).
  { intros Hb He. rewrite Hb, He in Huploaded. discriminate. }
  destruct (region_stale be s) eqn:Hstale; cbn [negb orb andb].
  - destruct (vbo_error be) eqn:Hvbo; cbn [negb andb].
    + unfold ret; cbn [prepend]. do 2 eexists. split; [reflexivity|].
      rewrite !filter_app, Hupw.
      repeat split; try assumption; try discriminate; cbn; try lia;
        try (intros; exfalso; auto; fail).
      intros ->. now rewrite Hnone.
    + destruct (draw_and_swap_cases be s1) as (tr & Hdraw & Hswaps & _ & Hnu & Hlast).
      rewrite Hdraw, Hbp in *. cbn [prepend].
      do 2 eexists. split; [reflexivity|].
      rewrite !filter_app, !length_app, Hupw, Hswaps.
      split; [exact Hlock1|].
      split; [destruct (_ && negb (video_error be)); cbn; lia|].
      split; [|split].
      * intros Hok. apply andb_prop in Hok as [Hok _].
        destruct (Hlast Hok) as (tr0 & ->).
        exists (tr_up ++ [EvSetupVbo] ++ tr0).
        split; [now rewrite <- !app_assoc|].
        rewrite Hok in Hswaps.
        rewrite !filter_app, Hupw. cbn [filter is_swap app].
        rewrite filter_app, length_app in Hswaps. cbn in Hswaps.
        destruct (filter is_swap tr0); [reflexivity|cbn in Hswaps; lia].
      * intros; exfalso; auto.
      * intros ->. rewrite (Hnone eq_refl). cbn. exact Hnu.
  - destruct (draw_and_swap_cases be s1) as (tr & Hdraw & Hswaps & _ & Hnu & Hlast).
    rewrite Hdraw, Hbp in *. cbn [prepend].
    do 2 eexists. split; [reflexivity|].
    rewrite !filter_app, !length_app, Hupw, Hswaps.
    split; [exact Hlock1|].
    split; [destruct (_ && negb (video_error be)); cbn; lia|].
    split; [|split].
    + intros Hok. apply andb_prop in Hok as [Hok _].
      destruct (Hlast Hok) as (tr0 & ->).
      exists (tr_up ++ tr0).
      split; [now rewrite <- !app_assoc|].
      rewrite Hok in Hswaps.
      rewrite !filter_app, Hupw. cbn [app].
      rewrite filter_app, length_app in Hswaps. cbn in Hswaps.
      destruct (filter is_swap tr0); [reflexivity|cbn in Hswaps; lia].
    + intros; exfalso; auto.
    + intros ->. rewrite (Hnone eq_refl). cbn. exact Hnu.
Qed.

Lemma frame_is_shown_iff_every_step_succeeds_witness :
  exists s' tr,
    gst_eglglessink_render_and_display GstVideo010.lib
      (Scenario.with_swap_buffers false Scenario.nominal) None Scenario.playing
    = Ok GST_FLOW_ERROR s' tr.
Proof.
  assert (Hlock : object_lock Scenario.playing = false) by (vm_compute; reflexivity).
  assert (Hsel : @None GstBuffer <> None -> selection_consistent Scenario.playing)
    by (intros H; now elim H).
  destruct (frame_is_shown_iff_every_step_succeeds GstVideo010.lib
              (Scenario.with_swap_buffers false Scenario.nominal) None
              Scenario.playing Hlock Hsel) as (s' & tr & Hrun & _).
  exists s', tr. exact Hrun.
Defined.

(* ===================================================================== *)
(** ** What becomes of the queued items *)

Lemma popped_app tr1 tr2 : popped (tr1 ++ tr2) = popped tr1 ++ popped tr2.
Proof. unfold popped. apply flat_map_app. Qed.

Lemma destroys_app tr1 tr2 : destroys (tr1 ++ tr2) = (destroys tr1 + destroys tr2)%nat.
Proof. unfold destroys. now rewrite filter_app, length_app. Qed.

Lemma before_ack_tally tr :
  forallb before_ack tr = true ->
  popped tr = [] /\ destroys tr = 0%nat /\ broadcasts tr = 0%nat.
Proof.
  unfold destroys, broadcasts.
  induction tr as [|e tr IH]; cbn; [auto|].
  intros H. apply andb_prop in H as [He Htr].
  destruct (IH Htr) as (Hp & Hd & Hb).
  destruct e; cbn in *; try discriminate; auto.
Qed.

Lemma ack_trace_tally buf :
  popped (ack_trace buf ++ [EvItemDestroy]) = []
  /\ destroys (ack_trace buf ++ [EvItemDestroy]) = 1%nat
  /\ broadcasts (ack_trace buf ++ [EvItemDestroy])
     = (if is_buffer buf then 1 else 0)%nat.
Proof. unfold ack_trace. destruct (is_buffer buf); repeat split. Qed.

Lemma teardown_trace_tally s :
  popped (teardown_trace s) = []
  /\ destroys (teardown_trace s) = 0%nat
  /\ broadcasts (teardown_trace s) = 0%nat.
Proof.
  unfold teardown_trace.
  destruct (surface (eglglesctx s) =? 0), (eglcontext (eglglesctx s) =? 0);
    repeat split.
Qed.

Lemma configure_for_item_before_ack be buf :
  emits_only before_ack (configure_for_item be buf).
Proof. unfold configure_for_item. unfold_render. frames. Qed.

Lemma render_and_display_before_ack lib be buf :
  emits_only before_ack (gst_eglglessink_render_and_display lib be buf).
Proof. unfold_render. frames. apply emits_uploads. reflexivity. Qed.

Lemma emits_run {A} (P : Event -> bool) (m : M A) s a s1 tr1 :
  emits_only P m -> m s = Ok a s1 tr1 -> forallb P tr1 = true.
Proof. intros Hq Hrun. specialize (Hq s). now rewrite Hrun in Hq. Qed.

Lemma render_item_tail_trace buf s continue s2 tr :
  (when (is_buffer buf) render_cond_broadcast ;;
   emit EvItemDestroy ;;
   flow <- get last_flow ;;
   if negb (GstFlowReturn_beq flow GST_FLOW_OK) then ret false else ret true) s
  = Ok continue s2 tr ->
  tr = ack_trace buf ++ [EvItemDestroy].
Proof.
  unfold render_cond_broadcast, ack_trace.
  destruct (is_buffer buf); msteps;
    destruct (GstFlowReturn_beq (last_flow s) GST_FLOW_OK); cbn;
    intros H; inversion H; subst; reflexivity.
Qed.

(** An iteration that returns has acknowledged its item if it carries a
    frame and has released it, in this order and as its last calls. *)
Lemma render_item_shape lib be item s continue s2 tr :
  render_item lib be item s = Ok continue s2 tr ->
  exists tr0,
    tr = tr0 ++ ack_trace (object item) ++ [EvItemDestroy]
    /\ forallb before_ack tr0 = true.
Proof.
  unfold render_item.
  destruct (configure_for_item be (object item) s)
    as [configured s1 tr1|why s1 tr1] eqn:Hconf;
    [rewrite (bind_prepend _ _ _ _ _ _ Hconf)
    | rewrite (bind_Stuck _ _ _ Hconf); discriminate].
  pose proof (emits_run _ _ _ _ _ _ (configure_for_item_before_ack be (object item))
                Hconf) as Hq1.
  assert (Hbuf : configured = false -> is_buffer (object item) = true).
  { unfold configure_for_item in Hconf.
    destruct (object item) as [b|]; [reflexivity|].
    inversion Hconf. discriminate. }
  destruct configured; cbn [negb].
  - rewrite bind_get.
    intros H. apply prepend_Ok_inv in H as (tr2 & H & ->).
    destruct (configured_caps s1) as [cc|].
    + rewrite bind_assoc in H.
      destruct (gst_eglglessink_render_and_display lib be (object item) s1)
        as [flow s3 tr3|why s3 tr3] eqn:Hrender;
        [rewrite (bind_prepend _ _ _ _ _ _ Hrender) in H
        | rewrite (bind_Stuck _ _ _ Hrender) in H; discriminate].
      rewrite bind_modify in H.
      apply prepend_Ok_inv in H as (tr4 & H & ->).
      apply render_item_tail_trace in H as ->.
      exists (tr1 ++ tr3). split; [now rewrite <- app_assoc|].
      rewrite forallb_app, Hq1.
      exact (emits_run _ _ _ _ _ _
               (render_and_display_before_ack lib be (object item)) Hrender).
    + rewrite bind_ret in H.
      apply render_item_tail_trace in H as ->.
      exists tr1. split; [reflexivity | exact Hq1].
  - unfold render_cond_broadcast. msteps.
    intros H. apply prepend_Ok_inv in H as (tr2 & H & ->).
    inversion H; subst. exists tr1. unfold ack_trace. rewrite (Hbuf eq_refl).
    split; [reflexivity | exact Hq1].
Qed.

Lemma render_loop_accounts lib world fuel :
  forall k s,
    render_inv s ->
    exists status s' tr,
      render_loop lib world k fuel s = Ok status s' tr
      /\ items (queue s) = popped tr ++ items (queue s')
      /\ destroys tr = List.length (popped tr)
      /\ broadcasts tr = frames_of (popped tr)
      /\ (List.length (popped tr) <= fuel)%nat
      /\ flushing (queue s') = flushing (queue s).
Proof.
  induction fuel as [|fuel IH]; intros k s Hinv; cbn [render_loop].
  - exists ThreadRunning, s, []. repeat split. cbn. lia.
  - rewrite bind_get.
    pose proof Hinv as (Hlock & Hdpy & Hcat & Hcons).
    destruct (gst_data_queue_pop (queue s)) as [item q'| |] eqn:Hpop.
    + apply pop_item_not_flushing in Hpop as (Hfl & Hfl' & Hitems).
      rewrite bind_modify, bind_emit.
      destruct (returns_keeps _ _ _ _ (render_item_keeps lib (world k) item)
                  (render_item_returns lib (world k) item (set_queue q' s)
                     (render_inv_set_queue q' s Hinv)))
        as (continue & s2 & tr2 & Hrun & (Hlock2 & _ & Hcons2) & Hk).
      pose proof (render_item_keeps_queue lib (world k) item (set_queue q' s))
        as Hq2.
      rewrite Hrun in Hq2. cbn [result_sink] in Hq2. sink_simpl_in Hq2.
      unfold thread_frame in Hk. sink_simpl_in Hk. split_eqs Hk.
      assert (Hfmts2 : supported_fmts s2 = supported_fmts s) by congruence.
      assert (Hdpy2 : display (eglglesctx s2) <> 0) by congruence.
      destruct (render_item_shape lib (world k) item _ _ _ _ Hrun)
        as (tr0 & Htr2 & Hquiet).
      destruct (before_ack_tally tr0 Hquiet) as (Hp0 & Hd0 & Hb0).
      destruct (ack_trace_tally (object item)) as (Hp1 & Hd1 & Hb1).
      assert (Htally2 : popped tr2 = [] /\ destroys tr2 = 1%nat
                        /\ broadcasts tr2
                           = (if is_buffer (object item) then 1 else 0)%nat).
      { rewrite Htr2, popped_app, destroys_app, broadcasts_app.
        rewrite Hp0, Hd0, Hb0, Hp1, Hd1, Hb1. repeat split. }
      destruct Htally2 as (Hp2 & Hd2 & Hb2).
      rewrite (bind_prepend _ _ _ _ _ _ Hrun). clear Hrun.
      destruct continue.
      * assert (Hinv2 : render_inv s2).
        { repeat split; auto.
          unfold catalog_known. rewrite Hfmts2. exact Hcat. }
        destruct (IH (S k) s2 Hinv2)
          as (status & s3 & tr3 & Hloop & Hitems3 & Hd3 & Hb3 & Hlen3 & Hfl3).
        rewrite Hloop. cbn [prepend].
        exists status, s3, ([EvQueuePop item] ++ tr2 ++ tr3).
        split; [reflexivity|].
        rewrite !popped_app, !destroys_app, !broadcasts_app.
        rewrite Hp2, Hd2, Hb2, Hd3, Hb3. cbn [popped flat_map app].
        rewrite Hitems, <- Hitems3, Hq2.
        unfold destroys, broadcasts, frames_of. cbn [filter is_broadcast is_item_destroy List.length].
        repeat split.
        -- destruct (is_buffer (object item)); reflexivity.
        -- cbn [Nat.add]. lia.
        -- rewrite Hfl3, Hq2. congruence.
      * destruct (render_thread_shutdown_run (world k) s2 Hlock2 Hdpy2)
          as (s3 & Hsd & _).
        pose proof (render_thread_shutdown_keeps_queue (world k) s2) as Hq3.
        rewrite (bind_Ok _ _ _ Hsd) in *. cbn [ret result_sink] in Hq3.
        cbn [prepend].
        destruct (teardown_trace_tally s2) as (Hp3 & Hd3 & Hb3).
        exists ThreadExited, s3, ([EvQueuePop item] ++ tr2 ++ teardown_trace s2 ++ []).
        split; [reflexivity|].
        rewrite app_nil_r, !popped_app, !destroys_app, !broadcasts_app.
        rewrite Hp2, Hd2, Hb2, Hp3, Hd3, Hb3. cbn [popped flat_map app].
        rewrite Hitems, Hq3, Hq2.
        unfold destroys, broadcasts, frames_of. cbn [filter is_broadcast is_item_destroy List.length].
        repeat split.
        -- destruct (is_buffer (object item)); reflexivity.
        -- cbn. lia.
        -- congruence.
    + destruct (render_thread_shutdown_run (world k) s Hlock Hdpy)
        as (s3 & Hsd & _).
      pose proof (render_thread_shutdown_keeps_queue (world k) s) as Hq3.
      rewrite (bind_Ok _ _ _ Hsd) in *. cbn [ret result_sink] in Hq3.
      destruct (teardown_trace_tally s) as (Hp3 & Hd3 & Hb3).
      exists ThreadExited, s3, (teardown_trace s ++ []).
      split; [reflexivity|].
      rewrite app_nil_r, Hp3, Hd3, Hb3, Hq3. repeat split. cbn. lia.
    + exists ThreadWaiting, s, []. repeat split. cbn. lia.
Qed.

(** X17. The render thread handles the queued items in order and each
    of them once.  From a sink as the head of its loop wants it,
    [render_thread_func] returns from any number of iterations, and in
    the calls it has made the items popped are the first items of the
    queue, in the order of the queue, none left out; what it has not
    popped is still queued.  Every popped item has been released with
    one call of its destroy function, none twice, and the render
    condition has been broadcast once for each popped item that carries
    a frame and not for a redraw.  The thread does not set or clear
    the flushing mark of the queue. *)
Theorem render_thread_handles_each_item_once_in_order
  (lib : GstVideoLib) (world : nat -> Backend) (fuel : nat) (s : GstEglGlesSink) :
  render_inv s ->
  exists status s' tr,
    render_thread_func lib world fuel s = Ok status s' tr
    /\ items (queue s) = popped tr ++ items (queue s')
    /\ destroys tr = List.length (popped tr)
    /\ broadcasts tr = frames_of (popped tr)
    /\ (List.length (popped tr) <= fuel)%nat
    /\ flushing (queue s') = flushing (queue s).
Proof.
  intros Hinv. unfold render_thread_func.
  exact (render_loop_accounts lib world fuel 0%nat s Hinv).
Qed.

Lemma render_thread_handles_each_item_once_in_order_witness :
  exists status s' tr,
    render_thread_func GstVideo010.lib (fun _ => Scenario.nominal) 2
      Scenario.pushed = Ok status s' tr
    /\ items (queue Scenario.pushed) = popped tr ++ items (queue s').
Proof.
  assert (Hinv : render_inv Scenario.pushed).
  { split; [vm_compute; reflexivity|]. split; [vm_compute; discriminate|].
    split.
    - intros fm Hin. vm_compute in Hin.
      destruct Hin as [H | [H | [H | []]]]; inversion H; subst; cbn; tauto.
    - intros Hcc. exfalso. apply Hcc. vm_compute. reflexivity. }
  destruct (render_thread_handles_each_item_once_in_order GstVideo010.lib
              (fun _ => Scenario.nominal) 2 Scenario.pushed Hinv)
    as (status & s' & tr & Hrun & Hitems & _).
  exists status, s', tr. split; assumption.
Defined.

(* ===================================================================== *)
(** ** Caps the sink cannot configure *)

Lemma configure_caps_unconfigurable be c s :
  unconfigurable s c ->
  exists s1,
    gst_eglglessink_configure_caps be c s = Ok false s1 []
    /\ negotiated s1 = negotiated s
    /\ object_lock s1 = object_lock s
    /\ queue s1 = queue s
    /\ current_caps s1 = current_caps s
    /\ thread s1 = thread s.
Proof.
  intros Hun. unfold unconfigurable in Hun. unfold gst_eglglessink_configure_caps.
  destruct (gst_video_format_parse_caps (option_map caps_val c))
    as [[[f width] height]|] eqn:Hparse.
  - destruct Hun as [Hun | Hun]; [discriminate|].
    rewrite bind_modify, bind_get.
    unfold gst_eglglessink_get_compat_format_from_caps in *. sink_simpl.
    rewrite Hun. eexists. split; [reflexivity|]. repeat split.
  - exists s. repeat split.
Qed.

(** X18. The sink accepts any caps in [gst_eglglessink_setcaps]; caps
    it cannot configure are refused when the first frame that carries
    them is rendered.  When the caps are not fixed video caps of a known
    format and size, or no entry of the list of supported formats can
    intersect them, the render thread makes no backend call for the
    frame: it sets [last_flow] to GST_FLOW_NOT_NEGOTIATED, acknowledges
    and releases the item, leaves its loop, and releases the EGL/GLES
    resources and the caps configured before.  The producer woken
    from its wait returns GST_FLOW_NOT_NEGOTIATED. *)
Theorem unconfigurable_caps_are_refused_with_the_frame
  (lib : GstVideoLib) (world : nat -> Backend) (fuel : nat)
  (c : option GstCapsObj) (b : GstBuffer) (s : GstEglGlesSink) :
  object_lock s = false ->
  display (eglglesctx s) <> 0 ->
  flushing (queue s) = false ->
  items (queue s) = [] ->
  caps_ptr_eqb c (configured_caps s) = false ->
  unconfigurable s c ->
  exists s1 s2 s3 item,
    gst_eglglessink_setcaps c s = Ok true s1 []
    /\ gst_eglglessink_show_frame b s1
       = Ok WaitingForRender s2
           [EvRenderLock; EvQueuePush item; EvRenderCondWait]
    /\ object item
       = Some {| buf_id := buf_id b; buf_caps := c;
                 buf_size := buf_size b; buf_duration := buf_duration b |}
    /\ render_thread_func lib world (S fuel) s2
       = Ok ThreadExited s3
           ([EvQueuePop item; EvRenderLock; EvRenderCondBroadcast;
             EvRenderUnlock; EvItemDestroy] ++ teardown_trace s)
    /\ queue_buffer_resume s3
       = Ok GST_FLOW_NOT_NEGOTIATED s3 [EvRenderUnlock]
    /\ torn_down s3
    /\ configured_caps s3 = None
    /\ items (queue s3) = [].
Proof.
  intros Hlock Hdpy Hfl Hitems Hptr Hun.
  set (buf := {| buf_id := buf_id b; buf_caps := c;
                 buf_size := buf_size b; buf_duration := buf_duration b |}).
  set (s1 := set_current_caps c s).
  set (s2 := set_queue (enqueue (queue_item (Some buf)) (queue s1)) s1).
  assert (Hshow : gst_eglglessink_show_frame b s1
                  = Ok WaitingForRender s2
                      [EvRenderLock; EvQueuePush (queue_item (Some buf));
                       EvRenderCondWait]).
  { unfold gst_eglglessink_show_frame. rewrite bind_get.
    exact (queue_buffer_accepted (Some buf) s1 Hfl
             (queue_not_full_empty (queue s1) Hitems)). }
  set (q' := {| flushing := false; items := [] |}).
  assert (Hpop : gst_data_queue_pop (queue s2)
                 = PopItem (queue_item (Some buf)) q').
  { unfold gst_data_queue_pop, s2, s1, enqueue. sink_simpl.
    cbn [flushing items]. rewrite Hitems. reflexivity. }
  assert (Hun' : unconfigurable (set_queue q' s2) c) by exact Hun.
  destruct (configure_caps_unconfigurable (world 0%nat) c (set_queue q' s2) Hun')
    as (s3 & Hcfg & Hneg & Hlock3 & Hq3 & _).
  set (s4 := set_last_flow GST_FLOW_NOT_NEGOTIATED s3).
  assert (Hitem : render_item lib (world 0%nat) (queue_item (Some buf))
                    (set_queue q' s2)
                  = Ok false s4
                      [EvRenderLock; EvRenderCondBroadcast; EvRenderUnlock;
                       EvItemDestroy]).
  { unfold render_item, configure_for_item. cbn [object queue_item].
    rewrite bind_assoc, bind_get. sink_simpl. cbn [buf_caps buf].
    change (configured_caps s2) with (configured_caps s).
    rewrite Hptr. cbn [negb].
    rewrite (bind_Ok _ _ _ Hcfg). cbn [negb app].
    unfold render_cond_broadcast. msteps. reflexivity. }
  unfold negotiated, s2, s1 in Hneg. sink_simpl_in Hneg. split_eqs Hneg.
  unfold s2, s1 in Hlock3, Hq3. sink_simpl_in Hlock3. sink_simpl_in Hq3.
  assert (Hlock4 : object_lock s4 = false) by (unfold s4; sink_simpl; congruence).
  assert (Hdpy4 : display (eglglesctx s4) <> 0).
  { unfold s4. sink_simpl.
    replace (eglglesctx s3) with (eglglesctx s) by congruence. exact Hdpy. }
  destruct (render_thread_shutdown_run (world 0%nat) s4 Hlock4 Hdpy4)
    as (s5 & Hsd & Htorn & Hcc & Hflow & _).
  pose proof (render_thread_shutdown_keeps_queue (world 0%nat) s4) as Hq5.
  rewrite (bind_Ok _ _ _ Hsd) in Hq5. cbn [ret result_sink] in Hq5.
  assert (Htd : teardown_trace s4 = teardown_trace s).
  { unfold teardown_trace, s4. sink_simpl.
    replace (eglglesctx s3) with (eglglesctx s) by congruence. reflexivity. }
  exists s1, s2, s5, (queue_item (Some buf)).
  split; [reflexivity|]. split; [exact Hshow|]. split; [reflexivity|].
  split.
  { unfold render_thread_func.
    rewrite (render_loop_break lib world 0 fuel s2 _ _ _ _ Hpop Hitem).
    rewrite (bind_Ok _ _ _ Hsd). cbn [ret prepend].
    rewrite app_nil_r, Htd. reflexivity. }
  split.
  { unfold queue_buffer_resume. rewrite bind_emit. cbn [get prepend].
    rewrite Hflow. unfold s4. sink_simpl. reflexivity. }
  split; [exact Htorn|]. split; [exact Hcc|].
  rewrite Hq5. unfold s4. sink_simpl. rewrite Hq3. reflexivity.
Qed.

Lemma unconfigurable_caps_are_refused_with_the_frame_witness :
  exists s3 tr,
    render_thread_func GstVideo010.lib (fun _ => Scenario.nominal) 1
      (result_sink
         (gst_eglglessink_show_frame (Scenario.frame 2 Scenario.rgba_640x480)
            (result_sink (gst_eglglessink_setcaps None Scenario.playing))))
    = Ok ThreadExited s3 tr
    /\ queue_buffer_resume s3 = Ok GST_FLOW_NOT_NEGOTIATED s3 [EvRenderUnlock].
Proof.
  assert (Hlock : object_lock Scenario.playing = false) by (vm_compute; reflexivity).
  assert (Hdpy : display (eglglesctx Scenario.playing) <> 0)
    by (vm_compute; discriminate).
  assert (Hfl : flushing (queue Scenario.playing) = false)
    by (vm_compute; reflexivity).
  assert (Hitems : items (queue Scenario.playing) = [])
    by (vm_compute; reflexivity).
  assert (Hptr : caps_ptr_eqb None (configured_caps Scenario.playing) = false)
    by (vm_compute; reflexivity).
  assert (Hun : unconfigurable Scenario.playing None) by (left; reflexivity).
  destruct (unconfigurable_caps_are_refused_with_the_frame GstVideo010.lib
              (fun _ => Scenario.nominal) 0
              None (Scenario.frame 2 Scenario.rgba_640x480) Scenario.playing
              Hlock Hdpy Hfl Hitems Hptr Hun)
    as (s1 & s2 & s3 & item & Hset & Hshow & _ & Hrun & Hres & _).
  exists s3. eexists. split; [|exact Hres].
  rewrite Hset. cbn [result_sink]. rewrite Hshow. cbn [result_sink].
  exact Hrun.
Defined.

(* ===================================================================== *)
(** ** A window handed over by the application *)

Section Guarded.

Context (I : GstEglGlesSink -> Prop) (P : Event -> bool).

Lemma guarded_ret {A} (a : A) : guarded I P (ret a).
Proof. intros s H. now split. Qed.

Lemma guarded_halt {A} why : guarded I P (@halt A why).
Proof. intros s H. now split. Qed.

Lemma guarded_get {A} (g : GstEglGlesSink -> A) : guarded I P (get g).
Proof. intros s H. now split. Qed.

Lemma guarded_emit e : P e = true -> guarded I P (emit e).
Proof. intros He s H. split; [exact H|]. cbn. now rewrite He. Qed.

Lemma guarded_modify g : (forall s, I s -> I (g s)) -> guarded I P (modify g).
Proof. intros Hg s H. split; [now apply Hg | reflexivity]. Qed.

Lemma guarded_bind {A B} (m : M A) (f : A -> M B) :
  guarded I P m -> (forall a, guarded I P (f a)) -> guarded I P (bind m f).
Proof.
  intros Hm Hf s H. unfold bind.
  destruct (Hm s H) as [HI Htr].
  destruct (m s) as [a s1 tr1|why s1 tr1]; cbn in HI, Htr; [|now split].
  destruct (Hf a s1 HI) as [HI2 Htr2].
  destruct (f a s1) as [b s2 tr2|why s2 tr2]; cbn in HI2, Htr2; cbn;
    rewrite forallb_app, Htr, Htr2; now split.
Qed.

(** A test of a field whose value the invariant fixes. *)
Lemma guarded_get_known {A B} (g : GstEglGlesSink -> A) (v : A) (f : A -> M B) :
  (forall s, I s -> g s = v) -> guarded I P (f v) -> guarded I P (bind (get g) f).
Proof.
  intros Hg Hf s H. rewrite bind_get, (Hg s H). now apply Hf.
Qed.

Lemma guarded_when b (m : M unit) : guarded I P m -> guarded I P (when b m).
Proof. intros H. destruct b; [exact H | apply guarded_ret]. Qed.

Lemma guarded_lock :
  (forall b s, I s -> I (set_object_lock b s)) -> guarded I P GST_OBJECT_LOCK.
Proof.
  intros Hl s H. unfold GST_OBJECT_LOCK.
  destruct (object_lock s); cbn; split; auto.
Qed.

Lemma guarded_unlock :
  (forall b s, I s -> I (set_object_lock b s)) -> guarded I P GST_OBJECT_UNLOCK.
Proof. intros Hl. apply guarded_modify. intros s. apply Hl. Qed.

Lemma guarded_uploads (plan : list TexImage) :
  (forall t, P (EvTexImage2D t) = true) ->
  guarded I P (fold_right (fun t k => emit (EvTexImage2D t) ;; k) (ret tt) plan).
Proof.
  intros HP s H. rewrite emit_uploads_run. cbn. split; [exact H|].
  induction plan as [|t plan IH]; cbn; [reflexivity|]. now rewrite HP.
Qed.

End Guarded.

Ltac app_window_kept :=
  intros; lazymatch goal with
  | H : holds_app_window _ _ |- _ =>
      destruct H as (? & ? & ?); repeat split; assumption
  end.

Ltac guarded_step :=
  lazymatch goal with
  | |- guarded _ _ (bind (get have_window) _) =>
      apply (guarded_get_known _ _ have_window true);
      [intros ? H; apply H | cbv beta; cbn [negb when andb]]
  | |- guarded _ _ (bind (get using_own_window) _) =>
      apply (guarded_get_known _ _ using_own_window false);
      [intros ? H; apply H | cbv beta; cbn [negb when andb]]
  | |- guarded _ _ (bind _ _) => apply guarded_bind; [|intros ?]
  | |- guarded _ _ (ret _) => apply guarded_ret
  | |- guarded _ _ (halt _) => apply guarded_halt
  | |- guarded _ _ (get _) => apply guarded_get
  | |- guarded _ _ (emit _) => apply guarded_emit; reflexivity
  | |- guarded _ _ (when _ _) => apply guarded_when
  | |- guarded _ _ GST_OBJECT_LOCK => apply guarded_lock; app_window_kept
  | |- guarded _ _ GST_OBJECT_UNLOCK => apply guarded_unlock; app_window_kept
  | |- guarded _ _ (modify _) => apply guarded_modify; app_window_kept
  | |- guarded _ _ (fold_right _ _ _) => apply guarded_uploads; reflexivity
  | |- guarded _ _ (if ?c then _ else _) => destruct c
  | |- guarded _ _ (match ?x with _ => _ end) => destruct x
  | |- guarded _ _ (let (_, _) := ?x in _) => destruct x
  end.

Ltac guarded_all := repeat guarded_step.

Lemma app_window_render_item lib be id item :
  guarded (holds_app_window id) no_native_window (render_item lib be item).
Proof.
  unfold render_item, configure_for_item, render_cond_broadcast.
  unfold_render. guarded_all.
Qed.

Lemma app_window_shutdown be id :
  guarded (holds_app_window id) no_native_window (render_thread_shutdown be).
Proof. unfold render_thread_shutdown. unfold_render. guarded_all. Qed.

Lemma app_window_render_loop lib world id fuel :
  forall k,
    guarded (holds_app_window id) no_native_window (render_loop lib world k fuel).
Proof.
  induction fuel as [|fuel IH]; intros k; cbn [render_loop].
  - apply guarded_ret.
  - apply guarded_bind; [apply guarded_get|]. intros q.
    destruct (gst_data_queue_pop q) as [item q'| |].
    + apply guarded_bind; [apply guarded_modify; auto|]. intros _.
      apply guarded_bind; [apply guarded_emit; reflexivity|]. intros _.
      apply guarded_bind; [apply app_window_render_item|].
      intros continue. destruct continue; [apply IH|].
      apply guarded_bind; [apply app_window_shutdown|].
      intros _. apply guarded_ret.
    + apply guarded_bind; [apply app_window_shutdown|].
      intros _. apply guarded_ret.
    + apply guarded_ret.
Qed.

(** X19. A window handed over by the application stays the
    application's.  As long as the sink has not created a window of
    its own, the render thread, a start and a stop keep the handle,
    keep the sink from marking the window as its own, and neither
    create nor destroy a native window, whatever the queue holds and
    whatever the backend answers; caps configuration takes the
    application's window as the window in use. *)
Theorem application_window_is_neither_replaced_nor_destroyed
  (lib : GstVideoLib) (be : Backend) (status : ThreadStatus)
  (world : nat -> Backend) (fuel : nat) (id width height : Z)
  (s : GstEglGlesSink) :
  holds_app_window id s ->
  (holds_app_window id (result_sink (render_thread_func lib world fuel s))
   /\ existsb is_native_window
        (result_trace (render_thread_func lib world fuel s)) = false)
  /\ (holds_app_window id (result_sink (gst_eglglessink_start be s))
      /\ existsb is_native_window
           (result_trace (gst_eglglessink_start be s)) = false)
  /\ (holds_app_window id (result_sink (gst_eglglessink_stop lib be status s))
      /\ existsb is_native_window
           (result_trace (gst_eglglessink_stop lib be status s)) = false)
  /\ (object_lock s = false ->
      exists s',
        configure_window be width height s = Ok true s' [EvGotWindowHandle id]
        /\ used_window (eglglesctx s') = id).
Proof.
  intros Happ.
  assert (Hstart : guarded (holds_app_window id) no_native_window
                     (gst_eglglessink_start be)).
  { unfold gst_eglglessink_start, gst_eglglessink_reset_display_region.
    guarded_all. }
  assert (Hstop : guarded (holds_app_window id) no_native_window
                    (gst_eglglessink_stop lib be status)).
  { unfold gst_eglglessink_stop, render_cond_broadcast.
    guarded_all; apply app_window_render_loop. }
  split; [|split; [|split]].
  - destruct (app_window_render_loop lib world id fuel 0%nat s Happ) as [HI Htr].
    split; [exact HI | now apply forallb_negb_existsb].
  - destruct (Hstart s Happ) as [HI Htr].
    split; [exact HI | now apply forallb_negb_existsb].
  - destruct (Hstop s Happ) as [HI Htr].
    split; [exact HI | now apply forallb_negb_existsb].
  - intros Hlock. destruct Happ as (Hhave & Hown & Hwin).
    assert (Hw : have_window s = false ->
                 create_window s = true
                 /\ platform_create_native_window be width height <> 0)
      by (rewrite Hhave; discriminate).
    destruct (configure_window_run be width height s Hlock Hw)
      as (s' & Hcfg & Hused & _).
    unfold rebuild_window in Hcfg, Hused. rewrite Hhave, Hwin in Hcfg, Hused.
    exists s'. split; assumption.
Qed.

Lemma application_window_is_neither_replaced_nor_destroyed_witness :
  existsb is_native_window
    (result_trace
       (gst_eglglessink_stop GstVideo010.lib Scenario.nominal ThreadWaiting
          (result_sink (gst_eglglessink_set_window_handle 9 Scenario.paused))))
  = false.
Proof.
  assert (Happ : holds_app_window 9
            (result_sink (gst_eglglessink_set_window_handle 9 Scenario.paused))).
  { repeat split; vm_compute; reflexivity. }
  exact (proj2 (proj1 (proj2 (proj2
           (application_window_is_neither_replaced_nor_destroyed GstVideo010.lib
              Scenario.nominal ThreadWaiting (fun _ => Scenario.nominal) 1 9
              640 480 _ Happ))))).
Defined.

(* ===================================================================== *)
(** ** State changes on the way up *)

Lemma open_run min_version be s :
  object_lock s = false ->
  exists ok s' tr,
    gst_eglglessink_open min_version be s = Ok ok s' tr
    /\ egl_init min_version be s = Ok ok s' tr
    /\ (ok = true <-> egl_usable min_version be)
    /\ (ok = true ->
        egl_started s' = true /\ display (eglglesctx s') = eglGetDisplay be).
Proof.
  intros Hlock.
  destruct (egl_init_run min_version be s Hlock)
    as (ok & s' & tr & Hrun & Hiff & _ & _ & Hok & _).
  exists ok, s', tr. split; [|split; [exact Hrun|split; [exact Hiff|]]].
  - unfold gst_eglglessink_open. rewrite (bind_prepend _ _ _ _ _ _ Hrun).
    destruct ok; unfold ret; cbn [negb prepend]; now rewrite app_nil_r.
  - intros H. destruct (Hok H) as (H1 & H2 & _). now split.
Qed.

(** X20. On the way up the element goes first and nothing is taken
    back.  A NULL to READY change does to the sink what
    [gst_eglglessink_open] does, a READY to PAUSED change what
    [gst_eglglessink_start] does, with the same calls; the change
    returns GST_STATE_CHANGE_FAILURE when that function fails, and
    what the parent class returns when it succeeds.  So when the parent
    class fails the change after the sink's own part succeeded, the
    caller is told of a failure while the display stays initialised,
    and the render thread stays created with the queue open: the sink
    does not close or stop what it has opened or started. *)
Theorem state_change_up_is_not_rolled_back
  (lib : GstVideoLib) (min_version : Z) (be : Backend) (status : ThreadStatus)
  (s : GstEglGlesSink) :
  object_lock s = false ->
  (exists ok s' tr,
      gst_eglglessink_open min_version be s = Ok ok s' tr
      /\ gst_eglglessink_change_state lib min_version be status
           GST_STATE_CHANGE_NULL_TO_READY s
         = Ok (if ok then parent_change_state be GST_STATE_CHANGE_NULL_TO_READY
               else GST_STATE_CHANGE_FAILURE) s' tr
      /\ (ok = true <-> egl_usable min_version be)
      /\ (ok = true ->
          egl_started s' = true
          /\ display (eglglesctx s') = eglGetDisplay be
          /\ display (eglglesctx s') <> 0))
  /\ (exists ok s' tr,
         gst_eglglessink_start be s = Ok ok s' tr
         /\ gst_eglglessink_change_state lib min_version be status
              GST_STATE_CHANGE_READY_TO_PAUSED s
            = Ok (if ok then parent_change_state be GST_STATE_CHANGE_READY_TO_PAUSED
                  else GST_STATE_CHANGE_FAILURE) s' tr
         /\ (ok = true ->
             thread s' = true
             /\ queue s' = gst_data_queue_set_flushing (queue s) false
             /\ last_flow s' = GST_FLOW_OK)).
Proof.
  intros Hlock. split.
  - destruct (open_run min_version be s Hlock)
      as (ok & s' & tr & Hopen & _ & Hiff & Hok).
    exists ok, s', tr. split; [exact Hopen|]. split; [|split; [exact Hiff|]].
    + unfold gst_eglglessink_change_state.
      rewrite (bind_prepend _ _ _ _ _ _ Hopen).
      destruct ok; cbn [negb]; [|unfold ret; cbn; now rewrite app_nil_r].
      destruct (parent_change_state be GST_STATE_CHANGE_NULL_TO_READY);
        rewrite ?bind_ret; unfold ret; cbn; now rewrite app_nil_r.
    + intros H. destruct (Hok H) as (H1 & H2).
      split; [exact H1|]. split; [exact H2|].
      rewrite H2. apply Hiff in H. apply H.
  - destruct (start_run be s Hlock)
      as (ok & s' & tr & Hstart & _ & _ & _ & Hok & _).
    exists ok, s', tr. split; [exact Hstart|]. split.
    + unfold gst_eglglessink_change_state.
      rewrite (bind_prepend _ _ _ _ _ _ Hstart).
      destruct ok; cbn [negb]; [|unfold ret; cbn; now rewrite app_nil_r].
      destruct (parent_change_state be GST_STATE_CHANGE_READY_TO_PAUSED);
        rewrite ?bind_ret; unfold ret; cbn; now rewrite app_nil_r.
    + intros H. destruct (Hok H) as (H1 & H2 & H3 & _). auto.
Qed.

Lemma state_change_up_is_not_rolled_back_witness :
  exists ok s' tr,
    gst_eglglessink_start Scenario.nominal gst_eglglessink_init = Ok ok s' tr
    /\ gst_eglglessink_change_state GstVideo010.lib 1 Scenario.nominal
         ThreadExited GST_STATE_CHANGE_READY_TO_PAUSED gst_eglglessink_init
       = Ok (if ok
             then parent_change_state Scenario.nominal
                    GST_STATE_CHANGE_READY_TO_PAUSED
             else GST_STATE_CHANGE_FAILURE) s' tr.
Proof.
  destruct (proj2 (state_change_up_is_not_rolled_back GstVideo010.lib 1
                     Scenario.nominal ThreadExited gst_eglglessink_init eq_refl))
    as (ok & s' & tr & Hstart & Hchange & _).
  exists ok, s', tr. split; assumption.
Defined.

(* ===================================================================== *)
(** ** The render lock on the producer side *)

(** X21. [gst_eglglessink_queue_buffer] takes the render lock for a
    frame only, but releases it whenever the push is refused.  Over the
    whole call, the waits and what follows them included, a frame locks
    and unlocks once whether the push is refused or not (a producer
    that still waits for room holds the lock), and a redraw that is
    accepted does not touch the lock.  A redraw that is
    refused, as [gst_eglglessink_expose] is after a stop, unlocks the
    render lock without having locked it: on a flushing queue its
    calls are the push and the unlock, and the sink is left as it was;
    a redraw that waited for room and finds the queue flushing when it
    is woken does the same. *)
Theorem refused_redraw_unlocks_a_lock_never_taken
  (buf : option GstBuffer) (s woken : GstEglGlesSink) :
  render_lock_balance (producer_trace buf s woken)
  = (if push_refused s woken && negb (is_buffer buf) then -1
     else if still_waits_for_room s woken && is_buffer buf then 1
     else 0)
  /\ (flushing (queue s) = true ->
      gst_eglglessink_expose s
      = Ok (Returned GST_FLOW_WRONG_STATE) s
          [EvQueuePush (queue_item None); EvRenderUnlock])
  /\ (flushing (queue s) = false ->
      existsb is_render_unlock (result_trace (gst_eglglessink_expose s)) = false
      /\ existsb is_render_lock (result_trace (gst_eglglessink_expose s)) = false).
Proof.
  split; [|split].
  - unfold producer_trace, push_refused, still_waits_for_room.
    destruct (flushing (queue s)) eqn:Hfl.
    + rewrite (queue_buffer_flushing buf s Hfl).
      cbn [result_trace result_value result_sink orb andb].
      destruct buf; reflexivity.
    + destruct (gst_data_queue_is_full (queue s)) eqn:Hfull.
      * rewrite (queue_buffer_full buf s Hfl Hfull).
        cbn [result_trace result_value result_sink orb andb].
        destruct (flushing (queue woken)) eqn:Hfl'.
        -- rewrite (queue_buffer_push_flushing buf woken Hfl').
           destruct buf; reflexivity.
        -- destruct (gst_data_queue_is_full (queue woken)) eqn:Hfull'.
           ++ rewrite (queue_buffer_push_full buf woken Hfl' Hfull').
              destruct buf; reflexivity.
           ++ rewrite (queue_buffer_push_accepted buf woken Hfl' Hfull').
              destruct buf; reflexivity.
      * rewrite (queue_buffer_accepted buf s Hfl Hfull).
        destruct buf; reflexivity.
  - intros Hfl. unfold gst_eglglessink_expose.
    exact (queue_buffer_flushing None s Hfl).
  - intros Hfl. unfold gst_eglglessink_expose.
    destruct (gst_data_queue_is_full (queue s)) eqn:Hfull.
    + rewrite (queue_buffer_full None s Hfl Hfull). split; reflexivity.
    + rewrite (queue_buffer_accepted None s Hfl Hfull). split; reflexivity.
Qed.

(* ===================================================================== *)
(** * Frame handoff, with the wait for room *)





Lemma shutdown_keeps_failed_flow be s :
  last_flow s <> GST_FLOW_OK ->
  last_flow (result_sink ((render_thread_shutdown be ;; ret ThreadExited) s))
  = last_flow s.
Proof.
  intros Hflow.
  assert (Hk : keeps last_flow
                 (gst_eglglessink_wipe_eglglesctx be ;;
                  modify (set_configured_caps None) ;; ret ThreadExited)).
  { apply keeps_bind; [apply wipe_keeps_last_flow|]. intros _.
    apply keeps_bind; [apply keeps_modify; reflexivity|]. intros _.
    apply keeps_ret. }
  assert (Hb : GstFlowReturn_beq (last_flow s) GST_FLOW_OK = false)
    by (destruct (last_flow s); try reflexivity; now elim Hflow).
  unfold render_thread_shutdown.
  rewrite !bind_assoc, bind_get. cbv beta. rewrite Hb.
  unfold when. rewrite !bind_assoc, bind_ret, !bind_assoc. apply Hk.
Qed.

(** C2, as the code has it.  When the iteration on a popped item ends
    with a [last_flow] that is not GST_FLOW_OK, the render thread has
    acknowledged the item if it carries a frame (one broadcast) and not
    if it is the redraw sentinel, which nobody waits for; it then
    leaves the loop: what follows is the teardown and nothing else, the
    items still queued stay in the queue and [last_flow] stays what the
    iteration made it.  The thread does not mark the queue flushing, so
    a later push is not refused.  With room in the queue the sentinel
    returns GST_FLOW_OK, and a frame is enqueued and its producer
    waits on the render condition; woken before [last_flow] is written
    again, it returns the [last_flow] the thread has left, which is not
    GST_FLOW_OK.  When the queue
    still holds a frame the push waits for room; it is refused with
    GST_FLOW_WRONG_STATE once it finds the queue flushing. *)
Theorem render_loop_leaves_on_failure
  (lib : GstVideoLib) (world : nat -> Backend) (k fuel : nat) (s : GstEglGlesSink)
  (item : GstDataQueueItem) (q' : GstDataQueue) (continue : bool)
  (s2 : GstEglGlesSink) (tr2 : list Event) :
  gst_data_queue_pop (queue s) = PopItem item q' ->
  render_item lib (world k) item (set_queue q' s) = Ok continue s2 tr2 ->
  last_flow s2 <> GST_FLOW_OK ->
  let s3 := result_sink (render_loop lib world k (S fuel) s) in
  broadcasts tr2 = (if is_buffer (object item) then 1 else 0)%nat
  /\ render_loop lib world k (S fuel) s
     = prepend (EvQueuePop item :: tr2)
         ((render_thread_shutdown (world k) ;; ret ThreadExited) s2)
  /\ emits_only is_teardown (render_thread_shutdown (world k) ;; ret ThreadExited)
  /\ queue s3 = q'
  /\ flushing q' = false
  /\ last_flow s3 = last_flow s2
  /\ (forall buf,
        (gst_data_queue_is_full q' = false ->
         gst_eglglessink_queue_buffer buf s3
         = Ok (if is_buffer buf then WaitingForRender else Returned GST_FLOW_OK)
             (set_queue (enqueue (queue_item buf) q') s3)
             (if is_buffer buf
              then [EvRenderLock; EvQueuePush (queue_item buf); EvRenderCondWait]
              else [EvQueuePush (queue_item buf)])
         /\ queue_buffer_resume (set_queue (enqueue (queue_item buf) q') s3)
            = Ok (last_flow s2) (set_queue (enqueue (queue_item buf) q') s3)
                [EvRenderUnlock])
        /\ (gst_data_queue_is_full q' = true ->
            gst_eglglessink_queue_buffer buf s3
            = Ok WaitingForRoom s3
                ((if is_buffer buf then [EvRenderLock] else [])
                 ++ [EvQueuePush (queue_item buf)])
            /\ queue_buffer_push buf
                 (set_queue (gst_data_queue_set_flushing q' true) s3)
               = Ok (Returned GST_FLOW_WRONG_STATE)
                   (set_queue (gst_data_queue_set_flushing q' true) s3)
                   [EvRenderUnlock])).
Proof.
  intros Hpop Hitem Hflow s3.
  destruct (render_item_ack lib (world k) item (set_queue q' s) continue s2 tr2 Hitem)
    as [Hack Hcont].
  assert (continue = false) as ->.
  { rewrite Hcont. destruct (last_flow s2); try reflexivity. now elim Hflow. }
  pose proof (render_loop_break lib world k fuel s item q' s2 tr2 Hpop Hitem)
    as Hbreak.
  assert (Hq3 : queue s3 = q').
  { subst s3. rewrite Hbreak, result_sink_prepend.
    rewrite (render_thread_shutdown_keeps_queue (world k) s2).
    pose proof (render_item_keeps_queue lib (world k) item (set_queue q' s)) as Hq.
    rewrite Hitem in Hq. exact Hq. }
  assert (Hfl : flushing q' = false) by now apply pop_item_not_flushing in Hpop.
  assert (Hflow3 : last_flow s3 = last_flow s2).
  { subst s3. rewrite Hbreak, result_sink_prepend.
    now apply shutdown_keeps_failed_flow. }
  split; [exact Hack|]. split; [exact Hbreak|].
  split; [apply render_thread_shutdown_teardown|].
  split; [exact Hq3|]. split; [exact Hfl|]. split; [exact Hflow3|].
  intros buf. split.
  - intros Hfull. rewrite <- Hq3 in Hfull, Hfl. split.
    + rewrite <- Hq3. exact (queue_buffer_accepted buf s3 Hfl Hfull).
    + unfold queue_buffer_resume. rewrite bind_emit. cbn [get prepend app].
      sink_simpl. now rewrite Hflow3.
  - intros Hfull. rewrite <- Hq3 in Hfull, Hfl. split.
    + exact (queue_buffer_full buf s3 Hfl Hfull).
    + apply queue_buffer_push_flushing. reflexivity.
Qed.

Lemma render_loop_leaves_on_failure_witness :
  (* the frame whose buffer swap fails: acknowledged, then the thread
     is gone and the queue is still open *)
  exists s2 tr2,
    render_item GstVideo010.lib (Scenario.with_swap_buffers false Scenario.nominal)
      (queue_item (Some (Scenario.frame 1 Scenario.rgba_640x480)))
      (set_queue gst_data_queue_new Scenario.pushed)
    = Ok false s2 tr2
    /\ broadcasts tr2 = 1%nat
    /\ queue
         (result_sink
            (render_loop GstVideo010.lib
               (fun _ => Scenario.with_swap_buffers false Scenario.nominal) 0 1
               Scenario.pushed))
       = gst_data_queue_new.
Proof.
  eexists. eexists.
  assert (Hitem :
    render_item GstVideo010.lib (Scenario.with_swap_buffers false Scenario.nominal)
      (queue_item (Some (Scenario.frame 1 Scenario.rgba_640x480)))
      (set_queue gst_data_queue_new Scenario.pushed)
    = Ok false
        (result_sink
           (render_item GstVideo010.lib
              (Scenario.with_swap_buffers false Scenario.nominal)
              (queue_item (Some (Scenario.frame 1 Scenario.rgba_640x480)))
              (set_queue gst_data_queue_new Scenario.pushed)))
        (result_trace
           (render_item GstVideo010.lib
              (Scenario.with_swap_buffers false Scenario.nominal)
              (queue_item (Some (Scenario.frame 1 Scenario.rgba_640x480)))
              (set_queue gst_data_queue_new Scenario.pushed))))
    by (vm_compute; reflexivity).
  split; [exact Hitem|].
  destruct (render_loop_leaves_on_failure GstVideo010.lib
              (fun _ => Scenario.with_swap_buffers false Scenario.nominal)
              0 0 Scenario.pushed _ _ _ _ _ eq_refl Hitem)
    as (Hack & _ & _ & Hq & _).
  - vm_compute. discriminate.
  - split; [exact Hack | exact Hq].
Defined.

(* ===================================================================== *)
(** * The catalog probes and the number of configurations *)

Lemma probed_formats_in be fm :
  In fm catalog ->
  (In fm (probed_formats be) <-> eglChooseConfig be (attribs fm) <> None).
Proof.
  unfold probed_formats, catalog. intros Hin. rewrite filter_In.
  unfold probe_accepts. split.
  - intros [_ H]. destruct (eglChooseConfig be (attribs fm)); congruence.
  - intros H. split; [exact Hin|].
    destruct (eglChooseConfig be (attribs fm)); congruence.
Qed.

Lemma satisfiable_probe_accepts be fm :
  satisfiable be fm = true -> probe_accepts be fm = true.
Proof.
  unfold satisfiable, probe_accepts.
  destruct (eglChooseConfig be (attribs fm)); [reflexivity | discriminate].
Qed.

(** C5.  The catalog is built by three probes, in the order RGBA8888,
    RGB888, RGB565, and the match returns the first entry, in list
    order, whose compatible caps intersect the request, and nothing
    when no entry does.  An entry the backend reports satisfiable is
    appended.  But the probe appends an entry whenever its call of
    [eglChooseConfig] does not return EGL_FALSE, and does not look at
    the number of configurations the call reports: an entry for which
    the backend answers EGL_TRUE with zero configurations, which is how
    EGL reports that nothing satisfies the attributes, is appended
    too, and the match can return it. *)
Theorem format_catalog_probe_and_match (be : Backend) (s : GstEglGlesSink) :
  object_lock s = false ->
  (exists s',
      gst_eglglessink_fill_supported_fbuffer_configs be s
      = Ok (Z.of_nat (List.length (probed_formats be))) s'
          [EvProbeConfig eglglessink_RGBA8888_attribs;
           EvProbeConfig eglglessink_RGB888_attribs;
           EvProbeConfig eglglessink_RGB565_attribs]
      /\ supported_fmts s' = supported_fmts s ++ map Some (probed_formats be)
      /\ (forall fm, In fm catalog ->
            (In fm (probed_formats be)
             <-> eglChooseConfig be (attribs fm) <> None))
      /\ (forall fm, In fm catalog ->
            satisfiable be fm = true -> In (Some fm) (supported_fmts s'))
      /\ (forall fm, In fm catalog ->
            eglChooseConfig be (attribs fm) = Some 0 ->
            satisfiable be fm = false /\ In (Some fm) (supported_fmts s'))
      /\ (supported_fmts s = [] ->
          forall c, gst_eglglessink_get_compat_format_from_caps s' c
                    = find (entry_matches c) (probed_formats be)))
  /\ (forall s1 c,
        match gst_eglglessink_get_compat_format_from_caps s1 c with
        | Some fm =>
            exists l1 l2,
              supported_fmts s1 = l1 ++ Some fm :: l2
              /\ entry_matches c fm = true
              /\ forall fm', In (Some fm') l1 -> entry_matches c fm' = false
        | None =>
            forall fm, In (Some fm) (supported_fmts s1) -> entry_matches c fm = false
        end).
Proof.
  intros Hlock.
  destruct (catalog_probe_and_match be s Hlock)
    as [(s' & Hrun & Hfmts & Hmatch) Hfirst].
  split; [|exact Hfirst].
  exists s'. split; [exact Hrun|]. split; [exact Hfmts|].
  split; [intros fm; apply probed_formats_in|].
  split; [|split; [|exact Hmatch]].
  - intros fm Hin Hsat. rewrite Hfmts. apply in_or_app. right.
    apply in_map. apply probed_formats_in; [exact Hin|].
    unfold satisfiable in Hsat.
    destruct (eglChooseConfig be (attribs fm)); congruence.
  - intros fm Hin Hzero. split.
    + unfold satisfiable. now rewrite Hzero.
    + rewrite Hfmts. apply in_or_app. right. apply in_map.
      apply probed_formats_in; [exact Hin|]. congruence.
Qed.

Lemma format_catalog_probe_and_match_witness :
  (* a backend without any configuration for the three attribute lists *)
  exists s',
    gst_eglglessink_fill_supported_fbuffer_configs Scenario.zero_configs
      gst_eglglessink_init
    = Ok 3 s'
        [EvProbeConfig eglglessink_RGBA8888_attribs;
         EvProbeConfig eglglessink_RGB888_attribs;
         EvProbeConfig eglglessink_RGB565_attribs]
    /\ supported_fmts s' = [Some RGBA8888_fmt; Some RGB888_fmt; Some RGB565_fmt]
    /\ satisfiable Scenario.zero_configs RGBA8888_fmt = false
    /\ satisfiable Scenario.zero_configs RGB888_fmt = false
    /\ satisfiable Scenario.zero_configs RGB565_fmt = false.
Proof.
  destruct (format_catalog_probe_and_match Scenario.zero_configs
              gst_eglglessink_init eq_refl)
    as [(s' & Hrun & Hfmts & _) _].
  exists s'. split; [exact Hrun|]. split; [exact Hfmts|].
  repeat split; reflexivity.
Defined.

Lemma choose_config_zero be s fm n :
  selected_fmt s = Some fm ->
  eglChooseConfig be (attribs fm) = Some n ->
  n < 1 ->
  gst_eglglessink_choose_config be s = Ok false s [EvChooseConfig (attribs fm)].
Proof.
  intros Hsel Hcfg Hn. unfold gst_eglglessink_choose_config.
  rewrite bind_get, Hsel. cbv beta iota. rewrite bind_emit, Hcfg.
  apply Z.ltb_lt in Hn. rewrite Hn. reflexivity.
Qed.

(** C6.  When [eglChooseConfig] returns EGL_FALSE for each of the three
    attribute lists, the NULL to READY transition fails, and it fails
    before a thread is created or a window acquired: the call makes no
    call other than the three probes, and a later READY to PAUSED
    transition on the sink fails at once.  But a backend that reports
    zero satisfiable configurations as EGL does, with EGL_TRUE and zero
    configurations for each attribute list, passes initialisation: the
    NULL to READY transition returns what the parent class returns,
    with the sink marked started and all three entries in the catalog,
    and the READY to PAUSED transition creates the render thread.  On
    that backend [gst_eglglessink_choose_config], which does test the
    number of configurations, fails for every entry of the catalog. *)
Theorem zero_configs_pass_initialisation
  (lib : GstVideoLib) (min_version : Z) (be : Backend) (status : ThreadStatus)
  (s : GstEglGlesSink) :
  object_lock s = false ->
  ((forall fm, In fm catalog -> eglChooseConfig be (attribs fm) = None) ->
   exists s' tr,
     gst_eglglessink_change_state lib min_version be status
       GST_STATE_CHANGE_NULL_TO_READY s
     = Ok GST_STATE_CHANGE_FAILURE s' tr
     /\ existsb starts_thread_or_window tr = false
     /\ egl_started s' = egl_started s
     /\ thread s' = thread s
     /\ have_window s' = have_window s
     /\ (egl_started s = false ->
         forall be' status',
           gst_eglglessink_change_state lib min_version be' status'
             GST_STATE_CHANGE_READY_TO_PAUSED s'
           = Ok GST_STATE_CHANGE_FAILURE s' []))
  /\ (platform_wrapper_init be = true ->
      eglGetDisplay be <> 0 ->
      (exists major minor,
          eglInitialize be = Some (major, minor) /\ min_version <= major) ->
      (forall fm, In fm catalog -> eglChooseConfig be (attribs fm) = Some 0) ->
      (forall fm, In fm catalog -> satisfiable be fm = false)
      /\ exists s' tr,
           gst_eglglessink_change_state lib min_version be status
             GST_STATE_CHANGE_NULL_TO_READY s
           = Ok (parent_change_state be GST_STATE_CHANGE_NULL_TO_READY) s' tr
           /\ egl_started s' = true
           /\ supported_fmts s' = supported_fmts s ++ map Some catalog
           /\ (forall fm s1,
                 In fm catalog -> selected_fmt s1 = Some fm ->
                 gst_eglglessink_choose_config be s1
                 = Ok false s1 [EvChooseConfig (attribs fm)])
           /\ (g_thread_create be = true ->
               have_window s' = true \/ app_gives_window be = true
               \/ create_window s' = true ->
               exists s2 tr2,
                 gst_eglglessink_change_state lib min_version be status
                   GST_STATE_CHANGE_READY_TO_PAUSED s'
                 = Ok (parent_change_state be GST_STATE_CHANGE_READY_TO_PAUSED)
                     s2 tr2
                 /\ thread s2 = true)).
Proof.
  intros Hlock. split.
  - intros Hnone.
    destruct (egl_false_fails_before_thread_and_window lib min_version be status
                s Hlock Hnone)
      as (s' & tr & Hrun & Hev & Hs & Ht & Hw & _ & Hlater).
    exists s', tr. repeat split; assumption.
  - intros Hplat Hdpy Hinit Hzero.
    destruct (probed_formats_zero_configs be Hzero) as [Hprobed Hunsat].
    split; [exact Hunsat|].
    destruct (egl_init_run min_version be s Hlock)
      as (ok & s' & tr & Hrun & Hiff & Hlock' & _ & Hok & _).
    assert (Htrue : ok = true).
    { apply Hiff. repeat split; try assumption.
      rewrite Hprobed. discriminate. }
    subst ok. destruct (Hok eq_refl) as (Hstarted & _ & Hfmts & _).
    rewrite Hprobed in Hfmts.
    assert (Hopen : gst_eglglessink_open min_version be s = Ok true s' tr).
    { unfold gst_eglglessink_open. rewrite (bind_prepend _ _ _ _ _ _ Hrun).
      unfold ret; cbn [negb prepend]. now rewrite app_nil_r. }
    exists s', tr. split; [|split; [exact Hstarted|split; [exact Hfmts|split]]].
    + unfold gst_eglglessink_change_state.
      rewrite (bind_prepend _ _ _ _ _ _ Hopen). cbn [negb].
      destruct (parent_change_state be GST_STATE_CHANGE_NULL_TO_READY);
        rewrite ?bind_ret; unfold ret; cbn; now rewrite app_nil_r.
    + intros fm s1 Hin Hsel.
      apply (choose_config_zero be s1 fm 0 Hsel (Hzero fm Hin)). lia.
    + intros Hthread Hwindow.
      destruct (start_run be s' Hlock')
        as (ok & s2 & tr2 & Hstart & Hiff2 & _ & _ & Hok2 & _).
      assert (Htrue : ok = true) by (apply Hiff2; auto).
      subst ok. destruct (Hok2 eq_refl) as (_ & _ & Hth & _).
      exists s2, tr2. split; [|exact Hth].
      unfold gst_eglglessink_change_state.
      rewrite (bind_prepend _ _ _ _ _ _ Hstart). cbn [negb].
      destruct (parent_change_state be GST_STATE_CHANGE_READY_TO_PAUSED);
        rewrite ?bind_ret; unfold ret; cbn; now rewrite app_nil_r.
Qed.

Lemma zero_configs_pass_initialisation_witness :
  exists s' tr,
    gst_eglglessink_change_state GstVideo010.lib 1 Scenario.zero_configs
      ThreadExited GST_STATE_CHANGE_NULL_TO_READY gst_eglglessink_init
    = Ok GST_STATE_CHANGE_SUCCESS s' tr
    /\ egl_started s' = true
    /\ supported_fmts s' = map Some catalog.
Proof.
  destruct (zero_configs_pass_initialisation GstVideo010.lib 1
              Scenario.zero_configs ThreadExited gst_eglglessink_init eq_refl)
    as [_ Hzero].
  destruct Hzero as (_ & s' & tr & Hrun & Hstarted & Hfmts & _).
  - reflexivity.
  - discriminate.
  - exists 1, 4. split; [reflexivity | discriminate].
  - intros fm _. reflexivity.
  - exists s', tr. split; [exact Hrun|]. split; [exact Hstarted | exact Hfmts].
Defined.

(* ===================================================================== *)
(** * The display region is fitted to the surface *)

Lemma center_rect_scaling_fits (src dst : GstVideoRectangle) :
  fitted_to dst (GstVideo010.center_rect src dst true).
Proof.
  unfold fitted_to, GstVideo010.center_rect. cbn [negb].
  destruct (PrimFloat.ltb _ _).
  - left. cbn [Rect.x Rect.y Rect.w Rect.h]. repeat split.
  - destruct (PrimFloat.ltb _ _).
    + right. cbn [Rect.x Rect.y Rect.w Rect.h]. repeat split.
    + left. cbn [Rect.x Rect.y Rect.w Rect.h].
      rewrite Z.sub_diag. repeat split.
Qed.

(** C3, as the code has it.  With [force_aspect_ratio] set and no
    display region set (its width or height is 0), rendering computes
    the display region as follows.  With [dar_n / dar_d] the display
    aspect ratio of the frame, the frame rectangle is
    [{w = h * dar_n / dar_d, h = h}] when [dar_d] divides the height,
    else [{w = w, h = w * dar_d / dar_n}] when [dar_n] divides the
    width, else again the height-preserving rectangle.  The display
    region is what [gst_video_sink_center_rect], called with scaling
    on, makes of that rectangle and the surface: the rectangle is not
    kept at its size but fitted to the surface, so that the region
    spans the whole width of the surface and is centred along its
    height, or spans the whole height and is centred along the width.
    For a 640x480 frame, pixel aspect ratio 1/1, display pixel aspect
    ratio 1/1 and an 800x480 surface the region is
    [{x = 80, y = 0, w = 640, h = 480}], on a redraw of the bare sink
    as well as after a whole first frame went through caps
    configuration, surface setup and upload; on a 1280x720 surface it
    is [{x = 160, y = 0, w = 960, h = 720}]. *)
Theorem display_region_letterbox
  (lib : GstVideoLib) (be : Backend) (buf : option GstBuffer) (s : GstEglGlesSink)
  (dar_n dar_d : Z) :
  object_lock s = false ->
  force_aspect_ratio s = true ->
  Rect.w (display_region s) = 0 \/ Rect.h (display_region s) = 0 ->
  sink_display_ratio lib s = Some (dar_n, dar_d) ->
  match buf with
  | Some _ => exists tr, upload_frame lib be s = Ok true s tr
  | None => True
  end ->
  display_region (result_sink (gst_eglglessink_render_and_display lib be buf s))
  = gst_video_sink_center_rect lib
      (scaled_frame lib (video_width s) (video_height s) dar_n dar_d)
      (surface_rect be) true
  /\ (lib = GstVideo010.lib ->
      fitted_to (surface_rect be)
        (display_region
           (result_sink (gst_eglglessink_render_and_display lib be buf s))))
  /\ (0 <= video_width s < 2 ^ 31 -> 0 <= video_height s < 2 ^ 31 ->
      0 < dar_n < 2 ^ 31 -> 0 < dar_d < 2 ^ 31 ->
      video_height s * dar_n / dar_d < 2 ^ 31 ->
      video_width s * dar_d / dar_n < 2 ^ 31 ->
      scaled_frame GstVideo010.lib (video_width s) (video_height s) dar_n dar_d
      = specified_frame (video_width s) (video_height s) dar_n dar_d)
  /\ sink_display_ratio GstVideo010.lib letterbox_sink = Some (4, 3)
  /\ display_region
       (result_sink
          (gst_eglglessink_render_and_display GstVideo010.lib Scenario.nominal
             None letterbox_sink))
     = {| Rect.x := 80; Rect.y := 0; Rect.w := 640; Rect.h := 480 |}
  /\ display_region Scenario.playing
     = {| Rect.x := 80; Rect.y := 0; Rect.w := 640; Rect.h := 480 |}
  /\ display_region
       (result_sink
          (gst_eglglessink_render_and_display GstVideo010.lib
             Scenario.wide_surface None letterbox_sink))
     = {| Rect.x := 160; Rect.y := 0; Rect.w := 960; Rect.h := 720 |}.
Proof.
  intros Hlock Hforce Hunset Hdar Hupload.
  assert (Hregion :
    display_region (result_sink (gst_eglglessink_render_and_display lib be buf s))
    = gst_video_sink_center_rect lib
        (scaled_frame lib (video_width s) (video_height s) dar_n dar_d)
        (surface_rect be) true).
  { destruct (update_display_region_run lib be s Hlock Hunset)
      as (s' & Hrun & Hregion & _).
    rewrite (default_display_region_letterbox lib be s dar_n dar_d Hforce Hdar)
      in Hregion.
    assert (Hrest :
      display_region
        (result_sink
           ((region <- update_display_region lib be ;;
             if negb region then ret GST_FLOW_ERROR else draw_and_swap be) s))
      = display_region s').
    { rewrite result_sink_bind, Hrun.
      destruct (vbo_error be); cbn [negb]; [reflexivity|].
      apply draw_and_swap_region. }
    unfold gst_eglglessink_render_and_display.
    rewrite result_sink_bind.
    destruct buf as [b|].
    + destruct Hupload as (tr & Hup). rewrite Hup. cbn [negb].
      rewrite Hrest. exact Hregion.
    + unfold ret at 1. cbn [negb]. rewrite Hrest. exact Hregion. }
  split; [exact Hregion|].
  split; [|split; [|repeat split; vm_compute; reflexivity]].
  - intros Hlib. rewrite Hregion. subst lib.
    apply center_rect_scaling_fits.
  - intros. now apply scaled_frame_specified.
Qed.

Lemma display_region_letterbox_witness :
  display_region
    (result_sink
       (gst_eglglessink_render_and_display GstVideo010.lib Scenario.nominal
          None letterbox_sink))
  = gst_video_sink_center_rect GstVideo010.lib
      (scaled_frame GstVideo010.lib 640 480 4 3)
      (surface_rect Scenario.nominal) true.
Proof.
  refine (proj1 (display_region_letterbox GstVideo010.lib Scenario.nominal None
                   letterbox_sink 4 3 _ _ _ _ _)).
  - reflexivity.
  - reflexivity.
  - left. reflexivity.
  - vm_compute. reflexivity.
  - exact I.
Defined.

(** C3 as stated does not hold: the scaled rectangle is not just
    centred within the surface.  For a 640x480 frame with pixel aspect
    ratio 1/1 on a display with square pixels the scaled rectangle is
    640x480; on a 1280x720 surface, centring it would give
    [{x = 320, y = 120, w = 640, h = 480}], but the display region is
    [{x = 160, y = 0, w = 960, h = 720}]: the rectangle was enlarged to
    the height of the surface. *)
Lemma display_region_is_fitted_not_centered :
  force_aspect_ratio letterbox_sink = true
  /\ Rect.w (display_region letterbox_sink) = 0
  /\ sink_display_ratio GstVideo010.lib letterbox_sink = Some (4, 3)
  /\ specified_frame (video_width letterbox_sink) (video_height letterbox_sink) 4 3
     = {| Rect.x := 0; Rect.y := 0; Rect.w := 640; Rect.h := 480 |}
  /\ surface_rect Scenario.wide_surface
     = {| Rect.x := 0; Rect.y := 0; Rect.w := 1280; Rect.h := 720 |}
  /\ centered_in
       (specified_frame (video_width letterbox_sink) (video_height letterbox_sink)
          4 3)
       (surface_rect Scenario.wide_surface)
     = {| Rect.x := 320; Rect.y := 120; Rect.w := 640; Rect.h := 480 |}
  /\ display_region
       (result_sink
          (gst_eglglessink_render_and_display GstVideo010.lib
             Scenario.wide_surface None letterbox_sink))
     = {| Rect.x := 160; Rect.y := 0; Rect.w := 960; Rect.h := 720 |}
  /\ display_region
       (result_sink
          (gst_eglglessink_render_and_display GstVideo010.lib
             Scenario.wide_surface None letterbox_sink))
     <> centered_in
          (specified_frame (video_width letterbox_sink)
             (video_height letterbox_sink) 4 3)
          (surface_rect Scenario.wide_surface).
Proof. vm_compute. repeat split; try reflexivity. discriminate. Qed.

(* ===================================================================== *)
(** * A rebuild that stops short *)











